(** * CertManager: CSR workflow, command gateway, status reconciler and
      notification dispatcher

    A shallow embedding of the server-side TypeScript of CertManager: the
    PowerShell service ([executePowerShell] and its validators), the CSR
    controller ([createCSR], [updateCSR], [generateCSR], [submitCSRToCA],
    [deleteCSR]), the certificate service ([updateCertificateStatuses]) and
    the notification service ([sendExpirationNotifications]), with the
    Mongoose models they use, followed by the properties of the specification
    that concern them.

    Conventions of the embedding.
    - JavaScript strings are [string]s (sequences of 8-bit characters); a
      [Date] is its millisecond time value, a [Z]; the numbers that occur
      (key sizes, day counts, ports) are integers, [Z].
    - [x?: T] fields are [option T]; JavaScript truthiness of a string is
      [truthy] (the empty string is falsy).
    - An [async] handler is a function from the state it reads (document
      collections, the end of the external process, the clock, the mail
      transport) to the state it leaves and the response it sends.
    - The document store is taken to be reliable: [save], [create],
      [deleteOne] and [updateMany] apply their effect.  Schema-level
      validators of the models (the [enum] lists) are not part of the
      embedding; the checks the handlers make themselves are. *)

From stdpp Require Import base option list gmap strings pretty sorting.
From Stdlib Require Import ZArith Ascii String.

Local Open Scope string_scope.
Local Open Scope Z_scope.

(* ===================================================================== *)
(** ** JavaScript preliminaries *)
(* ===================================================================== *)

Module JS.

(** [if (s)] on a string. *)
Definition truthy (s : string) : bool :=
  match s with EmptyString => false | String _ _ => true end.

(** [if (o)] on an optional string ([undefined] and the empty string are falsy). *)
Definition truthy_opt (o : option string) : bool :=
  match o with Some s => truthy s | None => false end.

(** [a || b] on optional strings. *)
Definition or_else (o : option string) (d : string) : string :=
  match o with
  | Some s => if truthy s then s else d
  | None => d
  end.

Definition dquote : ascii := "034"%char.
Definition newline : ascii := "010"%char.
Definition squote : ascii := "'"%char.

Definition DQ : string := String dquote EmptyString.
Definition NL : string := String newline EmptyString.

(** [parts.join(sep)] *)
Fixpoint join (sep : string) (parts : list string) : string :=
  match parts with
  | [] => ""
  | [p] => p
  | p :: rest => p +:+ sep +:+ join sep rest
  end.

(** White space removed by [String.prototype.trim] (8-bit part). *)
Definition is_space (c : ascii) : bool :=
  let n := nat_of_ascii c in
  ((9 <=? n) && (n <=? 13))%nat || (n =? 32)%nat || (n =? 160)%nat.

Fixpoint trim_start (s : string) : string :=
  match s with
  | String c s' => if is_space c then trim_start s' else s
  | EmptyString => EmptyString
  end.

(** Drops the trailing white space: a character is kept when it is not a
    space or when something is kept after it. *)
Fixpoint trim_end (s : string) : string :=
  match s with
  | EmptyString => EmptyString
  | String c s' =>
      match trim_end s' with
      | EmptyString => if is_space c then EmptyString else String c EmptyString
      | t => String c t
      end
  end.

Definition trim (s : string) : string := trim_end (trim_start s).

(** *** Regular expressions

    The validators of the program are anchored regular expressions
    ([/^...$/.test(s)]) over character classes.  They are embedded as
    expressions and matched with derivatives, so that each validator is
    written the way the source writes it. *)

Inductive regex : Type :=
| RNone                           (* matches nothing *)
| REps                            (* the empty string *)
| RCls (p : ascii → bool)         (* [...] *)
| RSeq (r1 r2 : regex)
| RAlt (r1 r2 : regex)
| RStar (r : regex).

Definition RPlus (r : regex) : regex := RSeq r (RStar r).

Fixpoint nullable (r : regex) : bool :=
  match r with
  | RNone => false
  | REps => true
  | RCls _ => false
  | RSeq r1 r2 => nullable r1 && nullable r2
  | RAlt r1 r2 => nullable r1 || nullable r2
  | RStar _ => true
  end.

Fixpoint deriv (a : ascii) (r : regex) : regex :=
  match r with
  | RNone => RNone
  | REps => RNone
  | RCls p => if p a then REps else RNone
  | RSeq r1 r2 =>
      if nullable r1
      then RAlt (RSeq (deriv a r1) r2) (deriv a r2)
      else RSeq (deriv a r1) r2
  | RAlt r1 r2 => RAlt (deriv a r1) (deriv a r2)
  | RStar r1 => RSeq (deriv a r1) (RStar r1)
  end.

(** [/^r$/.test(s)] *)
Fixpoint test (r : regex) (s : string) : bool :=
  match s with
  | EmptyString => nullable r
  | String a s' => test (deriv a r) s'
  end.

Definition in_range (lo hi c : ascii) : bool :=
  ((nat_of_ascii lo <=? nat_of_ascii c) && (nat_of_ascii c <=? nat_of_ascii hi))%nat.

Definition is_char (x c : ascii) : bool := Ascii.eqb x c.
Global Arguments is_char : simpl never.

(** [a-zA-Z0-9] *)
Definition alnum (c : ascii) : bool :=
  in_range "a" "z" c || in_range "A" "Z" c || in_range "0" "9" c.

Definition alpha (c : ascii) : bool :=
  in_range "a" "z" c || in_range "A" "Z" c.

Fixpoint one_of (cs : string) (c : ascii) : bool :=
  match cs with
  | EmptyString => false
  | String x cs' => is_char x c || one_of cs' c
  end.

(** A JavaScript number as far as the gateway distinguishes them. *)
Inductive number : Type :=
| Finite (z : Z)
| NaN
| PosInfinity
| NegInfinity.

Definition isFinite (n : number) : bool :=
  match n with Finite _ => true | _ => false end.

(** [`${n}`] *)
Definition number_to_string (n : number) : string :=
  match n with
  | Finite z => pretty z
  | NaN => "NaN"
  | PosInfinity => "Infinity"
  | NegInfinity => "-Infinity"
  end.

(** [set.has(x)] for a [Set] written as the list of its elements in
    insertion order. *)
Definition has `{EqDecision A} (set : list A) (x : A) : bool :=
  bool_decide (x ∈ set).

End JS.

(* ===================================================================== *)
(** ** services/powershellService.ts: the command gateway *)
(* ===================================================================== *)

Module PowerShell.
Import JS.

Record PowerShellResult : Type := mkResult {
  success : bool;
  output : string;
  error : option string;
}.

Inductive ParamValue : Type :=
| PString (s : string)
| PNumber (n : number)
| PBoolean (b : bool).

Record PowerShellOptions : Type := mkOptions {
  script : option string;
  scriptFile : option string;
  parameters : list (string * ParamValue);   (* Object.entries order *)
  timeout : option Z;
  remoteComputer : option string;
}.

Definition ALLOWED_SCRIPTS : list string := [
  "Bind-IISCertificate.ps1";
  "Get-CAInfo.ps1";
  "Get-IssuedCertificates.ps1";
  "Install-Certificate.ps1";
  "New-CertificateRequest.ps1";
  "Submit-CertificateRequest.ps1"
].

(** [value.replace(/'/g, "''")] *)
Fixpoint sanitizePSString (value : string) : string :=
  match value with
  | EmptyString => EmptyString
  | String c rest =>
      if is_char squote c
      then String squote (String squote (sanitizePSString rest))
      else String c (sanitizePSString rest)
  end.

(** [/^[a-zA-Z0-9._-]+$/] *)
Definition SAFE_HOSTNAME_REGEX : regex :=
  RPlus (RCls (λ c, alnum c || one_of "._-" c)).

Definition validateHostname (hostname : string) : bool :=
  test SAFE_HOSTNAME_REGEX hostname && (String.length hostname <=? 253)%nat.

(** [/^[a-zA-Z0-9._\\-]+$/] *)
Definition SAFE_CONFIG_STRING_REGEX : regex :=
  RPlus (RCls (λ c, alnum c || one_of "._\-" c)).

Definition validateConfigString (value : string) : bool :=
  test SAFE_CONFIG_STRING_REGEX value && (String.length value <=? 500)%nat.

(** [/^[a-zA-Z][a-zA-Z0-9]*$/] *)
Definition SAFE_PARAM_KEY_REGEX : regex :=
  RSeq (RCls alpha) (RStar (RCls alnum)).

(** What the promise executor of [executePowerShell] does before it hands
    over to the child process: it resolves with a result, throws (the
    promise rejects), or spawns [powershell.exe]. *)
Inductive Gateway : Type :=
| Resolved (r : PowerShellResult)
| Rejected (message : string)
| Spawned (args : list string) (timeout : Z).

(** One entry of [Object.entries(parameters).map(...)]: the text of the
    parameter, or the message of the error thrown. *)
Definition paramString (key : string) (value : ParamValue) : string + string :=
  if negb (test SAFE_PARAM_KEY_REGEX key) then
    inl ("Invalid parameter key: " +:+ key)
  else
    match value with
    | PBoolean b => inr (if b then "-" +:+ key else "")
    | PNumber n =>
        if negb (isFinite n) then inl ("Invalid numeric parameter: " +:+ key)
        else inr ("-" +:+ key +:+ " " +:+ number_to_string n)
    | PString s => inr ("-" +:+ key +:+ " '" +:+ sanitizePSString s +:+ "'")
    end.

(** The [map]: the first entry that throws aborts it. *)
Fixpoint paramStrings (ps : list (string * ParamValue)) : string + list string :=
  match ps with
  | [] => inr []
  | (k, v) :: rest =>
      match paramString k v with
      | inl e => inl e
      | inr s =>
          match paramStrings rest with
          | inl e => inl e
          | inr ss => inr (s :: ss)
          end
      end
  end.

Definition failure (err : string) : PowerShellResult :=
  {| success := false; output := ""; error := Some err |}.

Section Gateway.
(** Node's [path] module and the module directory are the platform's. *)
Variable path_join : string → string → string.
Variable path_resolve : string → string.
Variable SCRIPTS_DIR : string.

Definition executePowerShell (options : PowerShellOptions) : Gateway :=
  let args := ["-NoProfile"; "-NonInteractive"; "-ExecutionPolicy"; "Bypass"] in
  let command0 : PowerShellResult + string :=
    if truthy_opt (scriptFile options) then
      let sf := default "" (scriptFile options) in
      if negb (has ALLOWED_SCRIPTS sf) then
        inl (failure ("Script not allowed: " +:+ sf))
      else
        let fullPath := path_join SCRIPTS_DIR sf in
        let resolvedPath := path_resolve fullPath in
        let resolvedScriptsDir := path_resolve SCRIPTS_DIR in
        if negb (String.prefix resolvedScriptsDir resolvedPath) then
          inl (failure "Invalid script path")
        else inr ("& '" +:+ sanitizePSString fullPath +:+ "'")
    else if truthy_opt (script options) then
      inr (default "" (script options))
    else inl (failure "No script or scriptFile provided") in
  match command0 with
  | inl r => Resolved r
  | inr command =>
      match paramStrings (parameters options) with
      | inl e => Rejected e
      | inr strs =>
          let strs := filter (λ s, truthy s = true) strs in
          let command :=
            if (0 <? List.length strs)%nat
            then command +:+ " " +:+ join " " strs
            else command in
          let spawn command :=
            Spawned (args ++ ["-Command"; command])
                    (default 60000 (timeout options)) in
          if truthy_opt (remoteComputer options) then
            let rc := default "" (remoteComputer options) in
            if negb (validateHostname rc) then
              Resolved (failure "Invalid remote computer name")
            else
              spawn ("Invoke-Command -ComputerName '" +:+ sanitizePSString rc
                     +:+ "' -ScriptBlock { " +:+ command +:+ " }")
          else spawn command
      end
  end.

(** How the child process ends: the [close] event with its exit code
    ([null] when it was killed), or the [error] event. *)
Inductive ProcessEnd : Type :=
| Close (code : option Z) (stdout stderr : string)
| SpawnError (message : string).

Definition onEnd (e : ProcessEnd) : PowerShellResult :=
  match e with
  | Close code stdout stderr =>
      if bool_decide (code = Some 0)
      then {| success := true; output := trim stdout; error := None |}
      else {| success := false; output := trim stdout; error := Some (trim stderr) |}
  | SpawnError m => failure m
  end.

(** The promise as the caller sees it: its value, or [inl] the error it
    rejects with; [spawned] tells whether a process was started. *)
Definition settle (g : Gateway) (e : ProcessEnd) : string + PowerShellResult :=
  match g with
  | Resolved r => inr r
  | Rejected m => inl m
  | Spawned _ _ => inr (onEnd e)
  end.

Definition spawned (g : Gateway) : list (list string) :=
  match g with
  | Spawned args _ => [args]
  | _ => []
  end.

(** [/^[a-zA-Z0-9 _-]+$/] *)
Definition TEMPLATE_REGEX : regex :=
  RPlus (RCls (λ c, alnum c || one_of " _-" c)).

Definition submitCSR (csrPath configString template : string) : Gateway :=
  if negb (validateConfigString configString) then
    Resolved (failure "Invalid CA config string")
  else if negb (test TEMPLATE_REGEX template) then
    Resolved (failure "Invalid template name")
  else
    executePowerShell {|
      script := None;
      scriptFile := Some "Submit-CertificateRequest.ps1";
      parameters := [("CSRPath", PString csrPath);
                     ("ConfigString", PString configString);
                     ("Template", PString template)];
      timeout := Some 60000;
      remoteComputer := None |}.

End Gateway.

(** *** The target shell's reading of a single-quoted literal

    Not part of the program: the rule the gateway relies on, as the
    comment above [sanitizePSString] states it ("In PS single-quoted
    strings, the only escape is '' for a literal single quote").
    [readBody s] reads the characters after the opening quote and returns
    the string denoted and what follows the closing quote; [None] when the
    literal is not closed. *)
Fixpoint readBody (s : string) : option (string * string) :=
  match s with
  | EmptyString => None
  | String c rest =>
      if is_char squote c then
        match rest with
        | String c' rest' =>
            if is_char squote c'
            then (λ p, (String squote p.1, p.2)) <$> readBody rest'
            else Some (EmptyString, rest)
        | EmptyString => Some (EmptyString, EmptyString)
        end
      else (λ p, (String c p.1, p.2)) <$> readBody rest
  end.

Definition readSingleQuoted (s : string) : option (string * string) :=
  match s with
  | String c rest => if is_char squote c then readBody rest else None
  | EmptyString => None
  end.

End PowerShell.

(* ===================================================================== *)
(** ** models/CSRRequest.ts and the CSR controller: the workflow engine *)
(* ===================================================================== *)

Module Step.
Inductive Status : Type := pending | completed | failed.

Global Instance Status_eq_dec : EqDecision Status.
Proof. solve_decision. Defined.

(** [IWorkflowStep] *)
Record t : Type := mk {
  step : string;
  status : Status;
  completedAt : option Z;
  error : option string;
}.
End Step.

Module CSR.
Import JS PowerShell.

Inductive Status : Type :=
| draft | pending | submitted | issued | failed | cancelled.

Global Instance Status_eq_dec : EqDecision Status.
Proof. solve_decision. Defined.

Record Subject : Type := mkSubject {
  organization : option string;
  organizationalUnit : option string;
  locality : option string;
  state : option string;
  country : option string;
}.

(** [ICSRRequest].  Fields hold what the controller reads at run time: the
    algorithm names are strings and the key size a number. *)
Record CSRRequest : Type := mkCSR {
  commonName : string;
  subjectAlternativeNames : list string;
  subject : Subject;
  keySize : Z;
  keyAlgorithm : string;
  hashAlgorithm : string;
  templateName : option string;
  targetCAId : option string;
  targetServerId : option string;
  status : Status;
  csrPEM : option string;
  privateKeyLocation : option string;
  issuedCertificateId : option string;
  requestedBy : string;
  requestedAt : Z;
  processedAt : option Z;
  errorMessage : option string;
  workflowSteps : list Step.t;
}.

Definition SAFE_SUBJECT_REGEX : regex :=
  RPlus (RCls (λ c, alnum c || one_of " .,_@()-" c)).

Definition SAFE_HASH_ALGORITHMS : list string :=
  ["SHA256"; "SHA384"; "SHA512"; "SHA1"].

Definition VALID_KEY_SIZES : list Z := [2048; 4096].

Definition validateSubjectField (value : string) : bool :=
  test SAFE_SUBJECT_REGEX value && (String.length value <=? 200)%nat.

(** [/^[a-zA-Z0-9.*@_-]+(\.[a-zA-Z0-9*_-]+)*$/] *)
Definition SAN_REGEX : regex :=
  RSeq (RPlus (RCls (λ c, alnum c || one_of ".*@_-" c)))
       (RStar (RSeq (RCls (is_char ".")) (RPlus (RCls (λ c, alnum c || one_of "*_-" c))))).

Definition validateSAN (san : string) : bool :=
  test SAN_REGEX san && (String.length san <=? 253)%nat.

(** The request bodies of [createCSR] and [updateCSR]: every field may be
    left out. *)
Record Body : Type := mkBody {
  b_commonName : option string;
  b_subjectAlternativeNames : option (list string);
  b_subject : option Subject;
  b_keySize : option Z;
  b_keyAlgorithm : option string;
  b_hashAlgorithm : option string;
  b_templateName : option string;
  b_targetCAId : option string;
  b_targetServerId : option string;
}.

Inductive Json : Type :=
| JError (error : string) (details : option string)
| JMessage (message : string) (pem : option string)
| JDoc (csr : CSRRequest).

Record Response : Type := mkResponse { code : Z; json : Json }.

Definition err (c : Z) (m : string) : Response :=
  {| code := c; json := JError m None |}.

(** What a handler leaves behind: the collection, the response, and the
    argument vectors of the processes it started. *)
Record Outcome : Type := mkOutcome {
  store : gmap string CSRRequest;
  response : Response;
  invoked : list (list string);
}.

Definition reply (st : gmap string CSRRequest) (r : Response) : Outcome :=
  {| store := st; response := r; invoked := [] |}.

Definition set_status (s : Status) (c : CSRRequest) : CSRRequest :=
  mkCSR (commonName c) (subjectAlternativeNames c) (subject c) (keySize c)
    (keyAlgorithm c) (hashAlgorithm c) (templateName c) (targetCAId c)
    (targetServerId c) s (csrPEM c) (privateKeyLocation c)
    (issuedCertificateId c) (requestedBy c) (requestedAt c) (processedAt c)
    (errorMessage c) (workflowSteps c).

Definition set_workflowSteps (w : list Step.t) (c : CSRRequest) : CSRRequest :=
  mkCSR (commonName c) (subjectAlternativeNames c) (subject c) (keySize c)
    (keyAlgorithm c) (hashAlgorithm c) (templateName c) (targetCAId c)
    (targetServerId c) (status c) (csrPEM c) (privateKeyLocation c)
    (issuedCertificateId c) (requestedBy c) (requestedAt c) (processedAt c)
    (errorMessage c) w.

Definition set_generated (pem loc : string) (c : CSRRequest) : CSRRequest :=
  mkCSR (commonName c) (subjectAlternativeNames c) (subject c) (keySize c)
    (keyAlgorithm c) (hashAlgorithm c) (templateName c) (targetCAId c)
    (targetServerId c) (status c) (Some pem) (Some loc)
    (issuedCertificateId c) (requestedBy c) (requestedAt c) (processedAt c)
    (errorMessage c) (workflowSteps c).

Definition set_errorMessage (e : option string) (c : CSRRequest) : CSRRequest :=
  mkCSR (commonName c) (subjectAlternativeNames c) (subject c) (keySize c)
    (keyAlgorithm c) (hashAlgorithm c) (templateName c) (targetCAId c)
    (targetServerId c) (status c) (csrPEM c) (privateKeyLocation c)
    (issuedCertificateId c) (requestedBy c) (requestedAt c) (processedAt c)
    e (workflowSteps c).

Definition set_processedAt (t : Z) (c : CSRRequest) : CSRRequest :=
  mkCSR (commonName c) (subjectAlternativeNames c) (subject c) (keySize c)
    (keyAlgorithm c) (hashAlgorithm c) (templateName c) (targetCAId c)
    (targetServerId c) (status c) (csrPEM c) (privateKeyLocation c)
    (issuedCertificateId c) (requestedBy c) (requestedAt c) (Some t)
    (errorMessage c) (workflowSteps c).

(** [updateWorkflowStep]: the first step of that name, if any, is changed
    in place. *)
Definition touch (st : Step.Status) (error : option string) (now : Z)
    (s : Step.t) : Step.t :=
  {| Step.step := Step.step s;
     Step.status := st;
     Step.completedAt :=
       if bool_decide (st = Step.completed) then Some now else Step.completedAt s;
     Step.error := if truthy_opt error then error else Step.error s |}.

Fixpoint updateSteps (steps : list Step.t) (stepName : string)
    (st : Step.Status) (error : option string) (now : Z) : list Step.t :=
  match steps with
  | [] => []
  | s :: rest =>
      if String.eqb (Step.step s) stepName
      then touch st error now s :: rest
      else s :: updateSteps rest stepName st error now
  end.

Definition updateWorkflowStep (csr : CSRRequest) (stepName : string)
    (st : Step.Status) (error : option string) (now : Z) : CSRRequest :=
  set_workflowSteps (updateSteps (workflowSteps csr) stepName st error now) csr.

(** [csr.workflowSteps.find(s => s.step === stepName)] *)
Definition findStep (csr : CSRRequest) (stepName : string) : option Step.t :=
  List.find (λ s, String.eqb (Step.step s) stepName) (workflowSteps csr).

Definition buildSubjectLine (csr : CSRRequest) : string :=
  let part (tag : string) (o : option string) : list string :=
    if truthy_opt o then [tag +:+ default "" o] else [] in
  join ", "
    (["CN=" +:+ commonName csr]
     ++ part "O=" (organization (subject csr))
     ++ part "OU=" (organizationalUnit (subject csr))
     ++ part "L=" (locality (subject csr))
     ++ part "S=" (state (subject csr))
     ++ part "C=" (country (subject csr))).

(** [createCSR].  [newId] is the identifier the store gives the document,
    [cas] and [servers] the identifiers present in those collections. *)
Definition createCSR (cas servers : gmap string string)
    (newId : string) (user : option string) (now : Z) (b : Body)
    (st : gmap string CSRRequest) : Outcome :=
  if negb (truthy_opt (b_commonName b)) then
    reply st (err 400 "Common name is required")
  else if truthy_opt (b_targetCAId b)
          && bool_decide (cas !! default "" (b_targetCAId b) = None) then
    reply st (err 400 "Invalid certificate authority")
  else if truthy_opt (b_targetServerId b)
          && bool_decide (servers !! default "" (b_targetServerId b) = None) then
    reply st (err 400 "Invalid target server")
  else
    let csr := {|
      commonName := default "" (b_commonName b);
      subjectAlternativeNames := default [] (b_subjectAlternativeNames b);
      subject := default (mkSubject None None None None None) (b_subject b);
      keySize := default 2048 (b_keySize b);
      keyAlgorithm := default "RSA" (b_keyAlgorithm b);
      hashAlgorithm := default "SHA256" (b_hashAlgorithm b);
      templateName := b_templateName b;
      targetCAId := b_targetCAId b;
      targetServerId := b_targetServerId b;
      status := draft;
      csrPEM := None;
      privateKeyLocation := None;
      issuedCertificateId := None;
      requestedBy := or_else user "unknown";
      requestedAt := now;
      processedAt := None;
      errorMessage := None;
      workflowSteps := [
        Step.mk "Generate CSR" Step.pending None None;
        Step.mk "Submit to CA" Step.pending None None;
        Step.mk "Install Certificate" Step.pending None None ] |} in
    reply (<[newId := csr]> st) {| code := 201; json := JDoc csr |}.

(** The white-listed assignment of [updateCSR]. *)
Definition applyBody (b : Body) (c : CSRRequest) : CSRRequest :=
  mkCSR
    (default (commonName c) (b_commonName b))
    (default (subjectAlternativeNames c) (b_subjectAlternativeNames b))
    (default (subject c) (b_subject b))
    (default (keySize c) (b_keySize b))
    (default (keyAlgorithm c) (b_keyAlgorithm b))
    (default (hashAlgorithm c) (b_hashAlgorithm b))
    (match b_templateName b with Some t => Some t | None => templateName c end)
    (match b_targetCAId b with Some t => Some t | None => targetCAId c end)
    (match b_targetServerId b with Some t => Some t | None => targetServerId c end)
    (status c) (csrPEM c) (privateKeyLocation c) (issuedCertificateId c)
    (requestedBy c) (requestedAt c) (processedAt c) (errorMessage c)
    (workflowSteps c).

Definition updateCSR (id : string) (b : Body)
    (st : gmap string CSRRequest) : Outcome :=
  match st !! id with
  | None => reply st (err 404 "CSR request not found")
  | Some csr =>
      if negb (bool_decide (status csr = draft)) then
        reply st (err 400 "Can only update draft CSR requests")
      else
        let csr := applyBody b csr in
        reply (<[id := csr]> st) {| code := 200; json := JDoc csr |}
  end.

Definition deleteCSR (id : string) (st : gmap string CSRRequest) : Outcome :=
  match st !! id with
  | None => reply st (err 404 "CSR request not found")
  | Some csr =>
      if bool_decide (status csr = submitted) then
        reply st (err 400 "Cannot delete submitted CSR")
      else
        reply (delete id st)
              {| code := 200; json := JMessage "CSR request deleted" None |}
  end.

Definition lines (l : list string) : string := join NL l.

(** The text of the INF file of [generateCSR]. *)
Definition infContent (csr : CSRRequest) : string :=
  let sans :=
    join NL (imap (λ i san, "DNS." +:+ pretty (Z.of_nat i + 1) +:+ "=" +:+ san)
                  (subjectAlternativeNames csr)) in
  let replace_nl (s : string) : string :=
    string_of_list_ascii
      ((λ c, if is_char newline c then "&"%char else c) <$> list_ascii_of_string s) in
  trim (lines [
    "";
    "[Version]";
    "Signature=" +:+ DQ +:+ "$Windows NT$" +:+ DQ;
    "";
    "[NewRequest]";
    "Subject = " +:+ DQ +:+ buildSubjectLine csr +:+ DQ;
    "KeySpec = 1";
    "KeyLength = " +:+ pretty (keySize csr);
    "Exportable = TRUE";
    "MachineKeySet = TRUE";
    "SMIME = FALSE";
    "PrivateKeyArchive = FALSE";
    "UserProtected = FALSE";
    "UseExistingKeySet = FALSE";
    "ProviderName = " +:+ DQ +:+ "Microsoft RSA SChannel Cryptographic Provider" +:+ DQ;
    "ProviderType = 12";
    "RequestType = PKCS10";
    "KeyUsage = 0xa0";
    "HashAlgorithm = " +:+ hashAlgorithm csr;
    "";
    "[EnhancedKeyUsageExtension]";
    "OID=1.3.6.1.5.5.7.3.1";
    "";
    (if truthy sans
     then lines ["[Extensions]";
                 "2.5.29.17 = " +:+ DQ +:+ "{text}" +:+ DQ;
                 "_continue_ = " +:+ DQ +:+ replace_nl sans +:+ DQ]
     else "");
    "" ]).

(** The inline script [generateCSR] hands to the gateway. *)
Definition generateScript (csr : CSRRequest) (safeId : string) : string :=
  lines [
    "";
    "        $infContent = @'";
    infContent csr;
    "'@";
    "        $infPath = Join-Path $env:TEMP '" +:+ safeId +:+ ".inf'";
    "        $csrPath = Join-Path $env:TEMP '" +:+ safeId +:+ ".csr'";
    "";
    "        $infContent | Out-File -FilePath $infPath -Encoding ASCII";
    "";
    "        certreq -new $infPath $csrPath";
    "";
    "        if (Test-Path $csrPath) {";
    "          Get-Content $csrPath -Raw";
    "        } else {";
    "          throw " +:+ DQ +:+ "CSR generation failed" +:+ DQ;
    "        }";
    "      " ].

(** The first optional subject field that is set and fails the validator. *)
Definition badSubjectField (s : Subject) : option string :=
  fst <$> List.find
    (λ p : string * option string,
       truthy_opt p.2 && negb (validateSubjectField (default "" p.2)))
    [ ("organization", organization s);
      ("organizationalUnit", organizationalUnit s);
      ("locality", locality s);
      ("state", state s);
      ("country", country s) ].

Section Handlers.
Variable path_join : string → string → string.
Variable path_resolve : string → string.
Variable SCRIPTS_DIR : string.
(** [process.env.TEMP] *)
Variable TEMP : option string.

(** [generateCSR].  [servers] maps the identifiers of the Server
    collection to their [fqdn]; [e] is how the child process ends if one
    is started. *)
Definition generateCSR (servers : gmap string string) (id : string)
    (now : Z) (e : ProcessEnd) (st : gmap string CSRRequest) : Outcome :=
  match st !! id with
  | None => reply st (err 404 "CSR request not found")
  | Some csr =>
    if negb (bool_decide (status csr = draft))
       && negb (bool_decide (status csr = pending)) then
      reply st (err 400 "CSR already generated or processed")
    else if negb (validateSubjectField (commonName csr)) then
      reply st (err 400 "Invalid common name: contains disallowed characters")
    else if negb (has SAFE_HASH_ALGORITHMS (hashAlgorithm csr)) then
      reply st (err 400 ("Invalid hash algorithm. Allowed: "
                         +:+ join ", " SAFE_HASH_ALGORITHMS))
    else if negb (has VALID_KEY_SIZES (keySize csr)) then
      reply st (err 400 ("Invalid key size. Allowed: "
                         +:+ join ", " (pretty <$> VALID_KEY_SIZES)))
    else
    match badSubjectField (subject csr) with
    | Some field =>
        reply st (err 400 ("Invalid subject field '" +:+ field
                           +:+ "': contains disallowed characters"))
    | None =>
    match List.find (λ san, negb (validateSAN san)) (subjectAlternativeNames csr) with
    | Some san =>
        reply st (err 400 ("Invalid SAN '" +:+ san +:+ "': must be a valid DNS name"))
    | None =>
      let csr := updateWorkflowStep (set_status pending csr)
                   "Generate CSR" Step.pending None now in
      let st := <[id := csr]> st in
      let computerName := or_else (targetServerId csr ≫= (servers !!.)) "localhost" in
      if negb (String.eqb computerName "localhost")
         && negb (validateHostname computerName) then
        reply st (err 400 "Invalid target server hostname")
      else
        let g := executePowerShell path_join path_resolve SCRIPTS_DIR {|
          script := Some (generateScript csr id);
          scriptFile := None;
          parameters := [];
          timeout := None;
          remoteComputer :=
            if negb (String.eqb computerName "localhost")
            then Some computerName else None |} in
        match settle g e with
        | inl _ =>
            {| store := st; response := err 500 "Failed to generate CSR";
               invoked := spawned g |}
        | inr result =>
            if success result then
              let csr := set_generated (output result)
                           (computerName +:+ ":LocalMachine\My") csr in
              let csr := updateWorkflowStep csr "Generate CSR" Step.completed None now in
              {| store := <[id := csr]> st;
                 response := {| code := 200;
                                json := JMessage "CSR generated successfully"
                                                 (Some (output result)) |};
                 invoked := spawned g |}
            else
              let csr := set_errorMessage (PowerShell.error result) csr in
              let csr := updateWorkflowStep csr "Generate CSR" Step.failed
                           (PowerShell.error result) now in
              let csr := set_status failed csr in
              {| store := <[id := csr]> st;
                 response := {| code := 500;
                                json := JError "Failed to generate CSR"
                                               (PowerShell.error result) |};
                 invoked := spawned g |}
        end
    end end
  end.

(** [submitCSRToCA].  [cas] maps the identifiers of the
    CertificateAuthority collection to their [configString]. *)
Definition submitCSRToCA (cas : gmap string string) (id : string)
    (now : Z) (e : ProcessEnd) (st : gmap string CSRRequest) : Outcome :=
  match st !! id with
  | None => reply st (err 404 "CSR request not found")
  | Some csr =>
    if negb (truthy_opt (csrPEM csr)) then
      reply st (err 400 "CSR must be generated first")
    else
    match targetCAId csr ≫= (cas !!.) with
    | None => reply st (err 400 "Target CA must be specified")
    | Some configString =>
      let csr := updateWorkflowStep (set_status submitted csr)
                   "Submit to CA" Step.pending None now in
      let st := <[id := csr]> st in
      let g := submitCSR path_join path_resolve SCRIPTS_DIR
                 (or_else TEMP "/tmp" +:+ "/" +:+ id +:+ ".csr")
                 configString
                 (or_else (templateName csr) "WebServer") in
      match settle g e with
      | inl _ =>
          {| store := st; response := err 500 "Failed to submit CSR";
             invoked := spawned g |}
      | inr result =>
          if success result then
            let csr := updateWorkflowStep csr "Submit to CA" Step.completed None now in
            let csr := set_processedAt now csr in
            {| store := <[id := csr]> st;
               response := {| code := 200;
                              json := JMessage "CSR submitted successfully" None |};
               invoked := spawned g |}
          else
            let csr := set_errorMessage (PowerShell.error result) csr in
            let csr := updateWorkflowStep csr "Submit to CA" Step.failed
                         (PowerShell.error result) now in
            let csr := set_status failed csr in
            {| store := <[id := csr]> st;
               response := {| code := 500;
                              json := JError "Failed to submit CSR"
                                             (PowerShell.error result) |};
               invoked := spawned g |}
      end
    end
  end.

(** The operations of the workflow engine, with what each request
    carries and what it meets outside (the reference collections, the
    clock, the end of the process it may start). *)
Inductive Op : Type :=
| Create (cas servers : gmap string string) (newId : string)
         (user : option string) (now : Z) (b : Body)
| Update (id : string) (b : Body)
| Generate (servers : gmap string string) (id : string) (now : Z) (e : ProcessEnd)
| Submit (cas : gmap string string) (id : string) (now : Z) (e : ProcessEnd)
| Delete (id : string).

Definition perform (o : Op) (st : gmap string CSRRequest) : Outcome :=
  match o with
  | Create cas servers newId user now b => createCSR cas servers newId user now b st
  | Update id b => updateCSR id b st
  | Generate servers id now e => generateCSR servers id now e st
  | Submit cas id now e => submitCSRToCA cas id now e st
  | Delete id => deleteCSR id st
  end.

(** The collection after a sequence of requests. *)
Definition run (ops : list Op) (st : gmap string CSRRequest)
    : gmap string CSRRequest :=
  foldl (λ st o, store (perform o st)) st ops.

End Handlers.

(** The "Generate CSR" step of the CSR has status completed. *)
Definition generateCompleted (csr : CSRRequest) : Prop :=
  Step.status <$> findStep csr "Generate CSR" = Some Step.completed.

(** [Q] holds of the csrPEM of every CSR of the collection whose
    "Generate CSR" step is completed. *)
Definition onCompleted (Q : option string → Prop)
    (st : gmap string CSRRequest) : Prop :=
  ∀ id csr, st !! id = Some csr → generateCompleted csr → Q (csrPEM csr).

(** A generation whose process exits with code 0 printed something. *)
Definition printsOnSuccess (o : Op) : Prop :=
  match o with
  | Generate _ _ _ (Close code stdout _) => code = Some 0 → trim stdout ≠ ""
  | _ => True
  end.

End CSR.

(* ===================================================================== *)
(** ** models/Certificate.ts and services/certificateService.ts *)
(* ===================================================================== *)

Module Certificate.

Inductive Status : Type := active | expiring | expired | revoked.

Global Instance Status_eq_dec : EqDecision Status.
Proof. solve_decision. Defined.

(** [INotificationSent] *)
Record NotificationSent : Type := mkSent {
  type : string;
  sentAt : Z;
  recipients : list string;
}.

(** [ICertificate], with the fields the services read or write. *)
Record t : Type := mk {
  serialNumber : string;
  thumbprint : string;
  commonName : string;
  issuerCommonName : string;
  validFrom : Z;
  validTo : Z;
  status : Status;
  deployedTo : list string;               (* serverName of each deployment *)
  notificationsSent : list NotificationSent;
}.

Definition set_status (s : Status) (c : t) : t :=
  mk (serialNumber c) (thumbprint c) (commonName c) (issuerCommonName c)
     (validFrom c) (validTo c) s (deployedTo c) (notificationsSent c).

(** [cert.notificationsSent.push(n)] *)
Definition push (n : NotificationSent) (c : t) : t :=
  mk (serialNumber c) (thumbprint c) (commonName c) (issuerCommonName c)
     (validFrom c) (validTo c) (status c) (deployedTo c)
     (notificationsSent c ++ [n])%list.

End Certificate.

Module CertificateService.
Import Certificate.

(** [days * 24 * 60 * 60 * 1000] *)
Definition days_ms (days : Z) : Z := days * 24 * 60 * 60 * 1000.

(** [Certificate.updateMany(filter, { $set: { status } })]: the collection
    after the update and [modifiedCount], the number of documents the
    update changed. *)
Definition updateMany (filter : t → bool) (s : Status) (certs : list t)
    : list t * Z :=
  ((λ c, if filter c then set_status s c else c) <$> certs,
   Z.of_nat (List.length
     (List.filter (λ c, filter c && negb (bool_decide (status c = s))) certs))).

Definition updateCertificateStatuses (now : Z) (certs : list t) : list t * Z :=
  let in30Days := now + days_ms 30 in
  (* Mark expired certificates *)
  let expiredResult :=
    updateMany
      (λ c, negb (JS.has [expired; revoked] (status c)) && (validTo c <? now)%Z)
      expired certs in
  (* Mark expiring certificates (within 30 days) *)
  let expiringResult :=
    updateMany
      (λ c, bool_decide (status c = active)
            && (now <=? validTo c)%Z && (validTo c <=? in30Days)%Z)
      expiring expiredResult.1 in
  (* Mark active certificates (not expiring within 30 days) *)
  let activeResult :=
    updateMany
      (λ c, bool_decide (status c = expiring) && (in30Days <? validTo c)%Z)
      active expiringResult.1 in
  let totalUpdated := expiredResult.2 + expiringResult.2 + activeResult.2 in
  (activeResult.1, totalUpdated).

(** The document-wise view of the above, used to reason about a run: what
    one [updateMany] and what the three in a row do to one document. *)
Definition apply_set (filter : t → bool) (s : Status) (c : t) : t :=
  if filter c then set_status s c else c.

Definition reconcile (now : Z) (c : t) : t :=
  apply_set (λ c, bool_decide (status c = expiring) && (now + days_ms 30 <? validTo c))
    active
    (apply_set (λ c, bool_decide (status c = active)
                     && (now <=? validTo c) && (validTo c <=? now + days_ms 30))
       expiring
       (apply_set (λ c, negb (JS.has [expired; revoked] (status c)) && (validTo c <? now))
          expired c)).

(** Successive runs of the reconciler, one per clock reading. *)
Definition reconcileRuns (nows : list Z) (certs : list t) : list t :=
  foldl (λ cs now, (updateCertificateStatuses now cs).1) certs nows.

End CertificateService.

(* ===================================================================== *)
(** ** models/NotificationSettings.ts and services/notificationService.ts *)
(* ===================================================================== *)

Module NotificationService.
Import Certificate.

(** [IThreshold] *)
Record Threshold : Type := mkThreshold { days : Z; t_enabled : bool }.

(** [IRecipient] *)
Record Recipient : Type := mkRecipient { r_type : string; value : string }.

(** [INotificationSettings] (the SMTP part is the transport's business). *)
Record Settings : Type := mkSettings {
  enabled : bool;
  thresholds : list Threshold;
  recipients : list Recipient;
}.

(** [IUser], as far as recipients are resolved from it. *)
Record User : Type := mkUser {
  username : string;
  email : string;
  roles : list string;
}.

Record NotificationResult : Type := mkNotificationResult {
  success : bool;
  sent : Z;
  failed : Z;
  errors : list string;
}.

(** What happens outside the function during one run.
    - [clock k] is the time [new Date()] gives the [k]-th call of
      [findCertificatesExpiringInDays];
    - [sendMail k i] is [None] when [sendExpirationEmail] returns for the
      document at position [i] of the collection during the [k]-th
      threshold, and the error it throws otherwise;
    - [stamp k i] is the [new Date()] of the record then pushed. *)
Record World : Type := mkWorld {
  clock : nat → Z;
  sendMail : nat → nat → option string;
  stamp : nat → nat → Z;
}.

(** One call of [sendExpirationEmail], as the log of a run keeps it: the
    recipients and the subject line of a mail that went out (its HTML body is
    not kept), or the entry of [result.errors] of one that did not. *)
Inductive Event : Type :=
| Delivered (index : nat) (days : Z) (to : list string) (subject : string)
| Failed (index : nat) (days : Z) (error : string).

(** [emails.add(x)] on a [Set] kept in insertion order. *)
Definition add (x : string) (emails : list string) : list string :=
  if bool_decide (x ∈ emails) then emails else (emails ++ [x])%list.

Definition resolveRecipients (users : list User) (rs : list Recipient)
    : list string :=
  foldl
    (λ emails r,
       if String.eqb (r_type r) "email" then add (value r) emails
       else if String.eqb (r_type r) "user" then
         match List.find (λ u, String.eqb (username u) (value r)) users with
         | Some u => if JS.truthy (email u) then add (email u) emails else emails
         | None => emails
         end
       else if String.eqb (r_type r) "role" then
         foldl (λ emails u, if JS.truthy (email u) then add (email u) emails else emails)
               emails
               (List.filter (λ u, bool_decide (value r ∈ roles u)) users)
       else emails)
    [] rs.

(** [settings.thresholds.filter(t => t.enabled).map(t => t.days)
      .sort((a, b) => b - a)] *)
Definition enabledThresholds (s : Settings) : list Z :=
  merge_sort Z.ge (days <$> List.filter t_enabled (thresholds s)).

(** The document filter of [findCertificatesExpiringInDays]. *)
Definition expiringInDays (now : Z) (days : Z) (c : t) : bool :=
  let targetDate := now + CertificateService.days_ms days in
  let previousDay := now + CertificateService.days_ms (days - 1) in
  negb (bool_decide (status c = revoked))
  && (previousDay <=? validTo c)%Z && (validTo c <=? targetDate)%Z.

(** [`${days}day`] *)
Definition typeOf (days : Z) : string := pretty days +:+ "day".

Definition alreadySent (days : Z) (c : t) : bool :=
  existsb (λ n, String.eqb (type n) (typeOf days)) (notificationsSent c).

Definition subjectOf (days : Z) (c : t) : string :=
  let severity :=
    if (days <=? 7)%Z then "CRITICAL" else if (days <=? 30)%Z then "WARNING" else "INFO" in
  "[" +:+ severity +:+ "] Certificate Expiring in " +:+ pretty days
      +:+ " Days: " +:+ commonName c.

(** The body of the inner loop for the document at position [i], during
    the [k]-th threshold: the document as saved and the mail attempted. *)
Definition notify (w : World) (rcpts : list string) (k : nat) (days : Z)
    (i : nat) (c : t) : t * list Event :=
  if negb (expiringInDays (clock w k) days c) then (c, [])
  else if alreadySent days c then (c, [])
  else
    match sendMail w k i with
    | None =>
        (push (mkSent (typeOf days) (stamp w k i) rcpts) c,
         [Delivered i days rcpts (subjectOf days c)])
    | Some e =>
        (c, [Failed i days ("Failed to send for " +:+ commonName c +:+ ": " +:+ e)])
    end.

(** [for (const cert of expiringCerts)], over the collection from
    position [i] on. *)
Fixpoint sweep (w : World) (rcpts : list string) (k : nat) (days : Z)
    (i : nat) (certs : list t) : list t * list Event :=
  match certs with
  | [] => ([], [])
  | c :: rest =>
      let r := notify w rcpts k days i c in
      let rs := sweep w rcpts k days (S i) rest in
      (r.1 :: rs.1, (r.2 ++ rs.2)%list)
  end.

(** [for (const days of enabledThresholds)], from the [k]-th on. *)
Fixpoint loop (w : World) (rcpts : list string) (k : nat) (ds : list Z)
    (certs : list t) : list t * list Event :=
  match ds with
  | [] => (certs, [])
  | d :: ds' =>
      let r := sweep w rcpts k d 0 certs in
      let rs := loop w rcpts (S k) ds' r.1 in
      (rs.1, (r.2 ++ rs.2)%list)
  end.

Definition is_delivered (e : Event) : bool :=
  match e with Delivered _ _ _ _ => true | Failed _ _ _ => false end.

Definition error_of (e : Event) : list string :=
  match e with Delivered _ _ _ _ => [] | Failed _ _ m => [m] end.

Record Run : Type := mkRun {
  certificates : list t;          (* the collection afterwards *)
  result : NotificationResult;
  events : list Event;            (* the calls of [sendExpirationEmail] *)
}.

Definition idle (certs : list t) : Run :=
  {| certificates := certs;
     result := mkNotificationResult true 0 0 [];
     events := [] |}.

(** [sendExpirationNotifications].  [settings] is what
    [NotificationSettings.findOne()] returns. *)
Definition sendExpirationNotifications (settings : option Settings)
    (users : list User) (w : World) (certs : list t) : Run :=
  match settings with
  | None => idle certs
  | Some settings =>
      if negb (enabled settings) then idle certs
      else
        let ds := enabledThresholds settings in
        if bool_decide (ds = []) then idle certs
        else
          let rcpts := resolveRecipients users (recipients settings) in
          if bool_decide (rcpts = []) then idle certs
          else
            let r := loop w rcpts 0 ds certs in
            {| certificates := r.1;
               result := {|
                 success := true;
                 sent := Z.of_nat (List.length (List.filter is_delivered r.2));
                 failed := Z.of_nat (List.length
                             (List.filter (λ e, negb (is_delivered e)) r.2));
                 errors := r.2 ≫= error_of |};
               events := r.2 |}
  end.

(** The document at position [i] followed through the thresholds: the view
    of [loop] from one document, used to reason about a run. *)
Fixpoint track (w : World) (rcpts : list string) (i : nat) (k : nat)
    (ds : list Z) (c : t) : t * list Event :=
  match ds with
  | [] => (c, [])
  | d :: ds' =>
      let r := notify w rcpts k d i c in
      let rs := track w rcpts i (S k) ds' r.1 in
      (rs.1, (r.2 ++ rs.2)%list)
  end.

(** The mails that went out for the document at position [i] and the
    threshold [days]. *)
Definition delivered (i : nat) (days : Z) (evs : list Event) : nat :=
  List.length (List.filter
    (λ e, match e with
          | Delivered j d _ _ => bool_decide (j = i) && bool_decide (d = days)
          | Failed _ _ _ => false
          end) evs).

(** The calls of [sendExpirationEmail] for the document at position [i]. *)
Definition attempts (i : nat) (evs : list Event) : list Event :=
  List.filter
    (λ e, match e with
          | Delivered j _ _ _ | Failed j _ _ => bool_decide (j = i)
          end) evs.

(** The entries of [notificationsSent] of a given type. *)
Definition sentOfType (ty : string) (c : t) : nat :=
  List.length (List.filter (λ n, String.eqb (type n) ty) (notificationsSent c)).

End NotificationService.

(* ===================================================================== *)
(** ** Sample data *)
(* ===================================================================== *)

Module Sample.

(** A platform: POSIX-style [path.join], paths already absolute. *)
Definition path_join (dir file : string) : string := dir +:+ "/" +:+ file.
Definition path_resolve (p : string) : string := p.
Definition SCRIPTS_DIR : string := "/srv/app/scripts".

Definition csr (hash : string) (s : CSR.Status) (pem : option string)
    : CSR.CSRRequest :=
  CSR.mkCSR "test.example.com" [] (CSR.mkSubject None None None None None)
    2048 "RSA" hash None None None s pem None None "alice" 0 None None
    [ Step.mk "Generate CSR" Step.pending None None;
      Step.mk "Submit to CA" Step.pending None None;
      Step.mk "Install Certificate" Step.pending None None ].

Definition body : CSR.Body :=
  CSR.mkBody (Some "test.example.com") None None (Some 2048) None (Some "SHA256")
    None None None.

Definition pem : string := "-----BEGIN NEW CERTIFICATE REQUEST-----".

(** A CSR is created and generated; a second generation then fails. *)
Definition generated : list CSR.Op :=
  [ CSR.Create ∅ ∅ "65a1" (Some "alice") 1000 body;
    CSR.Generate ∅ "65a1" 2000 (PowerShell.Close (Some 0) pem "") ].

Definition regenerated : list CSR.Op :=
  generated ++ [ CSR.Generate ∅ "65a1" 3000
                   (PowerShell.Close (Some 1) "" "certreq failed") ].

Definition cert (s : Certificate.Status) (validTo : Z)
    (sent : list Certificate.NotificationSent) : Certificate.t :=
  Certificate.mk "4A00000012" "9F86D081884C7D65" "www.example.com" "Example Issuing CA"
    0 validTo s ["WEB01"] sent.

(** The default thresholds, all enabled, and one explicit recipient. *)
Definition settings : NotificationService.Settings :=
  NotificationService.mkSettings true
    ((λ d, NotificationService.mkThreshold d true) <$> [90; 60; 30; 14; 7; 1])
    [NotificationService.mkRecipient "email" "pki-ops@example.com"].

(** A run at time 1000 during which every mail is accepted. *)
Definition world : NotificationService.World :=
  NotificationService.mkWorld (λ _, 1000) (λ _ _, None) (λ _ _, 1000).

End Sample.

(* ===================================================================== *)
(** ** What the validators accept *)
(* ===================================================================== *)

Module Lang.
Import JS.

(** [s.split('').every(p)] *)
Fixpoint every (p : ascii → bool) (s : string) : bool :=
  match s with
  | EmptyString => true
  | String c s' => p c && every p s'
  end.

(** The strings an expression denotes, against which [test] is checked. *)
Inductive matches : regex → string → Prop :=
| m_eps : matches REps ""
| m_cls p c : p c = true → matches (RCls p) (String c "")
| m_seq r1 r2 s1 s2 : matches r1 s1 → matches r2 s2 → matches (RSeq r1 r2) (s1 +:+ s2)
| m_alt_l r1 r2 s : matches r1 s → matches (RAlt r1 r2) s
| m_alt_r r1 r2 s : matches r2 s → matches (RAlt r1 r2) s
| m_star_nil r : matches (RStar r) ""
| m_star_cons r s1 s2 :
    matches r s1 → matches (RStar r) s2 → matches (RStar r) (s1 +:+ s2).

End Lang.

(* ===================================================================== *)
(** ** services/powershellService.ts: the calls built on the gateway *)
(* ===================================================================== *)

Module PowerShellCalls.
Import JS PowerShell.

(** [s.toLowerCase()] on 8-bit characters. *)
Definition lower (c : ascii) : ascii :=
  let n := nat_of_ascii c in
  if ((65 <=? n) && (n <=? 90))%nat
     || ((192 <=? n) && (n <=? 222) && negb (n =? 215))%nat
  then ascii_of_nat (n + 32) else c.

Fixpoint toLowerCase (s : string) : string :=
  match s with
  | EmptyString => EmptyString
  | String c s' => String (lower c) (toLowerCase s')
  end.

(** What a caller of an [async] function of the service gets: the processes
    started on the way and the value of the promise ([inl] when it
    rejects). *)
Record Call (A : Type) : Type := mkCall {
  started : list (list string);
  value : string + A;
}.
Global Arguments mkCall {A} _ _.
Global Arguments started {A} _.
Global Arguments value {A} _.

(** What the gateway requires of one entry of [parameters]: a key of the
    form [/^[a-zA-Z][a-zA-Z0-9]*$/] and, for a number, a finite one. *)
Definition checked (kv : string * ParamValue) : Prop :=
  test SAFE_PARAM_KEY_REGEX kv.1 = true
  ∧ match kv.2 with PNumber n => isFinite n = true | _ => True end.

Section Calls.
Variable path_join : string → string → string.
Variable path_resolve : string → string.
Variable SCRIPTS_DIR : string.

(** [await executePowerShell(options)], the process ending with [e]. *)
Definition run (options : PowerShellOptions) (e : ProcessEnd) : Call PowerShellResult :=
  let g := executePowerShell path_join path_resolve SCRIPTS_DIR options in
  mkCall (spawned g) (settle g e).

(** [result.success && result.output.toLowerCase() === 'true'] *)
Definition saysTrue (c : Call PowerShellResult) : Call bool :=
  mkCall (started c)
    (match value c with
     | inl m => inl m
     | inr r => inr (success r && String.eqb (toLowerCase (output r)) "true")
     end).

Definition testConnection (hostname : string) (e : ProcessEnd) : Call bool :=
  if negb (validateHostname hostname) then mkCall [] (inr false)
  else
    saysTrue (run {|
      script := Some ("Test-Connection -ComputerName '" +:+ sanitizePSString hostname
                      +:+ "' -Count 1 -Quiet");
      scriptFile := None; parameters := [];
      timeout := Some 10000; remoteComputer := None |} e).

Definition testWinRM (hostname : string) (e : ProcessEnd) : Call bool :=
  if negb (validateHostname hostname) then mkCall [] (inr false)
  else
    saysTrue (run {|
      script := Some ("Test-WSMan -ComputerName '" +:+ sanitizePSString hostname
                      +:+ "' -ErrorAction SilentlyContinue | Out-Null; $?");
      scriptFile := None; parameters := [];
      timeout := Some 15000; remoteComputer := None |} e).

Definition refused (err : string) : Call PowerShellResult :=
  mkCall [] (inr (failure err)).

Definition getRemoteCertificates (hostname : string) (e : ProcessEnd)
    : Call PowerShellResult :=
  if negb (validateHostname hostname) then refused "Invalid hostname"
  else
    run {|
      script := Some (CSR.lines [
        "";
        "      Invoke-Command -ComputerName '" +:+ sanitizePSString hostname
          +:+ "' -ScriptBlock {";
        "        Get-ChildItem -Path Cert:\LocalMachine\My |";
        "        Select-Object Thumbprint, Subject, NotBefore, NotAfter, Issuer |";
        "        ConvertTo-Json -Compress";
        "      }";
        "    " ]);
      scriptFile := None; parameters := [];
      timeout := Some 30000; remoteComputer := None |} e.

Definition getCAIssuedCertificates (configString : string) (e : ProcessEnd)
    : Call PowerShellResult :=
  if negb (validateConfigString configString) then refused "Invalid CA config string"
  else
    run {|
      script := None; scriptFile := Some "Get-IssuedCertificates.ps1";
      parameters := [("ConfigString", PString configString)];
      timeout := Some 120000; remoteComputer := None |} e.

Definition installCertificate (hostname certPath : string) (e : ProcessEnd)
    : Call PowerShellResult :=
  if negb (validateHostname hostname) then refused "Invalid hostname"
  else
    run {|
      script := None; scriptFile := Some "Install-Certificate.ps1";
      parameters := [("ComputerName", PString hostname);
                     ("CertificatePath", PString certPath)];
      timeout := Some 60000; remoteComputer := None |} e.

(** [/^[a-fA-F0-9]+$/] *)
Definition THUMBPRINT_REGEX : regex :=
  RPlus (RCls (λ c, in_range "a" "f" c || in_range "A" "F" c || in_range "0" "9" c)).

(** [port] is the argument as passed, 443 when left out. *)
Definition bindIISCertificate (hostname siteName thumbprint : string)
    (port : option number) (e : ProcessEnd) : Call PowerShellResult :=
  if negb (validateHostname hostname) then refused "Invalid hostname"
  else if negb (test THUMBPRINT_REGEX thumbprint) then
    refused "Invalid certificate thumbprint"
  else
    run {|
      script := None; scriptFile := Some "Bind-IISCertificate.ps1";
      parameters := [("ComputerName", PString hostname);
                     ("SiteName", PString siteName);
                     ("Thumbprint", PString thumbprint);
                     ("Port", PNumber (default (Finite 443) port))];
      timeout := Some 60000; remoteComputer := None |} e.

End Calls.

End PowerShellCalls.

(* ===================================================================== *)
(** ** The CSR controller seen as a transition system *)
(* ===================================================================== *)

Module Workflow.
Import JS PowerShell CSR.

(** The steps [createCSR] gives a request. *)
Definition initialSteps : list Step.t :=
  [ Step.mk "Generate CSR" Step.pending None None;
    Step.mk "Submit to CA" Step.pending None None;
    Step.mk "Install Certificate" Step.pending None None ].

(** The fields [createCSR] leaves unset and [updateCSR] does not assign. *)
Definition untouched (csr : CSRRequest) : Prop :=
  csrPEM csr = None ∧ privateKeyLocation csr = None ∧ processedAt csr = None
  ∧ errorMessage csr = None ∧ workflowSteps csr = initialSteps.

(** How far a request has come: not started, generating, settled. *)
Definition rank (s : Status) : nat :=
  match s with draft => 0 | pending => 1 | _ => 2 end.

(** The document a request addresses. *)
Definition target (o : Op) : string :=
  match o with
  | Create _ _ newId _ _ _ => newId
  | Update id _ => id
  | Generate _ id _ _ => id
  | Submit _ id _ _ => id
  | Delete id => id
  end.

Definition isCreate (o : Op) : Prop :=
  match o with Create _ _ _ _ _ _ => True | _ => False end.

(** [generateCSR] and [submitCSRToCA] save the document before they call
    the gateway. *)
Definition generating (now : Z) (csr : CSRRequest) : CSRRequest :=
  updateWorkflowStep (set_status pending csr) "Generate CSR" Step.pending None now.

Definition submitting (now : Z) (csr : CSRRequest) : CSRRequest :=
  updateWorkflowStep (set_status submitted csr) "Submit to CA" Step.pending None now.

(** What a request other than [createCSR] and [deleteCSR] can make of the
    document it finds. *)
Inductive Transition (csr : CSRRequest) : CSRRequest → Prop :=
| t_update b :
    status csr = draft → Transition csr (applyBody b csr)
| t_generating now :
    status csr = draft ∨ status csr = pending →
    Transition csr (generating now csr)
| t_generated now out loc :
    status csr = draft ∨ status csr = pending →
    Transition csr
      (updateWorkflowStep (set_generated out loc (generating now csr))
         "Generate CSR" Step.completed None now)
| t_generate_failed now er :
    status csr = draft ∨ status csr = pending →
    is_Some er →
    Transition csr
      (set_status failed
         (updateWorkflowStep (set_errorMessage er (generating now csr))
            "Generate CSR" Step.failed er now))
| t_submitting now :
    truthy_opt (csrPEM csr) = true → is_Some (targetCAId csr) →
    Transition csr (submitting now csr)
| t_submitted now :
    truthy_opt (csrPEM csr) = true → is_Some (targetCAId csr) →
    Transition csr
      (set_processedAt now
         (updateWorkflowStep (submitting now csr)
            "Submit to CA" Step.completed None now))
| t_submit_failed now er :
    truthy_opt (csrPEM csr) = true → is_Some (targetCAId csr) →
    is_Some er →
    Transition csr
      (set_status failed
         (updateWorkflowStep (set_errorMessage er (submitting now csr))
            "Submit to CA" Step.failed er now)).

End Workflow.

(* ===================================================================== *)
(** ** The checks of [generateCSR] *)
(* ===================================================================== *)

Module Generation.
Import JS PowerShell CSR.

(** The optional subject fields, in the order [generateCSR] checks them. *)
Definition subjectFields (s : Subject) : list (option string) :=
  [organization s; organizationalUnit s; locality s; state s; country s].

(** What [generateCSR] requires of a request before it builds the INF
    text. *)
Definition validated (csr : CSRRequest) : Prop :=
  validateSubjectField (commonName csr) = true
  ∧ hashAlgorithm csr ∈ SAFE_HASH_ALGORITHMS
  ∧ keySize csr ∈ VALID_KEY_SIZES
  ∧ (∀ v, Some v ∈ subjectFields (subject csr) → v ≠ "" →
          validateSubjectField v = true)
  ∧ Forall (λ san, validateSAN san = true) (subjectAlternativeNames csr).

(** [targetServer?.fqdn || 'localhost'] *)
Definition computerName (servers : gmap string string) (csr : CSRRequest) : string :=
  or_else (targetServerId csr ≫= (servers !!.)) "localhost".

End Generation.

(* ===================================================================== *)
(** ** services/certificateService.ts: the queries *)
(* ===================================================================== *)

Module CertificateQueries.
Import Certificate CertificateService.

(** [Certificate.countDocuments(filter)] *)
Definition countDocuments (filter : t → bool) (certs : list t) : Z :=
  Z.of_nat (List.length (List.filter filter certs)).

Record CertificateStats : Type := mkStats {
  total : Z;
  active : Z;
  expiring : Z;
  expired : Z;
  revoked : Z;
  expiringIn30Days : Z;
  expiringIn7Days : Z;
}.

Definition getCertificateStats (now : Z) (certs : list t) : CertificateStats :=
  let in7Days := now + 7 * 24 * 60 * 60 * 1000 in
  let in30Days := now + 30 * 24 * 60 * 60 * 1000 in
  {| total := countDocuments (λ _, true) certs;
     active := countDocuments (λ c, bool_decide (status c = Certificate.active)) certs;
     expiring := countDocuments (λ c, bool_decide (status c = Certificate.expiring)) certs;
     expired := countDocuments (λ c, bool_decide (status c = Certificate.expired)) certs;
     revoked := countDocuments (λ c, bool_decide (status c = Certificate.revoked)) certs;
     expiringIn30Days :=
       countDocuments
         (λ c, negb (JS.has [Certificate.expired; Certificate.revoked] (status c))
               && (now <=? validTo c) && (validTo c <=? in30Days)) certs;
     expiringIn7Days :=
       countDocuments
         (λ c, negb (JS.has [Certificate.expired; Certificate.revoked] (status c))
               && (now <=? validTo c) && (validTo c <=? in7Days)) certs |}.

(** The order of [.sort({ validTo: 1 })]. *)
Definition byValidTo (a b : t) : Prop := validTo a ≤ validTo b.

Global Instance byValidTo_dec : RelDecision byValidTo.
Proof. intros a b. unfold byValidTo. apply _. Defined.

(** [getExpiringCertificates(days)], [days] being the argument as passed
    (30 when left out). *)
Definition getExpiringCertificates (days : option Z) (now : Z) (certs : list t)
    : list t :=
  let days := default 30 days in
  let futureDate := now + days * 24 * 60 * 60 * 1000 in
  merge_sort byValidTo
    (List.filter
       (λ c, negb (JS.has [Certificate.expired; Certificate.revoked] (status c))
             && (now <=? validTo c) && (validTo c <=? futureDate)) certs).

End CertificateQueries.

(* ===================================================================== *)
(** ** services/notificationService.ts: the text of a mail *)
(* ===================================================================== *)

Module Html.
Import JS.

(** [str.replace(/c/g, by)] for a one-character pattern. *)
Fixpoint replaceAll (c : ascii) (by_ : string) (str : string) : string :=
  match str with
  | EmptyString => EmptyString
  | String x rest =>
      if is_char c x then by_ +:+ replaceAll c by_ rest
      else String x (replaceAll c by_ rest)
  end.

Definition escapeHtml (str : string) : string :=
  replaceAll squote "&#039;"
    (replaceAll dquote "&quot;"
       (replaceAll ">" "&gt;"
          (replaceAll "<" "&lt;"
             (replaceAll "&" "&amp;" str)))).

(** [cert.deployedTo.map(d => escapeHtml(d.serverName)).join(', ')
      || 'Unknown'] *)
Definition deployedServers (c : Certificate.t) : string :=
  let joined := join ", " (escapeHtml <$> Certificate.deployedTo c) in
  if truthy joined then joined else "Unknown".

(** The entity of one character, against which [escapeHtml] is checked. *)
Definition entity (c : ascii) : string :=
  if is_char "&" c then "&amp;"
  else if is_char "<" c then "&lt;"
  else if is_char ">" c then "&gt;"
  else if is_char dquote c then "&quot;"
  else if is_char squote c then "&#039;"
  else String c "".

Fixpoint entities (s : string) : string :=
  match s with
  | EmptyString => EmptyString
  | String c rest => entity c +:+ entities rest
  end.

End Html.

(* ===================================================================== *)
(** ** config/ldap.ts: the search filters *)
(* ===================================================================== *)

Module Ldap.
Import JS.

Definition hexDigit (n : nat) : ascii :=
  if (n <? 10)%nat then ascii_of_nat (48 + n) else ascii_of_nat (87 + n).

(** [char.charCodeAt(0).toString(16).padStart(2, '0')] *)
Definition hex2 (c : ascii) : string :=
  let n := nat_of_ascii c in
  if (n <? 16)%nat then String "0" (String (hexDigit n) "")
  else String (hexDigit (n / 16)) (String (hexDigit (n mod 16)) "").

(** The class [[\\*()\/\0]]. *)
Definition special (c : ascii) : bool :=
  is_char "\" c || is_char "*" c || is_char "(" c || is_char ")" c
  || is_char "/" c || is_char "000" c.

Fixpoint escapeLdapFilter (value : string) : string :=
  match value with
  | EmptyString => EmptyString
  | String c rest =>
      if special c then String "\" (hex2 c +:+ escapeLdapFilter rest)
      else String c (escapeLdapFilter rest)
  end.

Definition getUserFilter (username : string) : string :=
  "(&(objectClass=user)(sAMAccountName=" +:+ escapeLdapFilter username +:+ "))".

Definition getGroupFilter (userDN : string) : string :=
  "(&(objectClass=group)(member=" +:+ escapeLdapFilter userDN +:+ "))".

(** *** Reading an escaped value

    Not part of the program: the rule for values in a search filter that
    the comment above [escapeLdapFilter] refers to (RFC 4515), a backslash
    followed by two hexadecimal digits standing for the character of that
    code.  [None] when a backslash is not followed by two digits. *)
Definition hexValue (c : ascii) : option nat :=
  let n := nat_of_ascii c in
  if ((48 <=? n) && (n <=? 57))%nat then Some (n - 48)%nat
  else if ((97 <=? n) && (n <=? 102))%nat then Some (n - 87)%nat
  else if ((65 <=? n) && (n <=? 70))%nat then Some (n - 55)%nat
  else None.

Fixpoint unescape (s : string) : option string :=
  match s with
  | EmptyString => Some EmptyString
  | String c rest =>
      if is_char "\" c then
        match rest with
        | String h (String l rest') =>
            match hexValue h, hexValue l with
            | Some a, Some b =>
                String (ascii_of_nat (16 * a + b)) <$> unescape rest'
            | _, _ => None
            end
        | _ => None
        end
      else String c <$> unescape rest
  end.

(** The number of occurrences of a character. *)
Fixpoint count (c : ascii) (s : string) : nat :=
  match s with
  | EmptyString => 0
  | String x rest => (if is_char c x then 1 else 0) + count c rest
  end.

End Ldap.

(* ===================================================================== *)
(** ** The dispatcher: what stands behind an entry of the log *)
(* ===================================================================== *)

Module Cause.
Import Certificate NotificationService.

(** What a call of [sendExpirationEmail] during the [k]-th threshold, of
    [d] days, for the document [c] at position [i] leaves in the log. *)
Definition caused (w : World) (rcpts : list string)
    (k : nat) (d : Z) (i : nat) (c : t) (e : Event) : Prop :=
  expiringInDays (clock w k) d c = true
  ∧ sentOfType (typeOf d) c = 0%nat
  ∧ match sendMail w k i with
    | None => e = Delivered i d rcpts (subjectOf d c)
    | Some m =>
        e = Failed i d ("Failed to send for " +:+ commonName c +:+ ": " +:+ m)
    end.

End Cause.

(* ===================================================================== *)
(** ** Further sample data *)
(* ===================================================================== *)

Module Cases.

(** A collection holding one generated request. *)
Definition generatedStore : gmap string CSR.CSRRequest :=
  {[ "65a1" := Sample.csr "SHA256" CSR.pending (Some Sample.pem) ]}.

(** An edit and a generation that fails. *)
Definition retry : list CSR.Op :=
  [ CSR.Update "65a1" Sample.body;
    CSR.Generate ∅ "65a1" 3000 (PowerShell.Close (Some 1) "" "certreq failed") ].

(** An edit of the common name. *)
Definition rename : list CSR.Op :=
  [ CSR.Update "65a1"
      (CSR.mkBody (Some "other.example.com") None None None None None
         None None None) ].

(** A request with alternative names and an organization. *)
Definition named : CSR.CSRRequest :=
  CSR.mkCSR "www.example.com" ["www.example.com"; "*.example.com"]
    (CSR.mkSubject (Some "Example, Inc.") None None None (Some "US"))
    4096 "RSA" "SHA384" None None None CSR.draft None None None "alice" 0
    None None Workflow.initialSteps.

End Cases.

(* ===================================================================== *)
(** * Properties *)
(* ===================================================================== *)

(** ** The command gateway *)

Section GatewayFacts.
Import JS PowerShell.

Lemma is_char_squote c : is_char squote c = true ↔ c = squote.
Proof. unfold is_char. rewrite Ascii.eqb_eq. split; congruence. Qed.

(** Reading what [sanitizePSString] wrote, up to the closing quote, gives
    the string back, whatever follows the literal, as long as it is not
    another quote. *)
Lemma readBody_sanitize (s rest : string) :
  match rest with
  | String c _ => is_char squote c = false
  | EmptyString => True
  end →
  readBody (sanitizePSString s +:+ String squote rest) = Some (s, rest).
Proof.
  intros Hrest. induction s as [|c s IH]; simpl.
  - destruct rest as [|c' rest']; [done|]. by rewrite Hrest.
  - destruct (is_char squote c) eqn:Hc; simpl.
    + apply is_char_squote in Hc as ->. by rewrite IH.
    + by rewrite Hc, IH.
Qed.

Lemma read_quoted (s : string) :
  readSingleQuoted ("'" +:+ sanitizePSString s +:+ "'") = Some (s, "").
Proof.
  change (readSingleQuoted (String squote (sanitizePSString s +:+ String squote ""))
          = Some (s, "")).
  simpl. by apply readBody_sanitize.
Qed.

Lemma paramStrings_lookup ps strs i k v :
  paramStrings ps = inr strs →
  ps !! i = Some (k, v) →
  ∃ str, paramString k v = inr str ∧ strs !! i = Some str.
Proof.
  revert strs i. induction ps as [|[k' v'] ps IH]; intros strs i Hps Hi; [done|].
  simpl in Hps.
  destruct (paramString k' v') as [e|s'] eqn:Hp; [done|].
  destruct (paramStrings ps) as [e|ss] eqn:Hrest; [done|].
  injection Hps as <-.
  destruct i as [|i]; simpl in Hi.
  - injection Hi as -> ->. eauto.
  - destruct (IH ss i eq_refl Hi) as (str & ? & ?). eauto.
Qed.

(** The gateway resolves without a process only with a failure. *)
Lemma resolved_failure pj pr dir o r :
  executePowerShell pj pr dir o = Resolved r → success r = false.
Proof.
  unfold executePowerShell.
  repeat (case_match; simplify_eq/=); try done; by intros [= <-].
Qed.

End GatewayFacts.



(** C2, as stated.  An identifier outside the allow-list does not always
    stop the gateway: the empty string is falsy, so [if (scriptFile)] takes
    it for an absent [scriptFile] and the inline [script] is spawned. *)
Lemma script_allow_list_counterexample :
  ¬ (∀ (path_join : string → string → string) (path_resolve : string → string)
       (SCRIPTS_DIR : string) (o : PowerShell.PowerShellOptions) (s : string),
       PowerShell.scriptFile o = Some s →
       s ∉ PowerShell.ALLOWED_SCRIPTS →
       ∃ r, PowerShell.executePowerShell path_join path_resolve SCRIPTS_DIR o
              = PowerShell.Resolved r
            ∧ PowerShell.success r = false).
Proof.
  intros H.
  destruct (H Sample.path_join Sample.path_resolve Sample.SCRIPTS_DIR
              (PowerShell.mkOptions (Some "Get-Date") (Some "") [] None None) "")
    as (r & Hr & _).
  - reflexivity.
  - by apply (bool_decide_unpack _).
  - discriminate Hr.
Qed.

(** C2, amended.  For every non-empty [scriptFile] that is not in the
    allow-list (a traversal string, for one), [executePowerShell] resolves
    with the failure "Script not allowed: ..." and starts no process,
    whatever the other options are; an empty [scriptFile] is treated like an
    absent one. *)
Theorem script_not_allowed
    (path_join : string → string → string) (path_resolve : string → string)
    (SCRIPTS_DIR : string) (o : PowerShell.PowerShellOptions) :
  (∀ s, PowerShell.scriptFile o = Some s →
        s ≠ "" →
        s ∉ PowerShell.ALLOWED_SCRIPTS →
        PowerShell.executePowerShell path_join path_resolve SCRIPTS_DIR o
          = PowerShell.Resolved (PowerShell.failure ("Script not allowed: " +:+ s))
        ∧ PowerShell.spawned
            (PowerShell.executePowerShell path_join path_resolve SCRIPTS_DIR o) = [])
  ∧ (PowerShell.scriptFile o = Some "" →
     PowerShell.executePowerShell path_join path_resolve SCRIPTS_DIR o
     = PowerShell.executePowerShell path_join path_resolve SCRIPTS_DIR
         (PowerShell.mkOptions (PowerShell.script o) None (PowerShell.parameters o)
            (PowerShell.timeout o) (PowerShell.remoteComputer o))).
Proof.
  split.
  - intros s Hs Hne Hnot.
    assert (PowerShell.executePowerShell path_join path_resolve SCRIPTS_DIR o
            = PowerShell.Resolved (PowerShell.failure ("Script not allowed: " +:+ s)))
      as ->; [|done].
    unfold PowerShell.executePowerShell. rewrite Hs. simpl.
    destruct s as [|c s']; [done|]. simpl.
    unfold JS.has. by rewrite bool_decide_eq_false_2.
  - intros Hs. unfold PowerShell.executePowerShell. by rewrite Hs.
Qed.

Lemma script_not_allowed_witness :
  PowerShell.executePowerShell Sample.path_join Sample.path_resolve Sample.SCRIPTS_DIR
    (PowerShell.mkOptions (Some "Get-Date") (Some "../../etc/passwd")
       [("Path", PowerShell.PString "x")] None (Some "srv01"))
    = PowerShell.Resolved
        (PowerShell.failure ("Script not allowed: " +:+ "../../etc/passwd"))
  ∧ PowerShell.spawned
      (PowerShell.executePowerShell Sample.path_join Sample.path_resolve Sample.SCRIPTS_DIR
         (PowerShell.mkOptions (Some "Get-Date") (Some "../../etc/passwd")
            [("Path", PowerShell.PString "x")] None (Some "srv01"))) = [].
Proof.
  apply (script_not_allowed Sample.path_join Sample.path_resolve Sample.SCRIPTS_DIR
           (PowerShell.mkOptions (Some "Get-Date") (Some "../../etc/passwd")
              [("Path", PowerShell.PString "x")] None (Some "srv01"))).
  - reflexivity.
  - discriminate.
  - by apply (bool_decide_unpack _).
Defined.

(** ** The CSR workflow engine *)

(** C5.  Deleting a submitted CSR is refused with "Cannot delete submitted
    CSR" and the collection is left as it was; deleting a draft, pending,
    failed or cancelled CSR removes the document. *)
Theorem delete_guard (id : string) (st : gmap string CSR.CSRRequest)
    (csr : CSR.CSRRequest) :
  st !! id = Some csr →
  (CSR.status csr = CSR.submitted →
     CSR.deleteCSR id st = CSR.reply st (CSR.err 400 "Cannot delete submitted CSR")
     ∧ CSR.store (CSR.deleteCSR id st) !! id = Some csr)
  ∧ (CSR.status csr ∈ [CSR.draft; CSR.pending; CSR.failed; CSR.cancelled] →
     CSR.store (CSR.deleteCSR id st) = delete id st
     ∧ CSR.store (CSR.deleteCSR id st) !! id = None
     ∧ CSR.code (CSR.response (CSR.deleteCSR id st)) = 200).
Proof.
  intros Hid. unfold CSR.deleteCSR. rewrite Hid. split.
  - intros ->. by rewrite bool_decide_eq_true_2.
  - intros Hin. rewrite bool_decide_eq_false_2.
    + simpl. by rewrite lookup_delete_eq.
    + intros Heq. rewrite Heq in Hin.
      rewrite !elem_of_cons, elem_of_nil in Hin.
      destruct Hin as [?|[?|[?|[?|[]]]]]; done.
Qed.

Lemma delete_guard_witness :
  CSR.store (CSR.deleteCSR "65a1" {[ "65a1" := Sample.csr "SHA256" CSR.submitted (Some "PEM") ]})
     !! "65a1" = Some (Sample.csr "SHA256" CSR.submitted (Some "PEM"))
  ∧ CSR.store (CSR.deleteCSR "65a2" {[ "65a2" := Sample.csr "SHA256" CSR.failed None ]})
     !! "65a2" = None.
Proof.
  split.
  - apply (delete_guard "65a1" {[ "65a1" := Sample.csr "SHA256" CSR.submitted (Some "PEM") ]}
             (Sample.csr "SHA256" CSR.submitted (Some "PEM"))); reflexivity.
  - apply (delete_guard "65a2" {[ "65a2" := Sample.csr "SHA256" CSR.failed None ]}
             (Sample.csr "SHA256" CSR.failed None)); [reflexivity|].
    by apply (bool_decide_unpack _).
Defined.




(** ** The workflow steps and csrPEM *)

Section WorkflowFacts.
Import JS PowerShell CSR.

Lemma find_updateSteps_same steps name st err now :
  List.find (λ s, String.eqb (Step.step s) name) (updateSteps steps name st err now)
  = touch st err now <$> List.find (λ s, String.eqb (Step.step s) name) steps.
Proof.
  induction steps as [|s steps IH]; [done|]. simpl.
  destruct (String.eqb (Step.step s) name) eqn:E; simpl.
  - by rewrite E.
  - by rewrite E, IH.
Qed.

Lemma find_updateSteps_other steps name name' st err now :
  name ≠ name' →
  List.find (λ s, String.eqb (Step.step s) name') (updateSteps steps name st err now)
  = List.find (λ s, String.eqb (Step.step s) name') steps.
Proof.
  intros Hne. induction steps as [|s steps IH]; [done|]. simpl.
  destruct (String.eqb (Step.step s) name) eqn:E; simpl.
  - apply String.eqb_eq in E.
    assert (String.eqb (Step.step s) name' = false) as ->
      by (apply String.eqb_neq; congruence).
    done.
  - by rewrite IH.
Qed.

Lemma completed_after_update csr st err now :
  generateCompleted (updateWorkflowStep csr "Generate CSR" st err now) →
  st = Step.completed.
Proof.
  unfold generateCompleted, findStep, updateWorkflowStep. cbn [workflowSteps set_workflowSteps].
  rewrite find_updateSteps_same.
  destruct (List.find _ _); [|done]. cbn. by intros [= ->].
Qed.

Lemma completed_update_submit csr st err now :
  generateCompleted (updateWorkflowStep csr "Submit to CA" st err now)
  ↔ generateCompleted csr.
Proof.
  unfold generateCompleted, findStep, updateWorkflowStep. cbn [workflowSteps set_workflowSteps].
  by rewrite find_updateSteps_other.
Qed.

Lemma onCompleted_insert Q st id csr :
  onCompleted Q st →
  (generateCompleted csr → Q (csrPEM csr)) →
  onCompleted Q (<[id := csr]> st).
Proof.
  intros Hst Hcsr id' csr'. rewrite lookup_insert.
  case_decide; [intros [= <-]; done | apply Hst].
Qed.

Lemma onCompleted_delete Q st id :
  onCompleted Q st → onCompleted Q (delete id st).
Proof.
  intros Hst id' csr'. rewrite lookup_delete.
  case_decide; [done | apply Hst].
Qed.

Context (path_join : string → string → string) (path_resolve : string → string)
        (SCRIPTS_DIR : string) (TEMP : option string).

Lemma settle_success g e r :
  (∀ r', g = Resolved r' → success r' = false) →
  settle g e = inr r → success r = true →
  ∃ out err, e = Close (Some 0) out err ∧ output r = trim out.
Proof.
  intros Hg Hs Hr. destruct g as [r'|m|args t]; simpl in Hs.
  - injection Hs as ->. by rewrite (Hg _ eq_refl) in Hr.
  - done.
  - injection Hs as <-. destruct e as [code out err|m]; simpl in Hr; [|done].
    case_bool_decide; [|done]. subst. by exists out, err.
Qed.

Lemma generate_onCompleted Q servers id now e st :
  (∀ out err, e = Close (Some 0) out err → Q (Some (trim out))) →
  onCompleted Q st →
  onCompleted Q (store (generateCSR path_join path_resolve SCRIPTS_DIR servers id now e st)).
Proof.
  intros He Hst. unfold generateCSR.
  repeat case_match; cbn [store reply]; try done;
    repeat (apply onCompleted_insert; [try done|]);
    try (intros Hc; cbn [set_status] in Hc; apply completed_after_update in Hc; done).
  all: intros _; cbn [csrPEM updateWorkflowStep set_workflowSteps set_generated].
  all: match goal with
       | Hs : settle ?g ?e' = inr ?p, Hp : success ?p = true |- _ =>
           destruct (settle_success g e' p) as (out & err & -> & ->);
             [intros r'; apply resolved_failure | done | done |]
       end.
  all: by eapply He.
Qed.

Lemma submit_onCompleted Q cas id now e st :
  onCompleted Q st →
  onCompleted Q (store (submitCSRToCA path_join path_resolve SCRIPTS_DIR TEMP cas id now e st)).
Proof.
  intros Hst. unfold submitCSRToCA.
  repeat case_match; cbn [store reply]; try done;
    repeat (apply onCompleted_insert; [try done|]);
    unfold generateCompleted, findStep;
    cbn [set_status set_errorMessage set_processedAt csrPEM workflowSteps
         updateWorkflowStep set_workflowSteps];
    rewrite ?find_updateSteps_other by done;
    by eapply Hst.
Qed.

Lemma perform_onCompleted Q o st :
  (∀ servers id now out err,
     o = Generate servers id now (Close (Some 0) out err) → Q (Some (trim out))) →
  onCompleted Q st →
  onCompleted Q (store (perform path_join path_resolve SCRIPTS_DIR TEMP o st)).
Proof.
  intros Ho Hst. destruct o as [cas servers newId user now b|id b|servers id now e|cas id now e|id];
    cbn [perform].
  - unfold createCSR. repeat case_match; cbn [store reply]; try done.
    apply onCompleted_insert; [done|].
    unfold generateCompleted, findStep. cbn. intros ?; congruence.
  - unfold updateCSR. repeat case_match; cbn [store reply]; try done.
    apply onCompleted_insert; [done|].
    unfold generateCompleted, findStep. cbn [applyBody workflowSteps csrPEM].
    by eapply Hst.
  - apply generate_onCompleted; [|done]. intros out err ->. by eapply Ho.
  - by apply submit_onCompleted.
  - unfold deleteCSR. repeat case_match; cbn [store reply]; try done.
    by apply onCompleted_delete.
Qed.

Lemma run_onCompleted Q ops st :
  Forall (λ o, ∀ servers id now out err,
                 o = Generate servers id now (Close (Some 0) out err) →
                 Q (Some (trim out))) ops →
  onCompleted Q st →
  onCompleted Q (run path_join path_resolve SCRIPTS_DIR TEMP ops st).
Proof.
  intros Hops. revert st. unfold run.
  induction Hops as [|o ops Ho _ IH]; intros st Hst; [done|].
  cbn [foldl]. apply IH. by apply perform_onCompleted.
Qed.

End WorkflowFacts.

(** C4, as stated.  The equivalence is not an invariant of the engine.
    [generateCSR] also accepts a pending CSR, which is what a CSR is after a
    successful generation; run again, it sets the step back to pending and,
    when the process fails, to failed, while the csrPEM of the first run
    stays. *)
Lemma csr_pem_iff_completed_counterexample :
  ¬ (∀ (path_join : string → string → string) (path_resolve : string → string)
       (SCRIPTS_DIR : string) (TEMP : option string)
       (ops : list CSR.Op) (id : string) (csr : CSR.CSRRequest),
       CSR.run path_join path_resolve SCRIPTS_DIR TEMP ops ∅ !! id = Some csr →
       (JS.truthy_opt (CSR.csrPEM csr) = true ↔ CSR.generateCompleted csr)).
Proof.
  intros H.
  destruct (CSR.run Sample.path_join Sample.path_resolve Sample.SCRIPTS_DIR None
              Sample.regenerated ∅ !! "65a1") as [csr|] eqn:E;
    [|vm_compute in E; discriminate E].
  pose proof (proj1 (H _ _ _ _ _ _ _ E)) as Hc.
  vm_compute in E. injection E as <-.
  specialize (Hc eq_refl). vm_compute in Hc. discriminate Hc.
Qed.

(** C4, amended.  For every CSR the engine can produce from an empty
    collection (by create, update, generate, submit and delete requests):
    if its "Generate CSR" step is completed then its csrPEM is set, and it
    is non-empty when every successful generation process printed
    something. *)
Theorem generate_completed_has_pem
    (path_join : string → string → string) (path_resolve : string → string)
    (SCRIPTS_DIR : string) (TEMP : option string)
    (ops : list CSR.Op) (id : string) (csr : CSR.CSRRequest) :
  CSR.run path_join path_resolve SCRIPTS_DIR TEMP ops ∅ !! id = Some csr →
  CSR.generateCompleted csr →
  is_Some (CSR.csrPEM csr)
  ∧ (Forall CSR.printsOnSuccess ops → JS.truthy_opt (CSR.csrPEM csr) = true).
Proof.
  intros Hid Hc. split.
  - refine (run_onCompleted _ _ _ _ is_Some ops ∅ _ _ id csr Hid Hc).
    + apply Forall_forall. intros o _ servers id' now out err _. eauto.
    + by intros ? ?.
  - intros Hops.
    refine (run_onCompleted _ _ _ _ (λ p, JS.truthy_opt p = true) ops ∅ _ _ id csr Hid Hc).
    + eapply Forall_impl; [exact Hops|].
      intros o Ho servers id' now out err ->. simpl in Ho.
      specialize (Ho eq_refl). simpl. by destruct (JS.trim out).
    + by intros ? ?.
Qed.

Lemma generate_completed_has_pem_witness :
  ∃ csr,
    CSR.run Sample.path_join Sample.path_resolve Sample.SCRIPTS_DIR None
      Sample.generated ∅ !! "65a1" = Some csr
    ∧ CSR.generateCompleted csr
    ∧ CSR.csrPEM csr = Some Sample.pem
    ∧ is_Some (CSR.csrPEM csr)
    ∧ JS.truthy_opt (CSR.csrPEM csr) = true.
Proof.
  destruct (CSR.run Sample.path_join Sample.path_resolve Sample.SCRIPTS_DIR None
              Sample.generated ∅ !! "65a1") as [csr|] eqn:E;
    [|vm_compute in E; discriminate E].
  exists csr. split; [reflexivity|].
  assert (CSR.generateCompleted csr ∧ CSR.csrPEM csr = Some Sample.pem) as [Hc Hp].
  { vm_compute in E. injection E as <-. split; reflexivity. }
  destruct (generate_completed_has_pem Sample.path_join Sample.path_resolve
              Sample.SCRIPTS_DIR None Sample.generated "65a1" csr E Hc) as [H1 H2].
  repeat split; try done.
  apply H2. repeat constructor. intros _ Hblank. vm_compute in Hblank. discriminate Hblank.
Defined.

(** ** The status reconciler *)

Ltac order_facts :=
  repeat match goal with
  | H : (_ <? _) = true |- _ => apply Z.ltb_lt in H
  | H : (_ <? _) = false |- _ => apply Z.ltb_ge in H
  | H : (_ <=? _) = true |- _ => apply Z.leb_le in H
  | H : (_ <=? _) = false |- _ => apply Z.leb_gt in H
  end.

(** Decides the comparisons of two known statuses that the goal holds. *)
Ltac decide_statuses :=
  repeat first
    [ progress cbn [negb andb orb Certificate.set_status Certificate.status
                    Certificate.validTo]
    | match goal with
      | |- context [bool_decide (?a = ?b)] =>
          first [ rewrite (bool_decide_eq_true_2 (a = b)) by reflexivity
                | rewrite (bool_decide_eq_false_2 (a = b)) by discriminate ]
      end ].

Section ReconcilerFacts.
Import Certificate CertificateService.

Lemma updateMany_fst filter s certs :
  (updateMany filter s certs).1 = apply_set filter s <$> certs.
Proof. done. Qed.

Lemma updateMany_untouched filter s certs :
  Forall (λ c, filter c = false) certs →
  updateMany filter s certs = (certs, 0).
Proof.
  intros Hall. unfold updateMany. f_equal.
  - induction Hall as [|c l Hc _ IH]; [done|].
    rewrite fmap_cons, IH. by rewrite Hc.
  - induction Hall as [|c l Hc _ IH]; [done|].
    simpl. rewrite Hc. simpl. exact IH.
Qed.

Lemma updateCertificateStatuses_fst now certs :
  (updateCertificateStatuses now certs).1 = reconcile now <$> certs.
Proof.
  unfold updateCertificateStatuses. cbn [fst].
  rewrite !updateMany_fst, <- !list_fmap_compose. done.
Qed.

Lemma updateCertificateStatuses_lookup now certs i c :
  certs !! i = Some c →
  (updateCertificateStatuses now certs).1 !! i = Some (reconcile now c).
Proof.
  intros Hi. by rewrite updateCertificateStatuses_fst, list_lookup_fmap, Hi.
Qed.

Lemma has_expired_revoked s :
  JS.has [expired; revoked] s
  = match s with expired | revoked => true | _ => false end.
Proof. by destruct s; vm_compute. Qed.

(** One run, document by document. *)
Lemma reconcile_cases now c :
  reconcile now c =
  match status c with
  | expired | revoked => c
  | active =>
      if validTo c <? now then set_status expired c
      else if validTo c <=? now + days_ms 30 then set_status expiring c
      else c
  | expiring =>
      if validTo c <? now then set_status expired c
      else if now + days_ms 30 <? validTo c then set_status active c
      else c
  end.
Proof.
  unfold reconcile, apply_set. rewrite has_expired_revoked.
  generalize (now + days_ms 30). intros lim.
  destruct c as [sn tp cn icn vf vt st dep ns]. cbn [status validTo].
  destruct st;
    destruct (vt <? now) eqn:E1, (now <=? vt) eqn:E2,
             (vt <=? lim) eqn:E3, (lim <? vt) eqn:E4;
    decide_statuses; rewrite ?E1, ?E2, ?E3, ?E4; decide_statuses;
    rewrite ?E1, ?E2, ?E3, ?E4; decide_statuses;
    try reflexivity; exfalso; order_facts; lia.
Qed.

(** After a run at [now], none of the three filters at [now] selects the
    document any more. *)
Lemma reconcile_settled now c :
  let c' := reconcile now c in
  (negb (JS.has [expired; revoked] (status c')) && (validTo c' <? now) = false)
  ∧ (bool_decide (status c' = active)
     && (now <=? validTo c') && (validTo c' <=? now + days_ms 30) = false)
  ∧ (bool_decide (status c' = expiring) && (now + days_ms 30 <? validTo c') = false).
Proof.
  cbn zeta. rewrite reconcile_cases, has_expired_revoked.
  generalize (now + days_ms 30). intros lim.
  destruct c as [sn tp cn icn vf vt st dep ns]. cbn [status validTo].
  destruct st;
    destruct (vt <? now) eqn:E1, (now <=? vt) eqn:E2,
             (vt <=? lim) eqn:E3, (lim <? vt) eqn:E4;
    decide_statuses; rewrite ?E1, ?E2, ?E3, ?E4; decide_statuses;
    try done; exfalso; order_facts; lia.
Qed.

End ReconcilerFacts.

(** C6.  Running the status reconciliation a second time at the same
    instant changes no document: the count it returns is 0, and the
    collection is the one the first run left. *)
Theorem reconcile_idempotent (now : Z) (certs : list Certificate.t) :
  CertificateService.updateCertificateStatuses now
    (CertificateService.updateCertificateStatuses now certs).1
  = ((CertificateService.updateCertificateStatuses now certs).1, 0).
Proof.
  rewrite updateCertificateStatuses_fst.
  unfold CertificateService.updateCertificateStatuses.
  assert (∀ P : Certificate.t → Prop,
            (∀ c, P (CertificateService.reconcile now c)) →
            Forall P (CertificateService.reconcile now <$> certs)) as Hall.
  { intros P HP. apply Forall_fmap, Forall_forall. intros c _. apply HP. }
  rewrite (updateMany_untouched _ Certificate.expired)
    by (apply Hall; intros c; apply (reconcile_settled now c)).
  cbn [fst snd].
  rewrite (updateMany_untouched _ Certificate.expiring)
    by (apply Hall; intros c; apply (reconcile_settled now c)).
  cbn [fst snd].
  rewrite (updateMany_untouched _ Certificate.active)
    by (apply Hall; intros c; apply (reconcile_settled now c)).
  done.
Qed.

(** C7, as stated.  Not every certificate whose validTo is [now] + 30 days
    + 1 second is active after a run: the filters of the reconciler select
    active and expiring certificates only, so a revoked one (and likewise an
    expired one) stays what it is. *)
Lemma boundary_counterexample :
  ¬ (∀ (now : Z) (certs : list Certificate.t) (i : nat) (c : Certificate.t),
       certs !! i = Some c →
       Certificate.validTo c = now + CertificateService.days_ms 30 + 1000 →
       ∃ c', (CertificateService.updateCertificateStatuses now certs).1 !! i = Some c'
             ∧ Certificate.status c' = Certificate.active).
Proof.
  intros H.
  destruct (H 1000
              [Sample.cert Certificate.revoked
                 (1000 + CertificateService.days_ms 30 + 1000) []]
              0%nat
              (Sample.cert Certificate.revoked
                 (1000 + CertificateService.days_ms 30 + 1000) [])
              eq_refl eq_refl) as (c' & Hc' & Hs).
  vm_compute in Hc'. injection Hc' as <-. discriminate Hs.
Qed.

(** C7, amended.  The 30-day boundary is inclusive.  A run at [now] turns an
    active certificate whose validTo is exactly [now] + 30 days into an
    expiring one; a certificate whose validTo is one second later stays
    active when it is active and becomes active when it is expiring. *)
Theorem expiring_boundary_inclusive (now : Z) (certs : list Certificate.t)
    (i : nat) (c : Certificate.t) :
  certs !! i = Some c →
  (Certificate.status c = Certificate.active →
   Certificate.validTo c = now + CertificateService.days_ms 30 →
   (CertificateService.updateCertificateStatuses now certs).1 !! i
     = Some (Certificate.set_status Certificate.expiring c))
  ∧ (Certificate.status c = Certificate.active
     ∨ Certificate.status c = Certificate.expiring →
     Certificate.validTo c = now + CertificateService.days_ms 30 + 1000 →
     (CertificateService.updateCertificateStatuses now certs).1 !! i
       = Some (Certificate.set_status Certificate.active c)).
Proof.
  intros Hi. rewrite (updateCertificateStatuses_lookup _ _ _ _ Hi), reconcile_cases.
  unfold CertificateService.days_ms. split.
  - intros -> ->.
    rewrite (proj2 (Z.ltb_ge _ _)) by lia. by rewrite (proj2 (Z.leb_le _ _)) by lia.
  - intros [Hs|Hs] ->; rewrite Hs.
    + rewrite (proj2 (Z.ltb_ge _ _)) by lia. rewrite (proj2 (Z.leb_gt _ _)) by lia.
      destruct c; simpl in *; by subst.
    + rewrite (proj2 (Z.ltb_ge _ _)) by lia. by rewrite (proj2 (Z.ltb_lt _ _)) by lia.
Qed.

Lemma expiring_boundary_inclusive_witness :
  [Sample.cert Certificate.active (1000 + CertificateService.days_ms 30) []]
     !! 0%nat = Some (Sample.cert Certificate.active (1000 + CertificateService.days_ms 30) [])
  ∧ (CertificateService.updateCertificateStatuses 1000
       [Sample.cert Certificate.active (1000 + CertificateService.days_ms 30) []]).1 !! 0%nat
    = Some (Sample.cert Certificate.expiring (1000 + CertificateService.days_ms 30) [])
  ∧ (CertificateService.updateCertificateStatuses 1000
       [Sample.cert Certificate.expiring
          (1000 + CertificateService.days_ms 30 + 1000) []]).1 !! 0%nat
    = Some (Sample.cert Certificate.active (1000 + CertificateService.days_ms 30 + 1000) []).
Proof.
  split; [reflexivity|]. split.
  - apply (expiring_boundary_inclusive 1000
             [Sample.cert Certificate.active (1000 + CertificateService.days_ms 30) []]
             0 (Sample.cert Certificate.active (1000 + CertificateService.days_ms 30) []));
      reflexivity.
  - apply (expiring_boundary_inclusive 1000
             [Sample.cert Certificate.expiring
                (1000 + CertificateService.days_ms 30 + 1000) []]
             0 (Sample.cert Certificate.expiring
                  (1000 + CertificateService.days_ms 30 + 1000) []));
      [reflexivity | right; reflexivity | reflexivity].
Defined.

(** C9.  Revoked is sticky: however many times the reconciliation runs, and
    whenever, a revoked certificate is left exactly as it was. *)
Theorem revoked_sticky (nows : list Z) (certs : list Certificate.t)
    (i : nat) (c : Certificate.t) :
  certs !! i = Some c →
  Certificate.status c = Certificate.revoked →
  CertificateService.reconcileRuns nows certs !! i = Some c.
Proof.
  intros Hi Hs. revert certs Hi.
  unfold CertificateService.reconcileRuns.
  induction nows as [|now nows IH]; intros certs Hi; [done|].
  cbn [foldl]. apply IH.
  rewrite (updateCertificateStatuses_lookup _ _ _ _ Hi), reconcile_cases.
  by rewrite Hs.
Qed.

Lemma revoked_sticky_witness :
  CertificateService.reconcileRuns [0; 5000; 1000 + CertificateService.days_ms 400]
    [Sample.cert Certificate.active 2000 [];
     Sample.cert Certificate.revoked 2000 []] !! 1%nat
  = Some (Sample.cert Certificate.revoked 2000 []).
Proof.
  apply (revoked_sticky [0; 5000; 1000 + CertificateService.days_ms 400]
           [Sample.cert Certificate.active 2000 [];
            Sample.cert Certificate.revoked 2000 []] 1
           (Sample.cert Certificate.revoked 2000 [])); reflexivity.
Defined.

(** ** The notification dispatcher *)

Section DispatcherFacts.
Import Certificate NotificationService.

Lemma length_append (a b : string) :
  String.length (a +:+ b) = (String.length a + String.length b)%nat.
Proof. induction a as [|x a IH]; simpl; [done | by rewrite IH]. Qed.

Lemma append_inj_r (s a b : string) : a +:+ s = b +:+ s → a = b.
Proof.
  revert b. induction a as [|x a IH]; intros [|y b] H; simpl in H.
  - done.
  - apply (f_equal String.length) in H.
    rewrite !length_append in H. simpl in H. lia.
  - apply (f_equal String.length) in H.
    rewrite !length_append in H. simpl in H. lia.
  - injection H as -> H. f_equal. by apply IH.
Qed.

Lemma typeOf_inj d d' : typeOf d = typeOf d' → d = d'.
Proof. intros H. apply append_inj_r in H. by apply (inj pretty). Qed.

Lemma typeOf_eqb d d' : String.eqb (typeOf d) (typeOf d') = bool_decide (d = d').
Proof.
  case_bool_decide as H.
  - subst. apply String.eqb_refl.
  - apply String.eqb_neq. intros E. by apply typeOf_inj in E.
Qed.

Lemma alreadySent_count d c :
  alreadySent d c = false ↔ sentOfType (typeOf d) c = 0%nat.
Proof.
  unfold alreadySent, sentOfType.
  induction (notificationsSent c) as [|n ns IH]; simpl; [done|].
  destruct (String.eqb (type n) (typeOf d)); simpl; [split; done | exact IH].
Qed.

Lemma sentOfType_push ty n c :
  sentOfType ty (push n c)
  = (sentOfType ty c + if String.eqb (type n) ty then 1 else 0)%nat.
Proof.
  unfold sentOfType, push. cbn [notificationsSent].
  rewrite List.filter_app, length_app. simpl.
  by destruct (String.eqb (type n) ty).
Qed.

Variables (w : World) (rcpts : list string).

(** *** One document, one threshold *)

Lemma notify_fields k d i c :
  status (notify w rcpts k d i c).1 = status c
  ∧ validTo (notify w rcpts k d i c).1 = validTo c.
Proof. unfold notify. by repeat case_match. Qed.

Lemma notify_revoked k d i c :
  status c = revoked → notify w rcpts k d i c = (c, []).
Proof.
  intros Hs. unfold notify, expiringInDays. rewrite Hs.
  by rewrite bool_decide_eq_true_2.
Qed.

Lemma notify_attempts k d i c :
  attempts i (notify w rcpts k d i c).2 = (notify w rcpts k d i c).2
  ∧ ∀ j, j ≠ i → attempts j (notify w rcpts k d i c).2 = [].
Proof.
  unfold notify, attempts.
  repeat case_match; simpl; rewrite ?bool_decide_eq_true_2 by done; split; try done;
    intros j Hj; by rewrite bool_decide_eq_false_2.
Qed.

Lemma notify_count k d i c d' :
  sentOfType (typeOf d') (notify w rcpts k d i c).1
  = (sentOfType (typeOf d') c + delivered i d' (notify w rcpts k d i c).2)%nat.
Proof.
  unfold notify, delivered. repeat case_match; simpl; try lia.
  rewrite sentOfType_push. cbn [type]. rewrite typeOf_eqb.
  rewrite (bool_decide_eq_true_2 (i = i)) by done. simpl.
  by case_bool_decide.
Qed.

Lemma notify_bound k d i c ty :
  (sentOfType ty c ≤ 1)%nat → (sentOfType ty (notify w rcpts k d i c).1 ≤ 1)%nat.
Proof.
  intros Hb. unfold notify.
  destruct (negb _); [done|].
  destruct (alreadySent d c) eqn:Ha; [done|].
  destruct (sendMail w k i); [done|]. cbn [fst].
  rewrite sentOfType_push. cbn [type].
  destruct (String.eqb_spec (typeOf d) ty) as [<-|]; [|lia].
  apply alreadySent_count in Ha. lia.
Qed.

Lemma notify_progress k d i c :
  expiringInDays (clock w k) d c = true →
  sendMail w k i = None →
  (1 ≤ sentOfType (typeOf d) (notify w rcpts k d i c).1)%nat.
Proof.
  intros Hin Hmail. unfold notify. rewrite Hin, Hmail. cbn [negb].
  destruct (alreadySent d c) eqn:Ha; cbn [fst].
  - destruct (sentOfType (typeOf d) c) eqn:E; [|lia].
    apply alreadySent_count in E. congruence.
  - rewrite sentOfType_push. cbn [type]. rewrite String.eqb_refl. lia.
Qed.

Lemma notify_mono k d i c ty :
  (sentOfType ty c ≤ sentOfType ty (notify w rcpts k d i c).1)%nat.
Proof.
  unfold notify. repeat case_match; cbn [fst]; try done.
  rewrite sentOfType_push. lia.
Qed.

Lemma notify_refused k d i c :
  sendMail w k i ≠ None → (notify w rcpts k d i c).1 = c.
Proof. intros Hm. unfold notify. by repeat case_match. Qed.

Lemma notify_notified k d i c d' :
  (1 ≤ sentOfType (typeOf d') c)%nat →
  delivered i d' (notify w rcpts k d i c).2 = 0%nat.
Proof.
  intros Hn. unfold notify.
  destruct (negb _); [done|].
  destruct (alreadySent d c) eqn:Ha; [done|].
  destruct (sendMail w k i); [done|]. cbn [snd].
  unfold delivered. simpl.
  rewrite (bool_decide_eq_false_2 (d = d')); [by rewrite andb_false_r|].
  intros ->. apply alreadySent_count in Ha. lia.
Qed.

Lemma expiringInDays_fields now d c c' :
  status c' = status c → validTo c' = validTo c →
  expiringInDays now d c' = expiringInDays now d c.
Proof. unfold expiringInDays. by intros -> ->. Qed.

Lemma delivered_app i d evs evs' :
  delivered i d (evs ++ evs')%list = (delivered i d evs + delivered i d evs')%nat.
Proof. unfold delivered. by rewrite List.filter_app, length_app. Qed.

Lemma attempts_app i evs evs' :
  attempts i (evs ++ evs')%list = (attempts i evs ++ attempts i evs')%list.
Proof. unfold attempts. by rewrite List.filter_app. Qed.

Lemma delivered_attempts i d evs :
  delivered i d (attempts i evs) = delivered i d evs.
Proof.
  unfold delivered, attempts.
  induction evs as [|[j d' to sub|j d' err] evs IH]; [done| |];
    cbn [List.filter]; destruct (bool_decide (j = i)) eqn:E;
    cbn [List.filter andb]; rewrite ?E; cbn [andb]; try exact IH.
  destruct (bool_decide (d' = d)); cbn [List.length]; by rewrite ?IH.
Qed.

(** *** One document, all thresholds *)

Lemma track_fields i k ds c :
  status (track w rcpts i k ds c).1 = status c
  ∧ validTo (track w rcpts i k ds c).1 = validTo c.
Proof.
  revert k c. induction ds as [|d ds IH]; intros k c; [done|].
  cbn [track fst]. destruct (IH (S k) (notify w rcpts k d i c).1) as [-> ->].
  apply notify_fields.
Qed.

Lemma track_revoked i k ds c :
  status c = revoked → track w rcpts i k ds c = (c, []).
Proof.
  intros Hs. revert k. induction ds as [|d ds IH]; intros k; [done|].
  cbn [track]. rewrite (notify_revoked _ _ _ _ Hs). cbn [fst snd].
  by rewrite IH.
Qed.

Lemma track_refused i k ds c :
  (∀ k', sendMail w k' i ≠ None) → (track w rcpts i k ds c).1 = c.
Proof.
  intros Hm. revert k c. induction ds as [|d ds IH]; intros k c; [done|].
  cbn [track fst]. by rewrite notify_refused, IH.
Qed.

Lemma track_count i k ds c d' :
  sentOfType (typeOf d') (track w rcpts i k ds c).1
  = (sentOfType (typeOf d') c + delivered i d' (track w rcpts i k ds c).2)%nat.
Proof.
  revert k c. induction ds as [|d ds IH]; intros k c; cbn [track fst snd].
  - unfold delivered. simpl. lia.
  - rewrite IH, notify_count, delivered_app. lia.
Qed.

Lemma track_bound i k ds c ty :
  (sentOfType ty c ≤ 1)%nat → (sentOfType ty (track w rcpts i k ds c).1 ≤ 1)%nat.
Proof.
  revert k c. induction ds as [|d ds IH]; intros k c Hb; [done|].
  cbn [track fst]. by apply IH, notify_bound.
Qed.

Lemma track_mono i k ds c ty :
  (sentOfType ty c ≤ sentOfType ty (track w rcpts i k ds c).1)%nat.
Proof.
  revert k c. induction ds as [|d ds IH]; intros k c; [done|].
  cbn [track fst]. etrans; [apply (notify_mono k d i)|apply IH].
Qed.

Lemma track_notified i k ds c d' :
  (1 ≤ sentOfType (typeOf d') c)%nat →
  delivered i d' (track w rcpts i k ds c).2 = 0%nat.
Proof.
  revert k c. induction ds as [|d ds IH]; intros k c Hn; [done|].
  cbn [track snd]. rewrite delivered_app, notify_notified by done.
  rewrite IH; [done|]. etrans; [exact Hn|apply notify_mono].
Qed.

Lemma track_progress i k ds c n d :
  ds !! n = Some d →
  expiringInDays (clock w (k + n)) d c = true →
  sendMail w (k + n)%nat i = None →
  (1 ≤ sentOfType (typeOf d) (track w rcpts i k ds c).1)%nat.
Proof.
  revert k c n. induction ds as [|d0 ds IH]; intros k c n Hn Hin Hmail; [done|].
  cbn [track fst]. destruct n as [|n]; simpl in Hn.
  - injection Hn as ->. rewrite Nat.add_0_r in Hin, Hmail.
    etrans; [by apply (notify_progress k d i c)|apply track_mono].
  - apply (IH (S k) _ n Hn).
    + rewrite <- Nat.add_succ_comm in Hin.
      destruct (notify_fields k d0 i c) as [Hs Hv].
      by rewrite (expiringInDays_fields _ _ _ _ Hs Hv).
    + by rewrite <- Nat.add_succ_comm in Hmail.
Qed.

(** *** The collection *)

Lemma sweep_lookup k d i certs j c :
  certs !! j = Some c →
  (sweep w rcpts k d i certs).1 !! j = Some (notify w rcpts k d (i + j) c).1.
Proof.
  revert i j. induction certs as [|c0 certs IH]; intros i j Hj; [done|].
  cbn [sweep fst]. destruct j as [|j]; simpl in Hj.
  - injection Hj as ->. by rewrite Nat.add_0_r.
  - simpl. rewrite (IH (S i) j Hj). by rewrite Nat.add_succ_comm.
Qed.

Lemma sweep_attempts_before k d i certs m :
  (m < i)%nat → attempts m (sweep w rcpts k d i certs).2 = [].
Proof.
  revert i. induction certs as [|c0 certs IH]; intros i Hm; [done|].
  cbn [sweep snd]. rewrite attempts_app.
  rewrite (proj2 (notify_attempts k d i c0) m) by lia.
  rewrite IH by lia. done.
Qed.

Lemma sweep_attempts k d i certs j c :
  certs !! j = Some c →
  attempts (i + j) (sweep w rcpts k d i certs).2 = (notify w rcpts k d (i + j) c).2.
Proof.
  revert i j. induction certs as [|c0 certs IH]; intros i j Hj; [done|].
  cbn [sweep snd]. rewrite attempts_app. destruct j as [|j]; simpl in Hj.
  - injection Hj as ->. rewrite Nat.add_0_r.
    rewrite (proj1 (notify_attempts k d i c)).
    rewrite sweep_attempts_before by lia. by rewrite app_nil_r.
  - rewrite (proj2 (notify_attempts k d i c0)) by lia.
    rewrite <- Nat.add_succ_comm. by rewrite (IH (S i) j Hj).
Qed.

Lemma loop_track k ds certs j c :
  certs !! j = Some c →
  (loop w rcpts k ds certs).1 !! j = Some (track w rcpts j k ds c).1
  ∧ attempts j (loop w rcpts k ds certs).2 = (track w rcpts j k ds c).2.
Proof.
  revert k certs c. induction ds as [|d ds IH]; intros k certs c Hj; [done|].
  cbn [loop track fst snd].
  pose proof (sweep_lookup k d 0 certs j c Hj) as Hl.
  pose proof (sweep_attempts k d 0 certs j c Hj) as Ha.
  rewrite Nat.add_0_l in Hl, Ha.
  destruct (IH (S k) _ _ Hl) as [-> Ht].
  split; [done|]. by rewrite attempts_app, Ha, Ht.
Qed.

End DispatcherFacts.

Section Dispatcher.
Import Certificate NotificationService.

(** A run seen from one document: it goes through the thresholds of the
    run, which are the enabled ones when the dispatcher is enabled and has
    recipients, and none otherwise. *)
Lemma run_track (w : NotificationService.World) settings users certs :
  ∃ ds,
    (∀ s, settings = Some s → enabled s = true →
          resolveRecipients users (recipients s) ≠ [] →
          ds = enabledThresholds s)
    ∧ ∀ i c, certs !! i = Some c →
        let r := sendExpirationNotifications settings users w certs in
        ∃ rc,
          certificates r !! i = Some (track w rc i 0 ds c).1
          ∧ attempts i (events r) = (track w rc i 0 ds c).2.
Proof.
  assert (∀ ds : list Z, ∀ i c, certs !! i = Some c →
            ∃ rc : list string,
              certificates (idle certs) !! i = Some (track w rc i 0 [] c).1
              ∧ attempts i (events (idle certs)) = (track w rc i 0 [] c).2) as Hidle.
  { intros _ i c Hi. by exists []. }
  unfold sendExpirationNotifications.
  destruct settings as [s|]; [|exists []; split; [done|apply (Hidle [])]].
  destruct (enabled s) eqn:He; cbn [negb];
    [|exists []; split; [intros ? [= <-]; congruence|apply (Hidle [])]].
  case_bool_decide as Hds.
  { exists []. split; [by intros ? [= <-]|apply (Hidle [])]. }
  case_bool_decide as Hrc.
  { exists []. split; [by intros ? [= <-] ? ?|apply (Hidle [])]. }
  exists (enabledThresholds s). split; [by intros ? [= <-]|].
  intros i c Hi. cbn [certificates events].
  exists (resolveRecipients users (recipients s)). by apply loop_track.
Qed.


Import Certificate NotificationService.




(** C10.  The dispatcher never notifies on a revoked certificate: the
    query of [findCertificatesExpiringInDays] excludes it at every threshold,
    so a run calls [sendExpirationEmail] for it not once, no mail goes out
    and the document is left as it was. *)
Theorem revoked_never_notified
    (settings : option Settings) (users : list User) (w : World)
    (certs : list Certificate.t) (i : nat) (c : Certificate.t) :
  certs !! i = Some c →
  status c = revoked →
  let r := sendExpirationNotifications settings users w certs in
  certificates r !! i = Some c
  ∧ attempts i (events r) = []
  ∧ (∀ d, delivered i d (events r) = 0%nat)
  ∧ (∀ now d, expiringInDays now d c = false).
Proof.
  intros Hi Hs r.
  destruct (run_track w settings users certs) as (ds & _ & Hrun).
  destruct (Hrun i c Hi) as (rc & Hc' & Hev). fold r in Hc', Hev.
  rewrite (track_revoked w rc i 0 ds c Hs) in Hc', Hev.
  split; [done|]. split; [done|]. split.
  - intros d. by rewrite <- delivered_attempts, Hev.
  - intros now d. unfold expiringInDays. by rewrite Hs, bool_decide_eq_true_2.
Qed.

Lemma revoked_never_notified_witness :
  let r := sendExpirationNotifications (Some Sample.settings) [] Sample.world
             [Sample.cert revoked (1000 + CertificateService.days_ms 7) []] in
  certificates r !! 0%nat
    = Some (Sample.cert revoked (1000 + CertificateService.days_ms 7) [])
  ∧ attempts 0 (events r) = []
  ∧ (∀ d, delivered 0 d (events r) = 0%nat)
  ∧ (∀ now d,
       expiringInDays now d
         (Sample.cert revoked (1000 + CertificateService.days_ms 7) []) = false).
Proof.
  apply (revoked_never_notified (Some Sample.settings) [] Sample.world
           [Sample.cert revoked (1000 + CertificateService.days_ms 7) []] 0
           (Sample.cert revoked (1000 + CertificateService.days_ms 7) []));
    reflexivity.
Defined.

End Dispatcher.

(* ===================================================================== *)
(** * Further properties *)
(* ===================================================================== *)

(** ** Regular expressions: [test] decides [matches] *)

Section LangFacts.
Import JS Lang.

Lemma append_cons c (s t : string) : String c s +:+ t = String c (s +:+ t).
Proof. reflexivity. Qed.

Lemma append_nil_l (t : string) : "" +:+ t = t.
Proof. reflexivity. Qed.

Lemma append_nil_r (s : string) : s +:+ "" = s.
Proof.
  induction s as [|c s IH]; [done|]. by rewrite append_cons, IH.
Qed.

Lemma append_assoc (a b c : string) : (a +:+ b) +:+ c = a +:+ (b +:+ c).
Proof.
  induction a as [|x a IH]; [done|]. by rewrite !append_cons, IH.
Qed.

Lemma append_eq_nil (a b : string) : a +:+ b = "" → a = "" ∧ b = "".
Proof. destruct a; [done|]. rewrite append_cons. discriminate. Qed.

Lemma nullable_matches r : nullable r = true ↔ matches r "".
Proof.
  split.
  - induction r as [| |p|r1 IH1 r2 IH2|r1 IH1 r2 IH2|r IH]; simpl; intros H; try done.
    + constructor.
    + apply andb_true_iff in H as [H1 H2].
      change "" with ("" +:+ ""). constructor; auto.
    + apply orb_true_iff in H as [H|H]; [apply m_alt_l | apply m_alt_r]; auto.
    + constructor.
  - intros H. remember "" as s eqn:Hs.
    induction H as [|p c Hp|r1 r2 s1 s2 _ IH1 _ IH2|r1 r2 s _ IH|r1 r2 s _ IH| |r s1 s2 _ _ _ _];
      simpl; try done.
    + apply append_eq_nil in Hs as [-> ->]. by rewrite IH1, IH2.
    + by rewrite IH.
    + rewrite IH by done. apply orb_true_r.
Qed.

Lemma matches_deriv a r s : matches r (String a s) → matches (deriv a r) s.
Proof.
  intros H. remember (String a s) as t eqn:Ht. revert s Ht.
  induction H as [|p c Hp|r1 r2 s1 s2 H1 IH1 H2 IH2|r1 r2 s' _ IH|r1 r2 s' _ IH|
                  |r s1 s2 H1 IH1 H2 IH2]; intros s Ht; simpl; try done.
  - injection Ht as -> <-. rewrite Hp. constructor.
  - destruct s1 as [|c s1]; [rewrite append_nil_l in Ht|rewrite append_cons in Ht].
    + subst s2. rewrite (proj2 (nullable_matches r1) H1).
      apply m_alt_r. by apply IH2.
    + injection Ht as -> <-.
      destruct (nullable r1); [apply m_alt_l|]; constructor; auto.
  - apply m_alt_l. by apply IH.
  - apply m_alt_r. by apply IH.
  - destruct s1 as [|c s1]; [rewrite append_nil_l in Ht|rewrite append_cons in Ht].
    + by apply IH2.
    + injection Ht as -> <-. constructor; auto.
Qed.

Lemma deriv_matches a r s : matches (deriv a r) s → matches r (String a s).
Proof.
  revert s. induction r as [| |p|r1 IH1 r2 IH2|r1 IH1 r2 IH2|r IH]; simpl; intros s H.
  - inversion H.
  - inversion H.
  - destruct (p a) eqn:Hp; inversion H; subst. by constructor.
  - destruct (nullable r1) eqn:Hn.
    + inversion H as [| | | ? ? ? H' | ? ? ? H' | |]; subst.
      * inversion H' as [| |? ? s1 s2 Ha Hb| | | |]; subst.
        change (String a (s1 +:+ s2)) with (String a s1 +:+ s2). constructor; auto.
      * change (String a s) with ("" +:+ String a s).
        constructor; [by apply nullable_matches | auto].
    + inversion H as [| |? ? s1 s2 Ha Hb| | | |]; subst.
      change (String a (s1 +:+ s2)) with (String a s1 +:+ s2). constructor; auto.
  - inversion H; subst; [apply m_alt_l | apply m_alt_r]; auto.
  - inversion H as [| |? ? s1 s2 Ha Hb| | | |]; subst.
    change (String a (s1 +:+ s2)) with (String a s1 +:+ s2). constructor; auto.
Qed.

Lemma test_matches r s : test r s = true ↔ matches r s.
Proof.
  revert r. induction s as [|a s IH]; intros r; simpl.
  - apply nullable_matches.
  - rewrite IH. split; [apply deriv_matches | apply matches_deriv].
Qed.

Lemma every_append p a b : every p (a +:+ b) = every p a && every p b.
Proof.
  induction a as [|c a IH]; [done|].
  rewrite append_cons. simpl. by rewrite IH, andb_assoc.
Qed.

Lemma every_weaken (p q : ascii → bool) s :
  (∀ c, p c = true → q c = true) → every p s = true → every q s = true.
Proof.
  intros Hpq. induction s as [|c s IH]; simpl; [done|].
  intros [Hc Hs]%andb_true_iff. by rewrite (Hpq c Hc), IH.
Qed.

Lemma matches_star_cls p s : matches (RStar (RCls p)) s ↔ every p s = true.
Proof.
  split.
  - intros H. remember (RStar (RCls p)) as r eqn:Hr.
    induction H as [| | | | | |r' s1 s2 H1 _ H2 IH2]; try done.
    injection Hr as ->. rewrite every_append, IH2 by done.
    inversion H1 as [|? c Hc| | | | |]; subst. simpl. by rewrite Hc.
  - induction s as [|c s IH]; simpl; [constructor|].
    intros [Hc Hs]%andb_true_iff.
    change (String c s) with (String c "" +:+ s).
    constructor; [by constructor | auto].
Qed.

(** [/^[class]+$/] accepts the non-empty strings made of the class. *)
Lemma test_plus_cls p s :
  test (RPlus (RCls p)) s = true ↔ s ≠ "" ∧ every p s = true.
Proof.
  rewrite test_matches. unfold RPlus. split.
  - intros H. inversion H as [| |? ? s1 s2 H1 H2| | | |]; subst.
    inversion H1 as [|? c Hc| | | | |]; subst. simpl.
    split; [done|]. rewrite Hc. by apply matches_star_cls.
  - intros [Hne H]. destruct s as [|c s]; [done|]. simpl in H.
    apply andb_true_iff in H as [Hc Hs].
    change (String c s) with (String c "" +:+ s).
    constructor; [by constructor | by apply matches_star_cls].
Qed.

End LangFacts.

(** ** The validators and what they let through *)

Section ValidatorFacts.
Import JS Lang PowerShell.

Lemma every_forall p s :
  every p s = true ↔ ∀ c, c ∈ list_ascii_of_string s → p c = true.
Proof.
  induction s as [|x s IH]; simpl.
  - split; [intros _ c Hc; by apply elem_of_nil in Hc | done].
  - rewrite andb_true_iff, IH. split.
    + intros [Hx Hs] c [->|Hc]%elem_of_cons; auto.
    + intros H. split; [apply H; left | intros c Hc; apply H; by right].
Qed.

Lemma sanitize_unquoted p s :
  p squote = false → every p s = true → sanitizePSString s = s.
Proof.
  intros Hq. induction s as [|c s IH]; simpl; [done|].
  intros [Hc Hs]%andb_true_iff.
  destruct (is_char squote c) eqn:E.
  - apply is_char_squote in E as ->. congruence.
  - by rewrite IH.
Qed.

Lemma validate_plus_cls p n s :
  test (RPlus (RCls p)) s && (String.length s <=? n)%nat = true
  ↔ s ≠ "" ∧ (String.length s ≤ n)%nat ∧ every p s = true.
Proof.
  rewrite andb_true_iff, test_plus_cls, Nat.leb_le. tauto.
Qed.

(** Optional groups [(\.[B]+)*] after [[A]+] add nothing when [A] contains
    the dot and every character of [B]. *)
Lemma dotted_groups_redundant (A B : ascii → bool) (dot : ascii) s :
  A dot = true →
  (∀ c, B c = true → A c = true) →
  matches (RSeq (RPlus (RCls A))
                (RStar (RSeq (RCls (is_char dot)) (RPlus (RCls B))))) s
  ↔ matches (RPlus (RCls A)) s.
Proof.
  intros Hdot HBA. split.
  - intros H. inversion H as [| |? ? s1 s2 H1 H2| | | |]; subst.
    apply test_matches, test_plus_cls in H1 as [Hne H1].
    apply test_matches, test_plus_cls. split.
    { destruct s1; [done|]. rewrite append_cons. discriminate. }
    rewrite every_append, H1. cbn [andb].
    clear H Hne H1. remember (RStar _) as r eqn:Hr.
    induction H2 as [| | | | | |r' t1 t2 Ht1 _ Ht2 IH]; try done.
    injection Hr as ->. rewrite every_append, IH by done.
    inversion Ht1 as [| |? ? u1 u2 Hu1 Hu2| | | |]; subst.
    inversion Hu1 as [|? c Hc| | | | |]; subst.
    apply test_matches, test_plus_cls in Hu2 as [_ Hu2].
    unfold is_char in Hc. apply Ascii.eqb_eq in Hc as <-.
    rewrite append_cons, append_nil_l. cbn [every].
    by rewrite Hdot, (every_weaken B A u2 HBA Hu2).
  - intros H. rewrite <- (append_nil_r s). constructor; [done|constructor].
Qed.

Lemma san_regex_class s :
  test CSR.SAN_REGEX s = true
  ↔ s ≠ "" ∧ every (λ c, alnum c || one_of ".*@_-" c) s = true.
Proof.
  rewrite <- test_plus_cls, !test_matches. unfold CSR.SAN_REGEX.
  apply dotted_groups_redundant; [reflexivity|].
  intros c. destruct (alnum c); [done|]. cbn [orb one_of].
  by destruct (is_char "*" c), (is_char "_" c), (is_char "-" c),
              (is_char "." c), (is_char "@" c).
Qed.

End ValidatorFacts.

(** X1.  [validateHostname] and [validateConfigString] accept exactly the
    non-empty strings within their length bound made of their character
    class; such a string holds no single quote, so [sanitizePSString] leaves
    it as it is. *)
Theorem gateway_validators_accept (s : string) :
  (PowerShell.validateHostname s = true
   ↔ s ≠ "" ∧ (String.length s ≤ 253)%nat
     ∧ Lang.every (λ c, JS.alnum c || JS.one_of "._-" c) s = true)
  ∧ (PowerShell.validateConfigString s = true
     ↔ s ≠ "" ∧ (String.length s ≤ 500)%nat
       ∧ Lang.every (λ c, JS.alnum c || JS.one_of "._\-" c) s = true)
  ∧ (PowerShell.validateHostname s = true ∨ PowerShell.validateConfigString s = true →
     PowerShell.sanitizePSString s = s).
Proof.
  split; [apply validate_plus_cls|]. split; [apply validate_plus_cls|].
  intros [H|H]; apply validate_plus_cls in H as (_ & _ & H);
    by eapply sanitize_unquoted; [|exact H].
Qed.

Lemma gateway_validators_accept_witness :
  PowerShell.sanitizePSString "ca01.corp.local\Corp-Issuing-CA"
  = "ca01.corp.local\Corp-Issuing-CA".
Proof.
  apply (gateway_validators_accept "ca01.corp.local\Corp-Issuing-CA").
  right. reflexivity.
Defined.

(** X2.  [validateSubjectField] accepts exactly the non-empty strings of at
    most 200 characters from [a-zA-Z0-9 .,_@()-]; a value holding a
    semicolon, a quote of either kind, a backtick, a dollar sign, a line
    break, a brace, a backslash, a pipe, an ampersand, an angle bracket or
    an equals sign is rejected. *)
Theorem subject_field_accepts (v : string) :
  (CSR.validateSubjectField v = true
   ↔ v ≠ "" ∧ (String.length v ≤ 200)%nat
     ∧ Lang.every (λ c, JS.alnum c || JS.one_of " .,_@()-" c) v = true)
  ∧ ∀ c : ascii,
      c ∈ [";"; JS.dquote; JS.squote; "`"; "$"; JS.newline; "013"; "{"; "}";
           "\"; "|"; "&"; "<"; ">"; "="]%char →
      c ∈ list_ascii_of_string v →
      CSR.validateSubjectField v = false.
Proof.
  split; [apply validate_plus_cls|].
  intros c Hbad Hc.
  destruct (CSR.validateSubjectField v) eqn:E; [|done].
  apply validate_plus_cls in E as (_ & _ & E).
  pose proof (proj1 (every_forall _ _) E c Hc) as Hok.
  rewrite !elem_of_cons, elem_of_nil in Hbad.
  repeat (destruct Hbad as [->|Hbad]; [by vm_compute in Hok|]). done.
Qed.

Lemma subject_field_accepts_witness :
  CSR.validateSubjectField "Acme'; Remove-Item C:\ -Recurse #" = false.
Proof.
  apply (subject_field_accepts "Acme'; Remove-Item C:\ -Recurse #") with (c := JS.squote).
  - by apply (bool_decide_unpack _).
  - by apply (bool_decide_unpack _).
Defined.

(** X3.  [validateSAN] accepts exactly the non-empty strings of at most 253
    characters from [a-zA-Z0-9.*@_-]: the dotted groups of its expression
    add no constraint.  A name holding a space, a semicolon, a quote, a line
    break or the ampersand that joins the SAN entries is rejected. *)
Theorem san_accepts (san : string) :
  (CSR.validateSAN san = true
   ↔ san ≠ "" ∧ (String.length san ≤ 253)%nat
     ∧ Lang.every (λ c, JS.alnum c || JS.one_of ".*@_-" c) san = true)
  ∧ ∀ c : ascii,
      c ∈ [" "; ";"; JS.dquote; JS.squote; JS.newline; "013"; "&"; ","; "="; "$"]%char →
      c ∈ list_ascii_of_string san →
      CSR.validateSAN san = false.
Proof.
  assert (CSR.validateSAN san = true
          ↔ san ≠ "" ∧ (String.length san ≤ 253)%nat
            ∧ Lang.every (λ c, JS.alnum c || JS.one_of ".*@_-" c) san = true) as Hiff.
  { unfold CSR.validateSAN. rewrite andb_true_iff, san_regex_class, Nat.leb_le. tauto. }
  split; [exact Hiff|].
  intros c Hbad Hc.
  destruct (CSR.validateSAN san) eqn:E; [|done].
  destruct (proj1 Hiff eq_refl) as (_ & _ & E').
  pose proof (proj1 (every_forall _ _) E' c Hc) as Hok.
  rewrite !elem_of_cons, elem_of_nil in Hbad.
  repeat (destruct Hbad as [->|Hbad]; [by vm_compute in Hok|]). done.
Qed.

Lemma san_accepts_witness :
  CSR.validateSAN "..--.." = true ∧ CSR.validateSAN "a.example.com&DNS.2=evil" = false.
Proof.
  split.
  - apply (san_accepts "..--.."). repeat split; [discriminate | vm_compute; lia].
  - apply (san_accepts "a.example.com&DNS.2=evil") with (c := "&"%char);
      by apply (bool_decide_unpack _).
Defined.

(** ** The gateway: when a process is started *)

Section SpawnFacts.
Import JS PowerShell PowerShellCalls.

Lemma paramStrings_checked ps strs :
  paramStrings ps = inr strs → Forall checked ps.
Proof.
  revert strs. induction ps as [|[k v] ps IH]; intros strs H; [constructor|].
  simpl in H. destruct (paramString k v) as [e|s] eqn:Hp; [done|].
  destruct (paramStrings ps) as [e|ss] eqn:Hps; [done|].
  constructor; [|by eapply IH].
  unfold paramString in Hp. split; simpl.
  - by destruct (test SAFE_PARAM_KEY_REGEX k).
  - destruct (test SAFE_PARAM_KEY_REGEX k); [|done].
    destruct v as [s'|n|b]; try done. simpl in Hp. by destruct (isFinite n).
Qed.

Lemma inline_spawns pj pr dir s t :
  s ≠ "" →
  executePowerShell pj pr dir
    {| script := Some s; scriptFile := None; parameters := [];
       timeout := t; remoteComputer := None |}
  = Spawned ["-NoProfile"; "-NonInteractive"; "-ExecutionPolicy"; "Bypass";
             "-Command"; s] (default 60000 t).
Proof. intros Hs. destruct s; [done|]. reflexivity. Qed.

End SpawnFacts.

(** X4.  [executePowerShell] starts a process only after its checks: a
    [scriptFile] it uses is on the allow-list and resolves inside the
    scripts directory, without one there is an inline script, every
    parameter key has the form [/^[a-zA-Z][a-zA-Z0-9]*$/] and every numeric
    parameter is finite, and a remote computer name passes
    [validateHostname].  The process is [powershell.exe] with the four fixed
    switches and one [-Command], under the given timeout or 60 s. *)
Theorem spawn_only_when_checked
    (path_join : string → string → string) (path_resolve : string → string)
    (SCRIPTS_DIR : string) (o : PowerShell.PowerShellOptions)
    (args : list string) (t : Z) :
  PowerShell.executePowerShell path_join path_resolve SCRIPTS_DIR o
    = PowerShell.Spawned args t →
  (∀ sf, PowerShell.scriptFile o = Some sf → sf ≠ "" →
         sf ∈ PowerShell.ALLOWED_SCRIPTS
         ∧ String.prefix (path_resolve SCRIPTS_DIR)
                         (path_resolve (path_join SCRIPTS_DIR sf)) = true)
  ∧ (JS.truthy_opt (PowerShell.scriptFile o) = false →
     JS.truthy_opt (PowerShell.script o) = true)
  ∧ Forall PowerShellCalls.checked (PowerShell.parameters o)
  ∧ (∀ rc, PowerShell.remoteComputer o = Some rc → rc ≠ "" →
           PowerShell.validateHostname rc = true)
  ∧ t = default 60000 (PowerShell.timeout o)
  ∧ ∃ command,
      args = ["-NoProfile"; "-NonInteractive"; "-ExecutionPolicy"; "Bypass";
              "-Command"; command].
Proof.
  unfold PowerShell.executePowerShell. intros H.
  destruct (PowerShell.paramStrings (PowerShell.parameters o)) as [e|strs] eqn:Hps.
  { by repeat case_match. }
  apply paramStrings_checked in Hps.
  assert (∀ s : string, s ≠ "" → JS.truthy s = true) as Htruthy
    by (by intros [|??]).
  repeat split.
  - destruct (PowerShell.scriptFile o) as [sf'|] eqn:Hsf; [|done].
    injection H0 as ->. simpl in H. rewrite (Htruthy _ H1) in H.
    unfold JS.has in H. case_bool_decide; [done|]. simpl in H. done.
  - destruct (PowerShell.scriptFile o) as [sf'|] eqn:Hsf; [|done].
    injection H0 as ->. simpl in H. rewrite (Htruthy _ H1) in H.
    destruct (negb (JS.has _ _)); [done|].
    destruct (String.prefix _ _); [done|]. simpl in H. done.
  - intros Hsf. rewrite Hsf in H.
    destruct (JS.truthy_opt (PowerShell.script o)); [done|]. simpl in H. done.
  - exact Hps.
  - intros rc Hrc Hne. rewrite Hrc in H. simpl in H. rewrite (Htruthy _ Hne) in H.
    destruct (PowerShell.validateHostname rc); [done|].
    by repeat case_match.
  - by repeat case_match; simplify_eq.
  - repeat case_match; simplify_eq; eauto.
Qed.

Lemma spawn_only_when_checked_witness :
  "Bind-IISCertificate.ps1" ∈ PowerShell.ALLOWED_SCRIPTS
  ∧ Forall PowerShellCalls.checked
      [("SiteName", PowerShell.PString "Default Web Site");
       ("Port", PowerShell.PNumber (JS.Finite 443))]
  ∧ PowerShell.validateHostname "web01.corp.local" = true.
Proof.
  destruct (spawn_only_when_checked Sample.path_join Sample.path_resolve
              Sample.SCRIPTS_DIR
              (PowerShell.mkOptions None (Some "Bind-IISCertificate.ps1")
                 [("SiteName", PowerShell.PString "Default Web Site");
                  ("Port", PowerShell.PNumber (JS.Finite 443))]
                 None (Some "web01.corp.local"))
              _ _ eq_refl) as (Hsf & _ & Hps & Hrc & _).
  split; [by apply (Hsf "Bind-IISCertificate.ps1")|].
  split; [exact Hps|]. by apply (Hrc "web01.corp.local").
Defined.

(** ** The service calls built on the gateway *)

Section CallFacts.
Import JS Lang PowerShell PowerShellCalls.

Lemma truthy_ne (s : string) : s ≠ "" → truthy s = true.
Proof. by destruct s. Qed.

Lemma filter_truthy (l : list string) :
  Forall (λ s, truthy s = true) l → filter (λ s, truthy s = true) l = l.
Proof.
  induction 1 as [|s l Hs _ IH]; [done|].
  by rewrite filter_cons_True, IH.
Qed.

Lemma host_unquoted h : validateHostname h = true → sanitizePSString h = h.
Proof.
  intros H. apply validate_plus_cls in H as (_ & _ & H).
  by eapply sanitize_unquoted; [|exact H].
Qed.

Lemma config_unquoted s : validateConfigString s = true → sanitizePSString s = s.
Proof.
  intros H. apply validate_plus_cls in H as (_ & _ & H).
  by eapply sanitize_unquoted; [|exact H].
Qed.

Lemma plus_cls_unquoted p s :
  p squote = false → test (RPlus (RCls p)) s = true → sanitizePSString s = s.
Proof.
  intros Hp [_ H]%test_plus_cls. by eapply sanitize_unquoted.
Qed.

(** A listed script file that resolves inside the scripts directory, with
    parameters that pass the checks and no remote computer, is started. *)
Lemma file_spawns pj pr dir sf ps strs t :
  sf ∈ ALLOWED_SCRIPTS →
  String.prefix (pr dir) (pr (pj dir sf)) = true →
  paramStrings ps = inr strs →
  Forall (λ s, truthy s = true) strs →
  strs ≠ [] →
  executePowerShell pj pr dir
    {| script := None; scriptFile := Some sf; parameters := ps;
       timeout := t; remoteComputer := None |}
  = Spawned ["-NoProfile"; "-NonInteractive"; "-ExecutionPolicy"; "Bypass";
             "-Command";
             "& '" +:+ sanitizePSString (pj dir sf) +:+ "' " +:+ join " " strs]
            (default 60000 t).
Proof.
  intros Hsf Hpre Hps Hstrs Hne.
  unfold executePowerShell. cbn [scriptFile script parameters timeout remoteComputer].
  assert (sf ≠ "") as Hsf'.
  { intros ->. unfold ALLOWED_SCRIPTS in Hsf.
    repeat (apply elem_of_cons in Hsf as [Hsf|Hsf]; [discriminate|]).
    by apply elem_of_nil in Hsf. }
  cbn [truthy_opt default from_option id]. rewrite (truthy_ne _ Hsf').
  unfold has. rewrite (bool_decide_eq_true_2 _ Hsf). cbn [negb].
  rewrite Hpre, Hps. cbn [negb]. rewrite (filter_truthy _ Hstrs).
  destruct strs as [|s strs]; [done|]. cbn [List.length Nat.ltb Nat.leb].
  cbn [app]. do 6 f_equal.
  by rewrite !append_assoc.
Qed.

Lemma paramString_string k s :
  test SAFE_PARAM_KEY_REGEX k = true →
  paramString k (PString s) = inr ("-" +:+ k +:+ " '" +:+ sanitizePSString s +:+ "'").
Proof. intros H. unfold paramString. by rewrite H. Qed.

Lemma allowed_bind : "Bind-IISCertificate.ps1" ∈ ALLOWED_SCRIPTS.
Proof. unfold ALLOWED_SCRIPTS. set_solver. Qed.

Lemma allowed_submit : "Submit-CertificateRequest.ps1" ∈ ALLOWED_SCRIPTS.
Proof. unfold ALLOWED_SCRIPTS. set_solver. Qed.

Lemma allowed_install : "Install-Certificate.ps1" ∈ ALLOWED_SCRIPTS.
Proof. unfold ALLOWED_SCRIPTS. set_solver. Qed.

Lemma allowed_issued : "Get-IssuedCertificates.ps1" ∈ ALLOWED_SCRIPTS.
Proof. unfold ALLOWED_SCRIPTS. set_solver. Qed.

Lemma probe_value args t e :
  value (saysTrue (mkCall (spawned (Spawned args t)) (settle (Spawned args t) e)))
    = inr true
  ↔ ∃ out err, e = Close (Some 0) out err ∧ toLowerCase (trim out) = "true".
Proof.
  cbn [saysTrue value settle]. split.
  - intros [= H]. apply andb_true_iff in H as [Hs Ho].
    apply String.eqb_eq in Ho. destruct e as [code out err|m]; [|done].
    cbn [onEnd] in Hs, Ho. case_bool_decide as Hc; [|done].
    subst code. eauto.
  - intros (out & err & -> & H). cbn [onEnd].
    rewrite bool_decide_eq_true_2 by done. cbn [success output andb].
    by rewrite H.
Qed.

End CallFacts.

(** X5.  [testConnection] and [testWinRM] answer [true] exactly when the
    host name passes [validateHostname], the process exits with code 0 and
    its trimmed output is [true] in any letter case.  A rejected host name
    starts no process; an accepted one is put into the command unchanged. *)
Theorem probe_true_iff
    (path_join : string → string → string) (path_resolve : string → string)
    (SCRIPTS_DIR : string) (hostname : string) (e : PowerShell.ProcessEnd) :
  let testConnection :=
    PowerShellCalls.testConnection path_join path_resolve SCRIPTS_DIR hostname e in
  let testWinRM :=
    PowerShellCalls.testWinRM path_join path_resolve SCRIPTS_DIR hostname e in
  let answers :=
    PowerShell.validateHostname hostname = true
    ∧ ∃ out err, e = PowerShell.Close (Some 0) out err
                 ∧ PowerShellCalls.toLowerCase (JS.trim out) = "true" in
  (PowerShellCalls.value testConnection = inr true ↔ answers)
  ∧ (PowerShellCalls.value testWinRM = inr true ↔ answers)
  ∧ PowerShellCalls.started testConnection
    = (if PowerShell.validateHostname hostname then
         [["-NoProfile"; "-NonInteractive"; "-ExecutionPolicy"; "Bypass";
           "-Command";
           "Test-Connection -ComputerName '" +:+ hostname +:+ "' -Count 1 -Quiet"]]
       else [])
  ∧ PowerShellCalls.started testWinRM
    = (if PowerShell.validateHostname hostname then
         [["-NoProfile"; "-NonInteractive"; "-ExecutionPolicy"; "Bypass";
           "-Command";
           "Test-WSMan -ComputerName '" +:+ hostname
             +:+ "' -ErrorAction SilentlyContinue | Out-Null; $?"]]
       else []).
Proof.
  cbv zeta.
  unfold PowerShellCalls.testConnection, PowerShellCalls.testWinRM,
    PowerShellCalls.run.
  destruct (PowerShell.validateHostname hostname) eqn:Hh; cbn [negb].
  - rewrite (host_unquoted _ Hh), !inline_spawns by done.
    rewrite !probe_value. split_and!; [tauto|tauto|done|done].
  - cbn. split_and!; [| |done|done]; split; try done; by intros [? _].
Qed.

(** X6.  [bindIISCertificate], the script resolving inside the scripts
    directory: a process is started exactly when the host name passes
    [validateHostname], the thumbprint is hexadecimal and the port is a
    finite number; the command then names the script, the host and the
    thumbprint unchanged, the site name with its single quotes doubled, and
    the port, 443 when none is given.  With a valid host and thumbprint a
    port that is not finite makes the call throw
    [Invalid numeric parameter: Port]. *)
Theorem bind_iis_command
    (path_join : string → string → string) (path_resolve : string → string)
    (SCRIPTS_DIR : string) (hostname siteName thumbprint : string)
    (port : option JS.number) (e : PowerShell.ProcessEnd) :
  String.prefix (path_resolve SCRIPTS_DIR)
    (path_resolve (path_join SCRIPTS_DIR "Bind-IISCertificate.ps1")) = true →
  let call :=
    PowerShellCalls.bindIISCertificate path_join path_resolve SCRIPTS_DIR
      hostname siteName thumbprint port e in
  let accepted :=
    PowerShell.validateHostname hostname
    && JS.test PowerShellCalls.THUMBPRINT_REGEX thumbprint in
  PowerShellCalls.started call
  = (if accepted && JS.isFinite (default (JS.Finite 443) port) then
       [["-NoProfile"; "-NonInteractive"; "-ExecutionPolicy"; "Bypass";
         "-Command";
         "& '"
         +:+ PowerShell.sanitizePSString
               (path_join SCRIPTS_DIR "Bind-IISCertificate.ps1")
         +:+ "' -ComputerName '" +:+ hostname
         +:+ "' -SiteName '" +:+ PowerShell.sanitizePSString siteName
         +:+ "' -Thumbprint '" +:+ thumbprint
         +:+ "' -Port " +:+ JS.number_to_string (default (JS.Finite 443) port)]]
     else [])
  ∧ (accepted = true →
     JS.isFinite (default (JS.Finite 443) port) = false →
     PowerShellCalls.value call = inl "Invalid numeric parameter: Port").
Proof.
  intros Hpre. cbv zeta. unfold PowerShellCalls.bindIISCertificate.
  destruct (PowerShell.validateHostname hostname) eqn:Hh; cbn [negb andb];
    [|by split].
  destruct (JS.test PowerShellCalls.THUMBPRINT_REGEX thumbprint) eqn:Ht;
    cbn [negb andb]; [|by split].
  unfold PowerShellCalls.run.
  destruct (JS.isFinite (default (JS.Finite 443) port)) eqn:Hp.
  - split; [|done].
    erewrite file_spawns; [| apply allowed_bind | exact Hpre | | |]; cycle 1.
    + cbn [PowerShell.paramStrings].
      rewrite !paramString_string by reflexivity.
      unfold PowerShell.paramString. rewrite Hp.
      rewrite (host_unquoted _ Hh).
      rewrite (plus_cls_unquoted _ _ eq_refl Ht). reflexivity.
    + by repeat constructor.
    + done.
    + cbn [PowerShellCalls.started PowerShell.spawned JS.join].
      by rewrite !append_assoc.
  - unfold PowerShell.executePowerShell.
    cbn [PowerShell.scriptFile PowerShell.parameters PowerShell.paramStrings
         JS.truthy_opt JS.truthy default from_option id].
    unfold JS.has. rewrite (bool_decide_eq_true_2 _ allowed_bind), Hpre.
    rewrite !paramString_string by reflexivity.
    unfold PowerShell.paramString. rewrite Hp. by split.
Qed.

Lemma bind_iis_command_witness :
  PowerShellCalls.value
    (PowerShellCalls.bindIISCertificate Sample.path_join Sample.path_resolve
       Sample.SCRIPTS_DIR "web01.corp.local" "Default Web Site" "A1B2C3"
       (Some JS.NaN) (PowerShell.Close (Some 0) "" ""))
  = inl "Invalid numeric parameter: Port".
Proof.
  by apply (bind_iis_command Sample.path_join Sample.path_resolve
              Sample.SCRIPTS_DIR "web01.corp.local" "Default Web Site" "A1B2C3"
              (Some JS.NaN) (PowerShell.Close (Some 0) "" "") eq_refl).
Defined.

(** X7.  [submitCSR], the script resolving inside the scripts directory:
    a configuration string that fails [validateConfigString] is answered
    with [Invalid CA config string], otherwise a template that is not of
    the form [/^[a-zA-Z0-9 _-]+$/] with [Invalid template name], and
    otherwise the submit script is started under a 60 s timeout with the
    configuration string and the template unchanged and the request path
    with its single quotes doubled. *)
Theorem submit_csr_command
    (path_join : string → string → string) (path_resolve : string → string)
    (SCRIPTS_DIR : string) (csrPath configString template : string) :
  String.prefix (path_resolve SCRIPTS_DIR)
    (path_resolve (path_join SCRIPTS_DIR "Submit-CertificateRequest.ps1")) = true →
  PowerShell.submitCSR path_join path_resolve SCRIPTS_DIR
    csrPath configString template
  = if negb (PowerShell.validateConfigString configString) then
      PowerShell.Resolved (PowerShell.failure "Invalid CA config string")
    else if negb (JS.test PowerShell.TEMPLATE_REGEX template) then
      PowerShell.Resolved (PowerShell.failure "Invalid template name")
    else
      PowerShell.Spawned
        ["-NoProfile"; "-NonInteractive"; "-ExecutionPolicy"; "Bypass";
         "-Command";
         "& '"
         +:+ PowerShell.sanitizePSString
               (path_join SCRIPTS_DIR "Submit-CertificateRequest.ps1")
         +:+ "' -CSRPath '" +:+ PowerShell.sanitizePSString csrPath
         +:+ "' -ConfigString '" +:+ configString
         +:+ "' -Template '" +:+ template +:+ "'"]
        60000.
Proof.
  intros Hpre. unfold PowerShell.submitCSR.
  destruct (PowerShell.validateConfigString configString) eqn:Hc;
    cbn [negb]; [|done].
  destruct (JS.test PowerShell.TEMPLATE_REGEX template) eqn:Ht;
    cbn [negb]; [|done].
  erewrite file_spawns; [| apply allowed_submit | exact Hpre | | |]; cycle 1.
  - cbn [PowerShell.paramStrings].
    rewrite !paramString_string by reflexivity.
    rewrite (config_unquoted _ Hc), (plus_cls_unquoted _ _ eq_refl Ht).
    reflexivity.
  - by repeat constructor.
  - done.
  - cbn [JS.join default from_option id]. by rewrite !append_assoc.
Qed.

Lemma submit_csr_command_witness :
  PowerShell.submitCSR Sample.path_join Sample.path_resolve Sample.SCRIPTS_DIR
    "C:\Temp\it's.req" "ca01.corp.local\Corp-Issuing-CA" "Web Server"
  = PowerShell.Spawned
      ["-NoProfile"; "-NonInteractive"; "-ExecutionPolicy"; "Bypass";
       "-Command";
       "& '/srv/app/scripts/Submit-CertificateRequest.ps1' -CSRPath 'C:\Temp\it''s.req' -ConfigString 'ca01.corp.local\Corp-Issuing-CA' -Template 'Web Server'"]
      60000.
Proof.
  exact (submit_csr_command Sample.path_join Sample.path_resolve
           Sample.SCRIPTS_DIR "C:\Temp\it's.req"
           "ca01.corp.local\Corp-Issuing-CA" "Web Server" eq_refl).
Defined.

(** X8.  [getRemoteCertificates] and [installCertificate] answer
    [Invalid hostname] and [getCAIssuedCertificates] answers
    [Invalid CA config string] without starting a process when the
    validator rejects the argument; otherwise one process is started, with
    the validated argument unchanged in the command and, for the two script
    files (resolving inside the scripts directory), the certificate path
    with its single quotes doubled. *)
Theorem service_calls_commands
    (path_join : string → string → string) (path_resolve : string → string)
    (SCRIPTS_DIR : string) (hostname certPath configString : string)
    (e : PowerShell.ProcessEnd) :
  (∀ sf, sf ∈ PowerShell.ALLOWED_SCRIPTS →
         String.prefix (path_resolve SCRIPTS_DIR)
           (path_resolve (path_join SCRIPTS_DIR sf)) = true) →
  let switches :=
    ["-NoProfile"; "-NonInteractive"; "-ExecutionPolicy"; "Bypass"; "-Command"] in
  let remote :=
    PowerShellCalls.getRemoteCertificates path_join path_resolve SCRIPTS_DIR
      hostname e in
  let install :=
    PowerShellCalls.installCertificate path_join path_resolve SCRIPTS_DIR
      hostname certPath e in
  let issued :=
    PowerShellCalls.getCAIssuedCertificates path_join path_resolve SCRIPTS_DIR
      configString e in
  (if PowerShell.validateHostname hostname then
     PowerShellCalls.started remote
     = [(switches ++ [CSR.lines [
          "";
          "      Invoke-Command -ComputerName '" +:+ hostname +:+ "' -ScriptBlock {";
          "        Get-ChildItem -Path Cert:\LocalMachine\My |";
          "        Select-Object Thumbprint, Subject, NotBefore, NotAfter, Issuer |";
          "        ConvertTo-Json -Compress";
          "      }";
          "    " ]])%list]
     ∧ PowerShellCalls.started install
       = [(switches ++ [
            "& '"
            +:+ PowerShell.sanitizePSString
                  (path_join SCRIPTS_DIR "Install-Certificate.ps1")
            +:+ "' -ComputerName '" +:+ hostname
            +:+ "' -CertificatePath '" +:+ PowerShell.sanitizePSString certPath
            +:+ "'"])%list]
     ∧ PowerShellCalls.value remote = inr (PowerShell.onEnd e)
     ∧ PowerShellCalls.value install = inr (PowerShell.onEnd e)
   else
     remote = PowerShellCalls.refused "Invalid hostname"
     ∧ install = PowerShellCalls.refused "Invalid hostname")
  ∧ (if PowerShell.validateConfigString configString then
       PowerShellCalls.started issued
       = [(switches ++ [
            "& '"
            +:+ PowerShell.sanitizePSString
                  (path_join SCRIPTS_DIR "Get-IssuedCertificates.ps1")
            +:+ "' -ConfigString '" +:+ configString +:+ "'"])%list]
       ∧ PowerShellCalls.value issued = inr (PowerShell.onEnd e)
     else issued = PowerShellCalls.refused "Invalid CA config string").
Proof.
  intros Hpre. cbv zeta.
  unfold PowerShellCalls.getRemoteCertificates,
    PowerShellCalls.installCertificate,
    PowerShellCalls.getCAIssuedCertificates, PowerShellCalls.run.
  split.
  - destruct (PowerShell.validateHostname hostname) eqn:Hh; cbn [negb]; [|done].
    rewrite inline_spawns by (unfold CSR.lines; cbn [JS.join]; done).
    erewrite file_spawns;
      [| apply allowed_install | apply Hpre, allowed_install | | |]; cycle 1.
    + cbn [PowerShell.paramStrings].
      rewrite !paramString_string by reflexivity.
      rewrite (host_unquoted _ Hh). reflexivity.
    + by repeat constructor.
    + done.
    + rewrite (host_unquoted _ Hh).
      cbn [PowerShellCalls.started PowerShellCalls.value PowerShell.spawned
           PowerShell.settle JS.join app].
      split_and!; try done; by rewrite ?append_assoc.
  - destruct (PowerShell.validateConfigString configString) eqn:Hc;
      cbn [negb]; [|done].
    erewrite file_spawns;
      [| apply allowed_issued | apply Hpre, allowed_issued | | |]; cycle 1.
    + cbn [PowerShell.paramStrings].
      rewrite !paramString_string by reflexivity.
      rewrite (config_unquoted _ Hc). reflexivity.
    + by repeat constructor.
    + done.
    + cbn [PowerShellCalls.started PowerShellCalls.value PowerShell.spawned
           PowerShell.settle JS.join app].
      split; [|done]. by rewrite ?append_assoc.
Qed.

Lemma service_calls_commands_witness :
  PowerShellCalls.getCAIssuedCertificates Sample.path_join Sample.path_resolve
    Sample.SCRIPTS_DIR "ca01;calc" (PowerShell.Close (Some 0) "[]" "")
  = PowerShellCalls.refused "Invalid CA config string".
Proof.
  apply (service_calls_commands Sample.path_join Sample.path_resolve
           Sample.SCRIPTS_DIR "web01" "C:\cert.cer" "ca01;calc"
           (PowerShell.Close (Some 0) "[]" "")).
  intros sf Hsf. unfold PowerShell.ALLOWED_SCRIPTS in Hsf.
  repeat (apply elem_of_cons in Hsf as [->|Hsf]; [reflexivity|]).
  by apply elem_of_nil in Hsf.
Defined.

(** ** The CSR controller: what a request does to the collection *)

Section TransitionFacts.
Import JS PowerShell CSR Workflow.
Context (path_join : string → string → string) (path_resolve : string → string)
        (SCRIPTS_DIR : string) (TEMP : option string).

(** A result without success carries an error text. *)
Lemma settle_failure g e r :
  (∀ r', g = Resolved r' → ∃ m, r' = failure m) →
  settle g e = inr r → success r = false → is_Some (PowerShell.error r).
Proof.
  intros Hg Hs Hr. destruct g as [r'|m|args t]; simpl in Hs.
  - injection Hs as ->. destruct (Hg _ eq_refl) as [m ->]. by eexists.
  - done.
  - injection Hs as <-. destruct e as [code out err|m]; simpl in *; [|by eexists].
    case_bool_decide; [done|]. by eexists.
Qed.

Lemma resolved_is_failure o r :
  executePowerShell path_join path_resolve SCRIPTS_DIR o = Resolved r →
  ∃ m, r = failure m.
Proof.
  unfold executePowerShell.
  repeat (case_match; simplify_eq/=); try done; intros [= <-]; eauto.
Qed.

Lemma submit_resolved_is_failure p c t r :
  submitCSR path_join path_resolve SCRIPTS_DIR p c t = Resolved r →
  ∃ m, r = failure m.
Proof.
  unfold submitCSR. repeat case_match; try (intros [= <-]; eauto).
  apply resolved_is_failure.
Qed.

Lemma generate_cases servers id now e st :
  let st' := store (generateCSR path_join path_resolve SCRIPTS_DIR
                      servers id now e st) in
  st' = st
  ∨ ∃ csr csr', st !! id = Some csr ∧ Transition csr csr'
                ∧ st' = <[id := csr']> st.
Proof.
  cbv zeta. unfold generateCSR.
  destruct (st !! id) as [csr|] eqn:Hid; [|by left].
  destruct (negb (bool_decide (status csr = draft))
            && negb (bool_decide (status csr = pending))) eqn:Hst; [by left|].
  assert (status csr = draft ∨ status csr = pending) as Hstatus.
  { apply andb_false_iff in Hst as [H|H]; apply negb_false_iff in H;
      apply bool_decide_eq_true_1 in H; auto. }
  clear Hst.
  repeat (case_match; try (by left)); cbn [store reply]; right; exists csr;
    rewrite ?insert_insert_eq.
  all: try (eexists; split_and!; [done|by apply t_generating|done]).
  all: try (eexists; split_and!; [done|by apply t_generated|done]).
  all: eexists; split_and!; [done| |done]; apply t_generate_failed; [done|].
  all: eapply settle_failure; [|eassumption|done];
    intros ?; apply resolved_is_failure.
Qed.

Lemma submit_cases cas id now e st :
  let st' := store (submitCSRToCA path_join path_resolve SCRIPTS_DIR TEMP
                      cas id now e st) in
  st' = st
  ∨ ∃ csr csr', st !! id = Some csr ∧ Transition csr csr'
                ∧ st' = <[id := csr']> st.
Proof.
  cbv zeta. unfold submitCSRToCA.
  destruct (st !! id) as [csr|] eqn:Hid; [|by left].
  destruct (truthy_opt (csrPEM csr)) eqn:Hpem; cbn [negb]; [|by left].
  destruct (targetCAId csr) as [ca|] eqn:Hca; cbn [mbind option_bind]; [|by left].
  destruct (cas !! ca) as [configString|]; [|by left].
  assert (is_Some (targetCAId csr)) as Hca' by (rewrite Hca; eauto).
  repeat case_match; cbn [store reply]; right; exists csr;
    rewrite ?insert_insert_eq.
  all: try (eexists; split_and!; [done|by apply t_submitting|done]).
  all: try (eexists; split_and!; [done|by apply t_submitted|done]).
  all: eexists; split_and!; [done| |done]; apply t_submit_failed; [done|done|].
  all: eapply settle_failure; [|eassumption|done];
    intros ?; apply submit_resolved_is_failure.
Qed.

(** Every request leaves the collection as it was, inserts a new document
    ([createCSR]), replaces the document it addresses by one of its
    transitions, or deletes it when it is not submitted. *)
Lemma perform_cases o st :
  let st' := store (perform path_join path_resolve SCRIPTS_DIR TEMP o st) in
  st' = st
  ∨ (isCreate o
     ∧ ∃ csr, st' = <[target o := csr]> st ∧ status csr = draft
              ∧ issuedCertificateId csr = None ∧ untouched csr)
  ∨ (¬ isCreate o
     ∧ ∃ csr csr', st !! target o = Some csr ∧ Transition csr csr'
                   ∧ st' = <[target o := csr']> st)
  ∨ (¬ isCreate o
     ∧ ∃ csr, st !! target o = Some csr ∧ status csr ≠ submitted
              ∧ st' = delete (target o) st).
Proof.
  cbv zeta.
  destruct o as [cas servers newId user now b|id b|servers id now e|cas id now e|id];
    cbn [perform target isCreate].
  - unfold createCSR. repeat (case_match; [by left|]). cbn [store reply].
    right; left. split; [done|]. eexists. split; [done|]. by repeat split.
  - unfold updateCSR. destruct (st !! id) as [csr|] eqn:Hid; [|by left].
    case_bool_decide as Hd; cbn [negb]; [|by left].
    right; right; left. split; [tauto|]. exists csr, (applyBody b csr).
    split_and!; [done|by constructor|done].
  - destruct (generate_cases servers id now e st) as [H|H]; [by left|].
    right; right; left. split; [tauto|]. exact H.
  - destruct (submit_cases cas id now e st) as [H|H]; [by left|].
    right; right; left. split; [tauto|]. exact H.
  - unfold deleteCSR. destruct (st !! id) as [csr|] eqn:Hid; [|by left].
    case_bool_decide as Hd; [by left|].
    right; right; right. split; [tauto|]. by exists csr.
Qed.

(** A property of documents that [createCSR] establishes and every
    transition keeps holds throughout the collection. *)
Lemma run_invariant (I : CSRRequest → Prop) ops st :
  (∀ csr, status csr = draft → issuedCertificateId csr = None →
          untouched csr → I csr) →
  (∀ csr csr', I csr → Transition csr csr' → I csr') →
  map_Forall (λ _, I) st →
  map_Forall (λ _, I) (run path_join path_resolve SCRIPTS_DIR TEMP ops st).
Proof.
  intros Hnew Hstep. revert st. unfold run.
  induction ops as [|o ops IH]; intros st Hst; [done|].
  cbn [foldl]. apply IH.
  destruct (perform_cases o st) as [->|[(_ & csr & -> & ? & ? & ?)|
    [(_ & csr & csr' & Hid & Ht & ->)|(_ & csr & _ & _ & ->)]]].
  - done.
  - apply map_Forall_insert_2; auto.
  - apply map_Forall_insert_2; [|done]. eapply Hstep; [|done]. by eapply Hst.
  - by apply map_Forall_delete.
Qed.

Lemma transition_steps csr csr' s1 s2 s3 :
  Transition csr csr' →
  workflowSteps csr = [s1; s2; s3] →
  Step.step s1 = "Generate CSR" → Step.step s2 = "Submit to CA" →
  ∃ s1' s2', workflowSteps csr' = [s1'; s2'; s3]
             ∧ Step.step s1' = "Generate CSR" ∧ Step.step s2' = "Submit to CA".
Proof.
  intros Ht Hw H1 H2.
  destruct s1 as [n1 ? ? ?], s2 as [n2 ? ? ?]. cbn in H1, H2. subst n1 n2.
  destruct Ht; unfold generating, submitting, updateWorkflowStep;
    cbn [applyBody workflowSteps set_workflowSteps set_status set_generated
         set_errorMessage set_processedAt];
    rewrite Hw; simpl; eauto.
Qed.

Lemma transition_status csr csr' :
  Transition csr csr' →
  (status csr = draft ∧ status csr' = draft)
  ∨ ((status csr = draft ∨ status csr = pending) ∧ status csr' = pending)
  ∨ status csr' = submitted ∨ status csr' = failed.
Proof. destruct 1; cbn; auto. Qed.

Lemma transition_frozen csr csr' :
  Transition csr csr' → status csr ≠ draft →
  status csr' ≠ draft
  ∧ commonName csr' = commonName csr
  ∧ subjectAlternativeNames csr' = subjectAlternativeNames csr
  ∧ subject csr' = subject csr
  ∧ keySize csr' = keySize csr
  ∧ keyAlgorithm csr' = keyAlgorithm csr
  ∧ hashAlgorithm csr' = hashAlgorithm csr
  ∧ templateName csr' = templateName csr
  ∧ targetCAId csr' = targetCAId csr
  ∧ targetServerId csr' = targetServerId csr.
Proof. destruct 1; cbn; intros; by split_and!. Qed.

Lemma transition_origin csr csr' :
  Transition csr csr' →
  requestedBy csr' = requestedBy csr ∧ requestedAt csr' = requestedAt csr
  ∧ issuedCertificateId csr' = issuedCertificateId csr.
Proof. by destruct 1. Qed.

Lemma perform_other o st id :
  target o ≠ id →
  store (perform path_join path_resolve SCRIPTS_DIR TEMP o st) !! id = st !! id.
Proof.
  intros Hne.
  destruct (perform_cases o st) as [->|[(_ & csr & -> & _)|
    [(_ & csr & csr' & _ & _ & ->)|(_ & csr & _ & _ & ->)]]];
    by rewrite ?lookup_insert_ne, ?lookup_delete_ne.
Qed.

Lemma perform_target o st id csr :
  ¬ (isCreate o ∧ target o = id) →
  st !! id = Some csr →
  match store (perform path_join path_resolve SCRIPTS_DIR TEMP o st) !! id with
  | Some csr' => csr' = csr ∨ Transition csr csr'
  | None => status csr ≠ submitted
  end.
Proof.
  intros Ho Hid.
  destruct (decide (target o = id)) as [Heq|Hne];
    [|rewrite perform_other, Hid by done; by left].
  destruct (perform_cases o st) as [->|[(Hc & _)|
    [(_ & c & c' & Hc & Ht & ->)|(_ & c & Hc & Hs & ->)]]].
  - rewrite Hid. by left.
  - tauto.
  - rewrite Heq in *. rewrite lookup_insert_eq. right. by simplify_eq.
  - rewrite Heq in *. rewrite lookup_delete_eq. by simplify_eq.
Qed.

Lemma perform_absent o st id :
  ¬ (isCreate o ∧ target o = id) →
  st !! id = None →
  store (perform path_join path_resolve SCRIPTS_DIR TEMP o st) !! id = None.
Proof.
  intros Ho Hid.
  destruct (decide (target o = id)) as [Heq|Hne];
    [|by rewrite perform_other].
  destruct (perform_cases o st) as [->|[(Hc & _)|
    [(_ & c & c' & Hc & _)|(_ & c & Hc & _)]]]; try done; try tauto;
    rewrite Heq in Hc; congruence.
Qed.

(** Without a [createCSR] giving the identifier anew, a document that is
    still there after a sequence of requests got there by transitions. *)
Lemma run_transitions ops st id csr csr' :
  Forall (λ o, ¬ (isCreate o ∧ target o = id)) ops →
  st !! id = Some csr →
  run path_join path_resolve SCRIPTS_DIR TEMP ops st !! id = Some csr' →
  rtc Transition csr csr'.
Proof.
  intros Hops. unfold run. revert st csr.
  induction Hops as [|o ops Ho Hops IH]; intros st csr Hid Hrun.
  { cbn in Hrun. by simplify_eq. }
  cbn [foldl] in Hrun.
  pose proof (perform_target o st id csr Ho Hid) as H1.
  destruct (store (perform path_join path_resolve SCRIPTS_DIR TEMP o st) !! id)
    as [c1|] eqn:E.
  - specialize (IH _ _ E Hrun). destruct H1 as [->|H1]; [done|].
    by eapply rtc_l.
  - exfalso. clear -Hops E Hrun. revert E Hrun.
    generalize (store (perform path_join path_resolve SCRIPTS_DIR TEMP o st)).
    induction Hops as [|o' ops Ho' _ IH]; intros st' E Hrun.
    + cbn in Hrun. congruence.
    + cbn [foldl] in Hrun. eapply IH; [|exact Hrun]. by apply perform_absent.
Qed.

End TransitionFacts.
(** X9.  The workflow engine never issues: every request that create,
    update, generate, submit and delete requests can leave in an empty
    collection has the three steps "Generate CSR", "Submit to CA" and
    "Install Certificate" in this order, the last one still pending as
    [createCSR] wrote it; its status is draft, pending, submitted or
    failed, and it refers to no issued certificate. *)
Theorem engine_never_issues
    (path_join : string → string → string) (path_resolve : string → string)
    (SCRIPTS_DIR : string) (TEMP : option string)
    (ops : list CSR.Op) (id : string) (csr : CSR.CSRRequest) :
  CSR.run path_join path_resolve SCRIPTS_DIR TEMP ops ∅ !! id = Some csr →
  CSR.status csr ∈ [CSR.draft; CSR.pending; CSR.submitted; CSR.failed]
  ∧ CSR.issuedCertificateId csr = None
  ∧ ∃ s1 s2,
      CSR.workflowSteps csr
      = [s1; s2; Step.mk "Install Certificate" Step.pending None None]
      ∧ Step.step s1 = "Generate CSR" ∧ Step.step s2 = "Submit to CA".
Proof.
  intros Hid.
  refine (run_invariant path_join path_resolve SCRIPTS_DIR TEMP
            (λ csr, _ ∧ _ ∧ _) ops ∅ _ _ _ id csr Hid).
  - intros c Hs Hi (_ & _ & _ & _ & Hw). rewrite Hs, Hw.
    split; [by repeat constructor|]. split; [done|]. by eexists _, _.
  - intros c c' (Hs & Hi & s1 & s2 & Hw & H1 & H2) Ht. split_and!.
    + destruct (transition_status _ _ Ht) as [[_ ->]|[[_ ->]|[->| ->]]];
        by repeat constructor.
    + destruct (transition_origin _ _ Ht) as (_ & _ & ->). done.
    + eapply transition_steps; eauto.
  - apply map_Forall_empty.
Qed.

Lemma engine_never_issues_witness :
  ∃ csr,
    CSR.run Sample.path_join Sample.path_resolve Sample.SCRIPTS_DIR None
      Sample.regenerated ∅ !! "65a1" = Some csr
    ∧ CSR.status csr = CSR.failed
    ∧ CSR.workflowSteps csr !! 2%nat
      = Some (Step.mk "Install Certificate" Step.pending None None).
Proof.
  destruct (CSR.run Sample.path_join Sample.path_resolve Sample.SCRIPTS_DIR None
              Sample.regenerated ∅ !! "65a1") as [csr|] eqn:E;
    [|vm_compute in E; discriminate E].
  exists csr. split; [reflexivity|].
  destruct (engine_never_issues _ _ _ _ _ _ _ E) as (_ & _ & s1 & s2 & -> & _).
  split; [|reflexivity].
  vm_compute in E. by injection E as <-.
Defined.

(** X10.  What the status of a request tells, in every collection the
    engine can produce from an empty one: a draft has no CSR text, key
    location, processing date or error and its steps are as created; a
    pending request has no error and no processing date; a submitted one
    has a non-empty CSR text and a target CA; a failed one carries an error
    message; and the CSR text and the key location are set together. *)
Theorem status_tells
    (path_join : string → string → string) (path_resolve : string → string)
    (SCRIPTS_DIR : string) (TEMP : option string)
    (ops : list CSR.Op) (id : string) (csr : CSR.CSRRequest) :
  CSR.run path_join path_resolve SCRIPTS_DIR TEMP ops ∅ !! id = Some csr →
  (CSR.status csr = CSR.draft → Workflow.untouched csr)
  ∧ (CSR.status csr = CSR.pending →
     CSR.errorMessage csr = None ∧ CSR.processedAt csr = None)
  ∧ (CSR.status csr = CSR.submitted →
     JS.truthy_opt (CSR.csrPEM csr) = true ∧ is_Some (CSR.targetCAId csr))
  ∧ (CSR.status csr = CSR.failed → is_Some (CSR.errorMessage csr))
  ∧ (is_Some (CSR.csrPEM csr) ↔ is_Some (CSR.privateKeyLocation csr)).
Proof.
  intros Hid.
  refine (run_invariant path_join path_resolve SCRIPTS_DIR TEMP
            (λ csr, _ ∧ _ ∧ _ ∧ _ ∧ _) ops ∅ _ _ _ id csr Hid).
  - intros c Hs _ Hu. rewrite Hs. split_and!; try done.
    destruct Hu as (-> & -> & _). done.
  - intros c c' (Hd & Hp & Hs & Hf & Hk) Ht.
    assert (CSR.status c = CSR.draft ∨ CSR.status c = CSR.pending →
            CSR.errorMessage c = None ∧ CSR.processedAt c = None) as Hearly.
    { intros [H|H]; [|by apply Hp]. destruct (Hd H) as (_ & _ & ? & ? & _). done. }
    destruct Ht; cbn; split_and!; try done; try tauto;
      try (intros _; by apply Hearly); intros ?; congruence.
  - apply map_Forall_empty.
Qed.

Lemma status_tells_witness :
  ∃ csr,
    CSR.run Sample.path_join Sample.path_resolve Sample.SCRIPTS_DIR None
      Sample.regenerated ∅ !! "65a1" = Some csr
    ∧ CSR.status csr = CSR.failed
    ∧ is_Some (CSR.errorMessage csr).
Proof.
  destruct (CSR.run Sample.path_join Sample.path_resolve Sample.SCRIPTS_DIR None
              Sample.regenerated ∅ !! "65a1") as [csr|] eqn:E;
    [|vm_compute in E; discriminate E].
  exists csr. split; [reflexivity|].
  assert (CSR.status csr = CSR.failed) as Hs
    by (vm_compute in E; by injection E as <-).
  split; [done|].
  by apply (status_tells _ _ _ _ _ _ _ E).
Defined.

(** X11.  A request only moves forward.  As long as no [createCSR] gives
    its identifier to a new document, a request that is still in the
    collection after a sequence of requests has not gone back from pending
    to draft nor from submitted or failed to draft or pending, and it
    keeps its requester, its request date and a CSR text once it has
    one. *)
Theorem status_never_goes_back
    (path_join : string → string → string) (path_resolve : string → string)
    (SCRIPTS_DIR : string) (TEMP : option string)
    (ops : list CSR.Op) (st : gmap string CSR.CSRRequest)
    (id : string) (csr csr' : CSR.CSRRequest) :
  Forall (λ o, ¬ (Workflow.isCreate o ∧ Workflow.target o = id)) ops →
  st !! id = Some csr →
  CSR.run path_join path_resolve SCRIPTS_DIR TEMP ops st !! id = Some csr' →
  (Workflow.rank (CSR.status csr) ≤ Workflow.rank (CSR.status csr'))%nat
  ∧ CSR.requestedBy csr' = CSR.requestedBy csr
  ∧ CSR.requestedAt csr' = CSR.requestedAt csr
  ∧ (is_Some (CSR.csrPEM csr) → is_Some (CSR.csrPEM csr')).
Proof.
  intros Hops Hid Hrun.
  pose proof (run_transitions _ _ _ _ _ _ _ _ _ Hops Hid Hrun) as Hrtc.
  clear Hops Hid Hrun.
  induction Hrtc as [c|a b c Hab _ IH]; [by split_and!|].
  destruct IH as (Hr & -> & -> & Hpem).
  assert ((Workflow.rank (CSR.status a) ≤ Workflow.rank (CSR.status b))%nat
          ∧ CSR.requestedBy b = CSR.requestedBy a
          ∧ CSR.requestedAt b = CSR.requestedAt a
          ∧ (is_Some (CSR.csrPEM a) → is_Some (CSR.csrPEM b)))
    as (Hr' & -> & -> & Hpem').
  { destruct Hab as [? Hs|? Hs|??? Hs|?? Hs| | |]; cbn; split_and!; try done;
      try (by eexists); try (destruct Hs as [-> | ->]; cbn; lia);
      try (rewrite Hs; cbn; lia); destruct (CSR.status a); cbn; lia. }
  split_and!; [lia|done|done|auto].
Qed.

Lemma status_never_goes_back_witness :
  ∃ csr',
    CSR.run Sample.path_join Sample.path_resolve Sample.SCRIPTS_DIR None
      Cases.retry Cases.generatedStore !! "65a1"
    = Some csr'
    ∧ CSR.requestedBy csr' = "alice"
    ∧ is_Some (CSR.csrPEM csr').
Proof.
  destruct (CSR.run Sample.path_join Sample.path_resolve Sample.SCRIPTS_DIR None
      Cases.retry Cases.generatedStore !! "65a1")
    as [csr'|] eqn:E; [|vm_compute in E; discriminate E].
  exists csr'. split; [reflexivity|].
  destruct (status_never_goes_back Sample.path_join Sample.path_resolve
              Sample.SCRIPTS_DIR None Cases.retry Cases.generatedStore "65a1"
              (Sample.csr "SHA256" CSR.pending (Some Sample.pem)) csr')
    as (_ & Hby & _ & Hpem); [| |exact E|].
  - repeat constructor; by intros [[] _].
  - reflexivity.
  - split; [by rewrite Hby|]. apply Hpem. by eexists.
Defined.

(** X12.  A request that has left draft keeps what it asks for.  As long
    as no [createCSR] gives its identifier to a new document, a request
    that is not a draft and is still in the collection after a sequence of
    requests is not a draft then and has the same common name, alternative
    names, subject, key size, algorithms, template, target CA and target
    server. *)
Theorem frozen_after_draft
    (path_join : string → string → string) (path_resolve : string → string)
    (SCRIPTS_DIR : string) (TEMP : option string)
    (ops : list CSR.Op) (st : gmap string CSR.CSRRequest)
    (id : string) (csr csr' : CSR.CSRRequest) :
  Forall (λ o, ¬ (Workflow.isCreate o ∧ Workflow.target o = id)) ops →
  st !! id = Some csr →
  CSR.status csr ≠ CSR.draft →
  CSR.run path_join path_resolve SCRIPTS_DIR TEMP ops st !! id = Some csr' →
  CSR.status csr' ≠ CSR.draft
  ∧ CSR.commonName csr' = CSR.commonName csr
  ∧ CSR.subjectAlternativeNames csr' = CSR.subjectAlternativeNames csr
  ∧ CSR.subject csr' = CSR.subject csr
  ∧ CSR.keySize csr' = CSR.keySize csr
  ∧ CSR.keyAlgorithm csr' = CSR.keyAlgorithm csr
  ∧ CSR.hashAlgorithm csr' = CSR.hashAlgorithm csr
  ∧ CSR.templateName csr' = CSR.templateName csr
  ∧ CSR.targetCAId csr' = CSR.targetCAId csr
  ∧ CSR.targetServerId csr' = CSR.targetServerId csr.
Proof.
  intros Hops Hid Hs Hrun.
  pose proof (run_transitions _ _ _ _ _ _ _ _ _ Hops Hid Hrun) as Hrtc.
  clear Hops Hid Hrun.
  induction Hrtc as [c|a b c Hab _ IH]; [by split_and!|].
  destruct (transition_frozen _ _ Hab Hs)
    as (Hb & <- & <- & <- & <- & <- & <- & <- & <- & <-).
  by apply IH.
Qed.

Lemma frozen_after_draft_witness :
  ∃ csr',
    CSR.run Sample.path_join Sample.path_resolve Sample.SCRIPTS_DIR None
      Cases.rename Cases.generatedStore !! "65a1"
    = Some csr'
    ∧ CSR.commonName csr' = "test.example.com".
Proof.
  destruct (CSR.run Sample.path_join Sample.path_resolve Sample.SCRIPTS_DIR None
      Cases.rename Cases.generatedStore !! "65a1")
    as [csr'|] eqn:E; [|vm_compute in E; discriminate E].
  exists csr'. split; [reflexivity|].
  destruct (frozen_after_draft Sample.path_join Sample.path_resolve
              Sample.SCRIPTS_DIR None Cases.rename Cases.generatedStore "65a1"
              (Sample.csr "SHA256" CSR.pending (Some Sample.pem)) csr')
    as (_ & Hcn & _); [| | |exact E|].
  - repeat constructor; by intros [[] _].
  - reflexivity.
  - discriminate.
  - by rewrite Hcn.
Defined.

(** X13.  A request changes no document but the one it addresses: the
    documents whose identifier no request of a sequence names are after
    the sequence what they were before. *)
Theorem requests_touch_their_target
    (path_join : string → string → string) (path_resolve : string → string)
    (SCRIPTS_DIR : string) (TEMP : option string)
    (ops : list CSR.Op) (st : gmap string CSR.CSRRequest) (id : string) :
  Forall (λ o, Workflow.target o ≠ id) ops →
  CSR.run path_join path_resolve SCRIPTS_DIR TEMP ops st !! id = st !! id.
Proof.
  intros Hops. revert st. unfold CSR.run.
  induction Hops as [|o ops Ho _ IH]; intros st; [done|].
  cbn [foldl]. rewrite IH. by apply perform_other.
Qed.

Lemma requests_touch_their_target_witness :
  CSR.run Sample.path_join Sample.path_resolve Sample.SCRIPTS_DIR None
    Sample.regenerated
    {[ "77b2" := Sample.csr "SHA256" CSR.submitted (Some Sample.pem) ]} !! "77b2"
  = Some (Sample.csr "SHA256" CSR.submitted (Some Sample.pem)).
Proof.
  rewrite (requests_touch_their_target Sample.path_join Sample.path_resolve
             Sample.SCRIPTS_DIR None Sample.regenerated
             {[ "77b2" := Sample.csr "SHA256" CSR.submitted (Some Sample.pem) ]}
             "77b2").
  - reflexivity.
  - repeat constructor; discriminate.
Defined.

(** ** [generateCSR]: nothing is run before the checks *)

Section GenerationFacts.
Import JS Lang PowerShell CSR Generation.

Lemma badSubjectField_none s :
  badSubjectField s = None →
  ∀ v, Some v ∈ subjectFields s → v ≠ "" → validateSubjectField v = true.
Proof.
  unfold badSubjectField, subjectFields. intros H v Hv Hne.
  destruct (List.find _ _) as [?|] eqn:Hfind; [done|]. clear H.
  assert (∃ name, In (name, Some v)
            [("organization", organization s);
             ("organizationalUnit", organizationalUnit s);
             ("locality", locality s); ("state", state s);
             ("country", country s)]) as [name Hin].
  { rewrite !elem_of_cons, elem_of_nil in Hv.
    destruct Hv as [->|[->|[->|[->|[->|[]]]]]]; eexists; cbn; eauto 10. }
  pose proof (List.find_none _ _ Hfind _ Hin) as Hf. cbn in Hf.
  destruct v; [done|]. cbn in Hf. by apply negb_false_iff in Hf.
Qed.

Lemma sans_checked l :
  List.find (λ san, negb (validateSAN san)) l = None →
  Forall (λ san, validateSAN san = true) l.
Proof.
  intros H. apply Forall_forall. intros san Hin.
  apply list_elem_of_In in Hin.
  pose proof (List.find_none _ _ H _ Hin) as Hf. by apply negb_false_iff in Hf.
Qed.

End GenerationFacts.

(** X14.  [generateCSR] runs nothing before its checks.  If it starts a
    process, the request was a draft or pending, its common name and every
    subject field that is set pass [validateSubjectField], its hash
    algorithm and key size are listed, every alternative name passes
    [validateSAN], and the target host is [localhost] or passes
    [validateHostname].  A request that fails one of the checks on its
    fields is answered with status 400, nothing is run and the collection
    is left as it was. *)
Theorem generate_checks_first
    (path_join : string → string → string) (path_resolve : string → string)
    (SCRIPTS_DIR : string)
    (servers : gmap string string) (id : string) (now : Z)
    (e : PowerShell.ProcessEnd) (st : gmap string CSR.CSRRequest)
    (csr : CSR.CSRRequest) :
  st !! id = Some csr →
  let out := CSR.generateCSR path_join path_resolve SCRIPTS_DIR
               servers id now e st in
  (CSR.invoked out ≠ [] →
   (CSR.status csr = CSR.draft ∨ CSR.status csr = CSR.pending)
   ∧ Generation.validated csr
   ∧ (Generation.computerName servers csr = "localhost"
      ∨ PowerShell.validateHostname (Generation.computerName servers csr) = true))
  ∧ (¬ Generation.validated csr →
     CSR.code (CSR.response out) = 400
     ∧ CSR.invoked out = [] ∧ CSR.store out = st).
Proof.
  intros Hid. cbv zeta. unfold CSR.generateCSR. rewrite Hid.
  destruct (negb (bool_decide (CSR.status csr = CSR.draft))
            && negb (bool_decide (CSR.status csr = CSR.pending))) eqn:Hst;
    [by split|].
  assert (CSR.status csr = CSR.draft ∨ CSR.status csr = CSR.pending) as Hstatus.
  { apply andb_false_iff in Hst as [H|H]; apply negb_false_iff in H;
      apply bool_decide_eq_true_1 in H; auto. }
  clear Hst.
  destruct (CSR.validateSubjectField (CSR.commonName csr)) eqn:Hcn; cbn [negb];
    [|by split].
  unfold JS.has.
  case_bool_decide as Hh; cbn [negb]; [|by split].
  case_bool_decide as Hk; cbn [negb]; [|by split].
  destruct (CSR.badSubjectField (CSR.subject csr)) as [field|] eqn:Hbad;
    [by split|].
  destruct (List.find _ (CSR.subjectAlternativeNames csr)) as [san|] eqn:Hsan;
    [by split|].
  assert (Generation.validated csr) as Hv.
  { split_and!; try done; [by apply badSubjectField_none | by apply sans_checked]. }
  split; [|done]. intros Hinv. split; [done|]. split; [done|].
  unfold Generation.computerName.
  change (CSR.targetServerId (CSR.updateWorkflowStep _ _ _ _ _))
    with (CSR.targetServerId csr) in Hinv.
  destruct (String.eqb _ "localhost") eqn:Hl.
  - left. by apply String.eqb_eq.
  - right. cbn [negb andb] in Hinv.
    destruct (PowerShell.validateHostname _); [done|]. by cbn in Hinv.
Qed.

Lemma generate_checks_first_witness :
  CSR.store
    (CSR.generateCSR Sample.path_join Sample.path_resolve Sample.SCRIPTS_DIR
       ∅ "65a1" 2000 (PowerShell.Close (Some 0) Sample.pem "")
       {[ "65a1" := Sample.csr "MD5" CSR.draft None ]})
  = {[ "65a1" := Sample.csr "MD5" CSR.draft None ]}.
Proof.
  destruct (generate_checks_first Sample.path_join Sample.path_resolve
              Sample.SCRIPTS_DIR ∅ "65a1" 2000
              (PowerShell.Close (Some 0) Sample.pem "")
              {[ "65a1" := Sample.csr "MD5" CSR.draft None ]}
              (Sample.csr "MD5" CSR.draft None)) as [_ H]; [reflexivity|].
  apply H. intros (_ & Hh & _). unfold CSR.SAFE_HASH_ALGORITHMS in Hh.
  repeat (apply elem_of_cons in Hh as [Hh|Hh]; [discriminate|]).
  by apply elem_of_nil in Hh.
Defined.

(** ** The INF text *)

Section InfFacts.
Import JS Lang PowerShell CSR Generation.

Lemma every_join p sep parts :
  every p sep = true →
  Forall (λ s, every p s = true) parts →
  every p (join sep parts) = true.
Proof.
  intros Hsep. induction 1 as [|s l Hs Hl IH]; [done|].
  destruct l as [|s' l]; [done|].
  change (join sep (s :: s' :: l)) with (s +:+ sep +:+ join sep (s' :: l)).
  by rewrite !every_append, Hs, Hsep, IH.
Qed.

Lemma every_trim p s : every p s = true → every p (trim s) = true.
Proof.
  unfold trim. intros Hs.
  assert (every p (trim_start s) = true) as Hs'.
  { induction s as [|c s IH]; [done|]. simpl.
    destruct (is_space c); [|done].
    apply andb_true_iff in Hs as [_ Hs]. auto. }
  clear Hs. induction (trim_start s) as [|c t IH]; [done|].
  apply andb_true_iff in Hs' as [Hc Ht]. specialize (IH Ht). simpl.
  destruct (trim_end t).
  - destruct (is_space c); [done|]. simpl. by rewrite Hc.
  - cbn [every] in *. by rewrite Hc, IH.
Qed.

Lemma every_pretty_N_go p x s :
  (∀ d, p (pretty_N_char d) = true) →
  every p s = true → every p (pretty_N_go x s) = true.
Proof.
  intros Hd. revert s. induction (N.lt_wf_0 x) as [x _ IH]; intros s Hs.
  destruct (decide (x = 0)%N) as [->|]; [by rewrite pretty_N_go_0|].
  rewrite pretty_N_go_step by lia. apply IH; [apply N.div_lt; lia|].
  simpl. by rewrite Hd.
Qed.

Lemma every_pretty_Z p (z : Z) :
  (∀ d, p (pretty_N_char d) = true) → p "-"%char = true →
  every p (pretty z) = true.
Proof.
  intros Hd Hm.
  assert (∀ n : N, every p (pretty n) = true) as HN.
  { intros n. unfold pretty, pretty_N. case_decide.
    - pose proof (Hd 0%N) as H0. cbn in H0 |- *. by rewrite H0.
    - by apply every_pretty_N_go. }
  destruct z as [|x|x]; unfold pretty, pretty_Z.
  - pose proof (Hd 0%N) as H0. cbn in H0 |- *. by rewrite H0.
  - apply HN.
  - rewrite every_append. simpl. rewrite Hm. apply HN.
Qed.

Lemma every_replace p (f : ascii → ascii) s :
  (∀ c, p c = true → p (f c) = true) →
  every p s = true →
  every p (string_of_list_ascii (f <$> list_ascii_of_string s)) = true.
Proof.
  intros Hf. induction s as [|c s IH]; [done|].
  cbn [every]. intros [Hc Hs]%andb_true_iff.
  change (p (f c) && every p (string_of_list_ascii (f <$> list_ascii_of_string s))
          = true).
  by rewrite (Hf _ Hc), IH.
Qed.

Lemma every_imap p (f : nat → string → string) l :
  (∀ i x, every p x = true → every p (f i x) = true) →
  Forall (λ s, every p s = true) l →
  Forall (λ s, every p s = true) (imap f l).
Proof.
  intros Hf Hl. revert f Hf.
  induction Hl as [|x l Hx _ IH]; intros f Hf; [constructor|].
  rewrite imap_cons. constructor; [by apply Hf|].
  apply IH. intros i y. apply Hf.
Qed.

(** The characters of a validated subject field or alternative name. *)
Lemma subject_field_class p v :
  (∀ c, alnum c || one_of " .,_@()-" c = true → p c = true) →
  validateSubjectField v = true → every p v = true.
Proof.
  intros Hp H. apply validate_plus_cls in H as (_ & _ & H).
  exact (every_weaken _ _ _ Hp H).
Qed.

Lemma san_class p v :
  (∀ c, alnum c || one_of ".*@_-" c = true → p c = true) →
  validateSAN v = true → every p v = true.
Proof.
  intros Hp H. unfold validateSAN in H. apply andb_true_iff in H as [H _].
  apply san_regex_class in H as [_ H]. exact (every_weaken _ _ _ Hp H).
Qed.

Lemma subject_line_class p csr :
  (∀ c, alnum c || one_of " .,_@()-=" c = true → p c = true) →
  validated csr → every p (buildSubjectLine csr) = true.
Proof.
  intros Hp (Hcn & _ & _ & Hsub & _).
  assert (∀ c, alnum c || one_of " .,_@()-" c = true → p c = true) as Hp'.
  { intros c Hc. apply Hp. apply orb_true_iff in Hc as [->|Hc]; [done|].
    apply orb_true_iff. right. cbn [one_of] in *.
    repeat (apply orb_true_iff in Hc as [->|Hc]; [by rewrite ?orb_true_r|]).
    done. }
  assert (∀ tag o,
            every p tag = true → o ∈ subjectFields (subject csr) →
            Forall (λ s, every p s = true)
              (if truthy_opt o then [tag +:+ default "" o] else [])) as Hpart.
  { intros tag [v|] Htag Ho; [|constructor]. cbn [truthy_opt default from_option id].
    destruct (truthy v) eqn:Hv; constructor; [|constructor].
    rewrite every_append, Htag. apply (subject_field_class p v Hp').
    apply Hsub; [done|]. by destruct v. }
  unfold buildSubjectLine. apply every_join.
  { apply (every_weaken _ _ _ Hp). reflexivity. }
  assert (∀ s, every (λ c, alnum c || one_of " .,_@()-=" c) s = true →
               every p s = true) as Hlit
    by (intros s; apply every_weaken, Hp).
  unfold subjectFields in Hpart.
  repeat apply Forall_app_2.
  - constructor; [|constructor]. rewrite every_append, (Hlit "CN=" eq_refl).
    by apply subject_field_class.
  - apply Hpart; [by apply Hlit|]. rewrite !elem_of_cons; auto.
  - apply Hpart; [by apply Hlit|]. rewrite !elem_of_cons; auto.
  - apply Hpart; [by apply Hlit|]. rewrite !elem_of_cons; auto.
  - apply Hpart; [by apply Hlit|]. rewrite !elem_of_cons; auto.
  - apply Hpart; [by apply Hlit|]. rewrite !elem_of_cons; auto 10.
Qed.

Lemma unquoted_class (cls : ascii → bool) :
  cls squote = false →
  ∀ c, cls c = true → negb (is_char squote c) = true.
Proof.
  intros Hq c Hc. destruct (is_char squote c) eqn:E; [|done].
  apply is_char_squote in E as ->. congruence.
Qed.

Lemma inf_unquoted csr :
  validated csr →
  every (λ c, negb (is_char squote c)) (infContent csr) = true.
Proof.
  intros Hv.
  pose proof (subject_line_class _ csr
                (unquoted_class (λ c, alnum c || one_of " .,_@()-=" c) eq_refl) Hv)
    as Hsubj.
  destruct Hv as (_ & Hhash & Hkey & _ & Hsans).
  assert (every (λ c, negb (is_char squote c)) (hashAlgorithm csr) = true) as Hh.
  { unfold SAFE_HASH_ALGORITHMS in Hhash.
    repeat (apply elem_of_cons in Hhash as [->|Hhash]; [reflexivity|]).
    by apply elem_of_nil in Hhash. }
  assert (∀ z : Z, every (λ c, negb (is_char squote c)) (pretty z) = true) as Hz.
  { intros z. apply every_pretty_Z; [|done].
    intros d. unfold pretty_N_char. by repeat case_match. }
  assert (Forall (λ s, every (λ c, negb (is_char squote c)) s = true)
            (imap (λ i san, "DNS." +:+ pretty (Z.of_nat i + 1) +:+ "=" +:+ san)
                  (subjectAlternativeNames csr))) as Hdns.
  { apply every_imap.
    - intros i x Hx. by rewrite !every_append, Hz, Hx.
    - eapply Forall_impl; [exact Hsans|]. intros san Hsan.
      apply (san_class _ san
               (unquoted_class (λ c, alnum c || one_of ".*@_-" c) eq_refl) Hsan). }
  pose proof (every_join (λ c, negb (is_char squote c)) NL _ eq_refl Hdns)
    as Hjoin.
  unfold infContent. apply every_trim. unfold lines at 1. apply every_join; [done|].
  repeat (apply Forall_cons_2); try apply Forall_nil_2;
    rewrite ?every_append, ?Hsubj, ?Hz, ?Hh; try reflexivity.
  destruct (truthy _); [|done].
  unfold lines. apply every_join; [done|].
  repeat (apply Forall_cons_2); try apply Forall_nil_2; try reflexivity.
  assert (∀ c, negb (is_char squote c) = true →
               negb (is_char squote (if is_char newline c then "&"%char else c))
               = true) as Hamp
    by (intros c Hc; by destruct (is_char newline c)).
  rewrite !every_append.
  by rewrite (every_replace (λ c, negb (is_char squote c)) _ _ Hamp Hjoin).
Qed.

End InfFacts.

(** X15.  The values of a request that passed the checks of [generateCSR]
    cannot leave the places the INF text and the script give them: the
    subject line is made of characters of [a-zA-Z0-9 .,_@()=-] only, so it
    stays inside its double quotes, and the INF text holds no single
    quote, so it stays inside the here-string that carries it. *)
Theorem inf_text_contained (csr : CSR.CSRRequest) :
  Generation.validated csr →
  Lang.every (λ c, JS.alnum c || JS.one_of " .,_@()-=" c)
    (CSR.buildSubjectLine csr) = true
  ∧ Lang.every (λ c, negb (JS.is_char JS.squote c)) (CSR.infContent csr) = true.
Proof.
  intros Hv. split; [|by apply inf_unquoted].
  by apply subject_line_class.
Qed.

Lemma inf_text_contained_witness :
  CSR.buildSubjectLine Cases.named = "CN=www.example.com, O=Example, Inc., C=US"
  ∧ Lang.every (λ c, negb (JS.is_char JS.squote c)) (CSR.infContent Cases.named)
    = true.
Proof.
  split; [reflexivity|].
  apply (inf_text_contained Cases.named).
  split_and!.
  - reflexivity.
  - unfold CSR.SAFE_HASH_ALGORITHMS. cbn. rewrite !elem_of_cons. auto.
  - unfold CSR.VALID_KEY_SIZES. cbn. rewrite !elem_of_cons. auto.
  - intros v Hv _. unfold Generation.subjectFields in Hv. cbn in Hv.
    rewrite !elem_of_cons, elem_of_nil in Hv.
    destruct Hv as [[= ->]|[?|[?|[?|[[= ->]|[]]]]]]; try discriminate;
      reflexivity.
  - by repeat constructor.
Defined.
(** ** The reconciler and the queries *)

Section QueryFacts.
Import Certificate CertificateService CertificateQueries.

Lemma modified_once now c :
  let f1 := λ c, negb (JS.has [Certificate.expired; Certificate.revoked] (status c))
                 && (validTo c <? now) in
  let f2 := λ c, bool_decide (status c = Certificate.active)
                 && (now <=? validTo c) && (validTo c <=? now + days_ms 30) in
  let f3 := λ c, bool_decide (status c = Certificate.expiring)
                 && (now + days_ms 30 <? validTo c) in
  let c1 := apply_set f1 Certificate.expired c in
  let c2 := apply_set f2 Certificate.expiring c1 in
  ((if f1 c && negb (bool_decide (status c = Certificate.expired)) then 1 else 0)
   + (if f2 c1 && negb (bool_decide (status c1 = Certificate.expiring)) then 1 else 0)
   + (if f3 c2 && negb (bool_decide (status c2 = Certificate.active)) then 1 else 0))%nat
  = if bool_decide (status c = status (reconcile now c)) then 0%nat else 1%nat.
Proof.
  cbv zeta. unfold reconcile, apply_set. rewrite !has_expired_revoked.
  assert (0 < days_ms 30) as Hpos by (unfold days_ms; lia).
  generalize dependent (days_ms 30). intros lim Hpos.
  destruct c as [sn tp cn icn vf vt st dep ns]. cbn [status validTo].
  destruct st;
    destruct (vt <? now) eqn:E1, (now <=? vt) eqn:E2,
             (vt <=? now + lim) eqn:E3, (now + lim <? vt) eqn:E4;
    decide_statuses; rewrite ?E1, ?E2, ?E3, ?E4; decide_statuses;
    rewrite ?E1, ?E2, ?E3, ?E4; decide_statuses;
    try reflexivity; exfalso; order_facts; lia.
Qed.

Lemma filter_length_sum {A} (f : A → bool) (l : list A) :
  List.length (List.filter f l)
  = foldr (λ x n, ((if f x then 1 else 0) + n)%nat) 0%nat l.
Proof.
  induction l as [|x l IH]; [done|]. simpl.
  destruct (f x); simpl; by rewrite IH.
Qed.

Lemma reconcile_status_only now c :
  reconcile now c = set_status (status (reconcile now c)) c.
Proof.
  rewrite reconcile_cases. destruct c as [sn tp cn icn vf vt st dep ns].
  cbn [status validTo]. by repeat case_match.
Qed.

Lemma count_changes now certs :
  (updateCertificateStatuses now certs).2
  = Z.of_nat (List.length
      (List.filter (λ c, negb (bool_decide (status c = status (reconcile now c))))
                   certs)).
Proof.
  unfold updateCertificateStatuses. cbn [snd].
  rewrite !updateMany_fst. unfold updateMany. cbn [snd].
  rewrite <- !Nat2Z.inj_add. f_equal.
  rewrite !filter_length_sum.
  induction certs as [|c certs IH]; [done|].
  rewrite !fmap_cons. cbn [foldr].
  pose proof (modified_once now c) as Hc. cbv zeta in Hc.
  destruct (bool_decide (status c = status (reconcile now c))); cbn [negb];
    lia.
Qed.

Lemma filter_zip_fmap {A B} (g : A * B → bool) (f : A → B) (l : list A) :
  List.filter g (zip l (f <$> l))
  = (λ x, (x, f x)) <$> List.filter (λ x, g (x, f x)) l.
Proof.
  induction l as [|x l IH]; [done|].
  rewrite fmap_cons. cbn [zip zip_with List.filter].
  destruct (g (x, f x)); by rewrite ?fmap_cons, IH.
Qed.

End QueryFacts.

(** X16.  The number [updateCertificateStatuses] returns is the number of
    documents whose status the run changed, none being counted twice, and
    a run changes nothing of a document but its status. *)
Theorem reconcile_counts_changes (now : Z) (certs : list Certificate.t) :
  let after := (CertificateService.updateCertificateStatuses now certs).1 in
  (CertificateService.updateCertificateStatuses now certs).2
  = Z.of_nat (List.length
      (List.filter
         (λ p, negb (bool_decide (Certificate.status p.1 = Certificate.status p.2)))
         (zip certs after)))
  ∧ Forall2 (λ c c', c' = Certificate.set_status (Certificate.status c') c)
      certs after.
Proof.
  cbv zeta. rewrite count_changes, updateCertificateStatuses_fst. split.
  - by rewrite filter_zip_fmap, length_fmap.
  - apply Forall2_fmap_r, Forall_Forall2_diag, Forall_forall.
    intros c _. apply reconcile_status_only.
Qed.

(** X17.  What one run makes of a document.  An expired or revoked
    document is left as it is, whatever its dates; an active or expiring
    one gets the status its validTo calls for at the time of the run:
    expired before [now], expiring up to 30 days later (bounds included),
    active beyond. *)
Theorem reconcile_classifies (now : Z) (certs : list Certificate.t)
    (i : nat) (c : Certificate.t) :
  certs !! i = Some c →
  ∃ c', (CertificateService.updateCertificateStatuses now certs).1 !! i = Some c'
    ∧ (Certificate.status c = Certificate.expired
       ∨ Certificate.status c = Certificate.revoked → c' = c)
    ∧ (Certificate.status c = Certificate.active
       ∨ Certificate.status c = Certificate.expiring →
       Certificate.status c'
       = if Certificate.validTo c <? now then Certificate.expired
         else if Certificate.validTo c <=? now + CertificateService.days_ms 30
              then Certificate.expiring
              else Certificate.active).
Proof.
  intros Hi. eexists. split; [by apply updateCertificateStatuses_lookup|].
  rewrite reconcile_cases. split.
  - by intros [-> | ->].
  - intros [Hs|Hs]; rewrite Hs;
      destruct (Certificate.validTo c <? now) eqn:E1; [done| |done|].
    + by destruct (Certificate.validTo c <=? _).
    + destruct (Certificate.validTo c <=? _) eqn:E2,
               (now + CertificateService.days_ms 30 <? Certificate.validTo c) eqn:E3;
        try done; exfalso; order_facts; lia.
Qed.

Lemma reconcile_classifies_witness :
  ∃ c',
    (CertificateService.updateCertificateStatuses 5000
       [Sample.cert Certificate.expired 9000 []]).1 !! 0%nat = Some c'
    ∧ c' = Sample.cert Certificate.expired 9000 [].
Proof.
  destruct (reconcile_classifies 5000 [Sample.cert Certificate.expired 9000 []]
              0 (Sample.cert Certificate.expired 9000 []) eq_refl)
    as (c' & Hc' & Hkeep & _).
  exists c'. split; [exact Hc'|]. apply Hkeep. by left.
Defined.

(** X18.  Expired is sticky as well: however many times the reconciliation
    runs, and whenever, a document marked expired is left as it was, also
    when its validTo lies in the future of every run. *)
Theorem expired_sticky (nows : list Z) (certs : list Certificate.t)
    (i : nat) (c : Certificate.t) :
  certs !! i = Some c →
  Certificate.status c = Certificate.expired →
  CertificateService.reconcileRuns nows certs !! i = Some c.
Proof.
  intros Hi Hs. revert certs Hi.
  unfold CertificateService.reconcileRuns.
  induction nows as [|now nows IH]; intros certs Hi; [done|].
  cbn [foldl]. apply IH.
  rewrite (updateCertificateStatuses_lookup _ _ _ _ Hi), reconcile_cases.
  by rewrite Hs.
Qed.

Lemma expired_sticky_witness :
  CertificateService.reconcileRuns [0; 5000]
    [Sample.cert Certificate.expired (CertificateService.days_ms 400) []] !! 0%nat
  = Some (Sample.cert Certificate.expired (CertificateService.days_ms 400) []).
Proof.
  apply (expired_sticky [0; 5000]
           [Sample.cert Certificate.expired (CertificateService.days_ms 400) []] 0
           (Sample.cert Certificate.expired (CertificateService.days_ms 400) []));
    reflexivity.
Defined.

Section StatsFacts.
Import Certificate CertificateService CertificateQueries.

Lemma count_sum (f : Certificate.t → bool) certs :
  countDocuments f certs
  = foldr (λ c n, (if f c then 1 else 0) + n) 0 certs.
Proof.
  unfold countDocuments. induction certs as [|c certs IH]; [done|].
  cbn [List.filter foldr]. destruct (f c); cbn [List.length]; lia.
Qed.

Lemma count_le (f g : Certificate.t → bool) certs :
  (∀ c, f c = true → g c = true) →
  0 ≤ countDocuments f certs ≤ countDocuments g certs.
Proof.
  intros Hfg. rewrite !count_sum.
  induction certs as [|c certs IH]; [done|]. cbn [foldr].
  specialize (Hfg c). destruct (f c), (g c); try lia; by specialize (Hfg eq_refl).
Qed.

Lemma count_ext (f g : Certificate.t → bool) certs :
  Forall (λ c, f c = g c) certs →
  countDocuments f certs = countDocuments g certs.
Proof.
  intros H. rewrite !count_sum.
  induction H as [|c certs Hc _ IH]; [done|]. cbn [foldr]. by rewrite Hc, IH.
Qed.

Lemma count_fmap (f : Certificate.t → bool) (h : Certificate.t → Certificate.t) certs :
  countDocuments f (h <$> certs) = countDocuments (f ∘ h) certs.
Proof.
  rewrite !count_sum. induction certs as [|c certs IH]; [done|].
  rewrite fmap_cons. cbn [foldr]. by rewrite IH.
Qed.

End StatsFacts.

(** X19.  The figures of [getCertificateStats] fit together: the four
    status counts add up to the total, the certificates expiring within 7
    days are among those expiring within 30 days, and these are among the
    active and expiring ones. *)
Theorem stats_add_up (now : Z) (certs : list Certificate.t) :
  let s := CertificateQueries.getCertificateStats now certs in
  CertificateQueries.total s
  = CertificateQueries.active s + CertificateQueries.expiring s
    + CertificateQueries.expired s + CertificateQueries.revoked s
  ∧ 0 ≤ CertificateQueries.expiringIn7Days s
      ≤ CertificateQueries.expiringIn30Days s
  ∧ CertificateQueries.expiringIn30Days s
    ≤ CertificateQueries.active s + CertificateQueries.expiring s.
Proof.
  cbv zeta. unfold CertificateQueries.getCertificateStats.
  cbn [CertificateQueries.total CertificateQueries.active
       CertificateQueries.expiring CertificateQueries.expired
       CertificateQueries.revoked CertificateQueries.expiringIn30Days
       CertificateQueries.expiringIn7Days].
  split; [|split].
  - rewrite !count_sum. induction certs as [|c certs IH]; [done|].
    cbn [foldr]. destruct (Certificate.status c); decide_statuses; lia.
  - apply count_le. intros c.
    rewrite !andb_true_iff, !Z.leb_le. intros [[? ?] ?]. split_and!; [done|done|lia].
  - rewrite !count_sum. induction certs as [|c certs IH]; [done|].
    cbn [foldr]. rewrite has_expired_revoked.
    destruct (Certificate.status c); decide_statuses;
      repeat case_match; lia.
Qed.

(** X20.  Right after a reconciliation the statuses agree with the dates:
    at the instant of the run, the number of expiring certificates that
    [getCertificateStats] reports is the number it reports as expiring
    within 30 days, the active ones all expire later than that, and the
    run has not changed the number of revoked ones. *)
Theorem stats_after_reconcile (now : Z) (certs : list Certificate.t) :
  let after := (CertificateService.updateCertificateStatuses now certs).1 in
  let s := CertificateQueries.getCertificateStats now after in
  CertificateQueries.expiring s = CertificateQueries.expiringIn30Days s
  ∧ CertificateQueries.active s
    = CertificateQueries.countDocuments
        (λ c, negb (JS.has [Certificate.expired; Certificate.revoked]
                      (Certificate.status c))
              && (now + CertificateService.days_ms 30 <? Certificate.validTo c))
        after
  ∧ CertificateQueries.revoked s
    = CertificateQueries.revoked (CertificateQueries.getCertificateStats now certs).
Proof.
  cbv zeta. unfold CertificateQueries.getCertificateStats.
  cbn [CertificateQueries.active CertificateQueries.expiring
       CertificateQueries.revoked CertificateQueries.expiringIn30Days].
  rewrite updateCertificateStatuses_fst, !count_fmap.
  assert (∀ c, let c' := CertificateService.reconcile now c in
            (bool_decide (Certificate.status c' = Certificate.expiring)
             = negb (JS.has [Certificate.expired; Certificate.revoked]
                       (Certificate.status c'))
               && (now <=? Certificate.validTo c')
               && (Certificate.validTo c' <=? now + 30 * 24 * 60 * 60 * 1000))
            ∧ (bool_decide (Certificate.status c' = Certificate.active)
               = negb (JS.has [Certificate.expired; Certificate.revoked]
                         (Certificate.status c'))
                 && (now + CertificateService.days_ms 30 <? Certificate.validTo c'))
            ∧ bool_decide (Certificate.status c' = Certificate.revoked)
              = bool_decide (Certificate.status c = Certificate.revoked)) as Hdoc.
  { intros c. cbv zeta. rewrite reconcile_cases, !has_expired_revoked.
    change (30 * 24 * 60 * 60 * 1000) with (CertificateService.days_ms 30).
    assert (0 < CertificateService.days_ms 30) as Hpos
      by (unfold CertificateService.days_ms; lia).
    generalize dependent (CertificateService.days_ms 30). intros lim Hpos.
    destruct c as [sn tp cn icn vf vt st dep ns].
    cbn [Certificate.status Certificate.validTo].
    destruct st;
      destruct (vt <? now) eqn:E1, (now <=? vt) eqn:E2,
               (vt <=? now + lim) eqn:E3, (now + lim <? vt) eqn:E4;
      decide_statuses; rewrite ?E1, ?E2, ?E3, ?E4; decide_statuses;
      try done; exfalso; order_facts; lia. }
  split_and!; apply count_ext, Forall_forall; intros c _; apply Hdoc.
Qed.

(** X21.  [getExpiringCertificates] returns, soonest first, exactly the
    documents that are neither expired nor revoked and whose validTo lies
    between [now] and [now] + [days] days, bounds included; [days] is 30
    when it is left out. *)
Theorem expiring_query (days : option Z) (now : Z) (certs : list Certificate.t) :
  let found := CertificateQueries.getExpiringCertificates days now certs in
  Sorted CertificateQueries.byValidTo found
  ∧ (∀ c, c ∈ found ↔
          c ∈ certs
          ∧ Certificate.status c ≠ Certificate.expired
          ∧ Certificate.status c ≠ Certificate.revoked
          ∧ now ≤ Certificate.validTo c
              ≤ now + CertificateService.days_ms (default 30 days))
  ∧ (List.length found ≤ List.length certs)%nat.
Proof.
  cbv zeta. unfold CertificateQueries.getExpiringCertificates.
  assert (Total CertificateQueries.byValidTo) as Htot.
  { intros a b. unfold CertificateQueries.byValidTo. lia. }
  split_and!.
  - by apply Sorted_merge_sort.
  - intros c. rewrite merge_sort_Permutation, list_elem_of_In, List.filter_In,
      <- list_elem_of_In, !andb_true_iff, !Z.leb_le, has_expired_revoked.
    unfold CertificateService.days_ms.
    destruct (Certificate.status c); cbn [negb]; split; intros H;
      destruct_and?; split_and?; try done; lia.
  - rewrite merge_sort_Permutation. apply List.filter_length_le.
Qed.
(** ** The dispatcher: recipients and records *)

Section RecipientFacts.
Import Certificate NotificationService.

Lemma add_NoDup x l : NoDup l → NoDup (add x l).
Proof.
  intros Hl. unfold add. case_bool_decide as Hx; [done|].
  apply NoDup_app. split_and!; [done| |apply NoDup_singleton].
  intros y Hy ->%list_elem_of_singleton. done.
Qed.

Lemma add_elem x y l : y ∈ add x l ↔ y ∈ l ∨ y = x.
Proof.
  unfold add. case_bool_decide as Hx.
  - split; [auto|]. by intros [?| ->].
  - by rewrite elem_of_app, list_elem_of_singleton.
Qed.

(** [users.forEach(u => { if (u.email) emails.add(u.email) })] *)
Lemma addAll_NoDup (us : list User) emails :
  NoDup emails →
  NoDup (foldl (λ emails u, if JS.truthy (email u) then add (email u) emails
                            else emails) emails us).
Proof.
  revert emails. induction us as [|u us IH]; intros emails H; [done|].
  cbn [foldl]. apply IH. destruct (JS.truthy (email u)); [by apply add_NoDup|done].
Qed.

Lemma truthy_iff (s : string) : JS.truthy s = true ↔ s ≠ "".
Proof. by destruct s. Qed.

Lemma addAll_elem (us : list User) emails x :
  x ∈ foldl (λ emails u, if JS.truthy (email u) then add (email u) emails
                         else emails) emails us
  ↔ x ∈ emails ∨ ∃ u, u ∈ us ∧ x = email u ∧ x ≠ "".
Proof.
  revert emails. induction us as [|u us IH]; intros emails; cbn [foldl].
  - split; [auto|]. intros [?|(u & Hu & _)]; [done|]. by apply elem_of_nil in Hu.
  - rewrite IH. destruct (JS.truthy (email u)) eqn:Hu.
    + rewrite add_elem. apply truthy_iff in Hu. split.
      * intros [[?| ->]|(u' & ? & ? & ?)]; [by left| |].
        -- right. exists u. split_and!; [by left|done|done].
        -- right. exists u'. split_and!; [by right|done|done].
      * intros [?|(u' & [->|?]%elem_of_cons & -> & ?)];
          [by left; left|by left; right|]. right. by exists u'.
    + split.
      * intros [?|(u' & ? & ? & ?)]; [by left|].
        right. exists u'. split_and!; [by right|done|done].
      * intros [?|(u' & [->|?]%elem_of_cons & -> & Hne)]; [by left| |].
        -- apply truthy_iff in Hne. congruence.
        -- right. by exists u'.
Qed.

End RecipientFacts.

(** X22.  [resolveRecipients] returns every address once.  An address is
    returned exactly when it is the value of an [email] recipient, or the
    non-empty email of the user a [user] recipient names, or the non-empty
    email of a user holding the role a [role] recipient names. *)
Theorem recipients_resolved
    (users : list NotificationService.User)
    (rs : list NotificationService.Recipient) :
  NoDup (NotificationService.resolveRecipients users rs)
  ∧ ∀ x, x ∈ NotificationService.resolveRecipients users rs ↔
      ∃ r, r ∈ rs ∧
        ((NotificationService.r_type r = "email"
          ∧ x = NotificationService.value r)
         ∨ (NotificationService.r_type r = "user"
            ∧ ∃ u, List.find (λ u, String.eqb (NotificationService.username u)
                                     (NotificationService.value r)) users = Some u
                   ∧ x = NotificationService.email u ∧ x ≠ "")
         ∨ (NotificationService.r_type r = "role"
            ∧ ∃ u, u ∈ users
                   ∧ NotificationService.value r ∈ NotificationService.roles u
                   ∧ x = NotificationService.email u ∧ x ≠ "")).
Proof.
  unfold NotificationService.resolveRecipients.
  set (step := λ (emails : list string) (r : NotificationService.Recipient), _).
  set (gives := λ (r : NotificationService.Recipient) (x : string),
         (NotificationService.r_type r = "email" ∧ x = NotificationService.value r)
         ∨ (NotificationService.r_type r = "user"
            ∧ ∃ u, List.find (λ u, String.eqb (NotificationService.username u)
                                     (NotificationService.value r)) users = Some u
                   ∧ x = NotificationService.email u ∧ x ≠ "")
         ∨ (NotificationService.r_type r = "role"
            ∧ ∃ u, u ∈ users
                   ∧ NotificationService.value r ∈ NotificationService.roles u
                   ∧ x = NotificationService.email u ∧ x ≠ "")).
  assert (∀ emails r, NoDup emails → NoDup (step emails r)) as Hnodup.
  { intros emails r H. unfold step. repeat case_match;
      auto using add_NoDup, addAll_NoDup. }
  assert (∀ emails r x, x ∈ step emails r ↔ x ∈ emails ∨ gives r x) as Hstep.
  { intros emails r x. unfold step, gives.
    destruct (String.eqb_spec (NotificationService.r_type r) "email") as [He|He].
    { rewrite add_elem, He. split; [intros [?|?]; auto|].
      intros [?|[[_ ?]|[[? _]|[? _]]]]; auto; discriminate. }
    destruct (String.eqb_spec (NotificationService.r_type r) "user") as [Hu|Hu].
    { rewrite Hu. destruct (List.find _ users) as [u|] eqn:Hfind.
      - destruct (JS.truthy (NotificationService.email u)) eqn:Ht.
        + rewrite add_elem. apply truthy_iff in Ht. split.
          * intros [?| ->]; [by left|]. right; right; left. split; [done|].
            by exists u.
          * intros [?|[[? _]|[[_ (u' & [= <-] & -> & _)]|[? _]]]];
              auto; discriminate.
        + split; [auto|].
          intros [?|[[? _]|[[_ (u' & [= <-] & -> & Hne)]|[? _]]]];
            auto; try discriminate.
          apply truthy_iff in Hne. congruence.
      - split; [auto|].
        intros [?|[[? _]|[[_ (u' & ? & _)]|[? _]]]]; auto; discriminate. }
    destruct (String.eqb_spec (NotificationService.r_type r) "role") as [Hr|Hr].
    { rewrite addAll_elem. split.
      - intros [?|(u & Hu' & -> & Hne)]; [by left|]. right; right; right.
        split; [done|]. exists u.
        apply list_elem_of_In, List.filter_In in Hu' as [Hin Hrole].
        apply bool_decide_eq_true_1 in Hrole.
        split_and!; [by apply list_elem_of_In|done|done|done].
      - intros [?|[[? _]|[[? _]|[_ (u & Hin & Hrole & -> & Hne)]]]];
          [by left|congruence|congruence|].
        right. exists u. split_and!; [|done|done].
        apply list_elem_of_In, List.filter_In. split; [by apply list_elem_of_In|].
        by apply bool_decide_eq_true_2. }
    split; [auto|]. intros [?|[[? _]|[[? _]|[? _]]]]; [done|done..]. }
  clearbody step.
  assert (∀ emails, NoDup emails →
            NoDup (foldl step emails rs)
            ∧ ∀ x, x ∈ foldl step emails rs ↔
                   x ∈ emails ∨ ∃ r, r ∈ rs ∧ gives r x) as Hall.
  { induction rs as [|r rs IH]; intros emails Hnd; cbn [foldl].
    - split; [done|]. intros x. split; [auto|].
      intros [?|(r & Hr & _)]; [done|]. by apply elem_of_nil in Hr.
    - destruct (IH (step emails r) (Hnodup _ _ Hnd)) as [H1 H2].
      split; [done|]. intros x. rewrite H2, Hstep. split.
      + intros [[?|?]|(r' & ? & ?)]; [by left| |].
        * right. exists r. split; [by left|done].
        * right. exists r'. split; [by right|done].
      + intros [?|(r' & [->|?]%elem_of_cons & ?)];
          [by left; left|by left; right|]. right. by exists r'. }
  destruct (Hall [] (NoDup_nil_2 (A:=string))) as [H1 H2]. split; [done|].
  intros x. rewrite H2. split; [|auto].
  intros [Hx|?]; [|done]. by apply elem_of_nil in Hx.
Qed.

Section RecordFacts.
Import Certificate NotificationService.
Variables (w : World) (rcpts : list string).

(** The records of a collection. *)
Lemma notify_appends k d i c :
  ∃ new,
    (notify w rcpts k d i c).1
    = mk (serialNumber c) (thumbprint c) (commonName c) (issuerCommonName c)
         (validFrom c) (validTo c) (status c) (deployedTo c)
         (notificationsSent c ++ new)%list
    ∧ List.length new = List.length (List.filter is_delivered (notify w rcpts k d i c).2)
    ∧ Forall (λ n, type n = typeOf d ∧ Certificate.recipients n = rcpts) new.
Proof.
  unfold notify.
  repeat case_match; cbn [fst snd];
    try (exists []; rewrite app_nil_r; by destruct c).
  eexists [_]. split_and!; [done|done|]. by repeat constructor.
Qed.

Lemma track_appends i k ds c :
  ∃ new,
    (track w rcpts i k ds c).1
    = mk (serialNumber c) (thumbprint c) (commonName c) (issuerCommonName c)
         (validFrom c) (validTo c) (status c) (deployedTo c)
         (notificationsSent c ++ new)%list
    ∧ List.length new = List.length (List.filter is_delivered (track w rcpts i k ds c).2)
    ∧ Forall (λ n, (∃ d, d ∈ ds ∧ type n = typeOf d) ∧ Certificate.recipients n = rcpts) new.
Proof.
  revert k c. induction ds as [|d ds IH]; intros k c.
  - exists []. rewrite app_nil_r. by destruct c.
  - cbn [track fst snd].
    destruct (notify_appends k d i c) as (n1 & E1 & L1 & F1).
    destruct (IH (S k) (notify w rcpts k d i c).1) as (n2 & E2 & L2 & F2).
    exists (n1 ++ n2)%list. split_and!.
    + rewrite E2, E1. cbn. by rewrite app_assoc.
    + rewrite List.filter_app, !length_app. lia.
    + apply Forall_app. split.
      * eapply Forall_impl; [exact F1|]. intros n [? ?]. split; [|done].
        exists d. split; [by left|done].
      * eapply Forall_impl; [exact F2|]. intros n [(d' & ? & ?) ?]. split; [|done].
        exists d'. split; [by right|done].
Qed.


Lemma notify_total k d i c :
  List.length (notificationsSent (notify w rcpts k d i c).1)
  = (List.length (notificationsSent c)
     + List.length (List.filter is_delivered (notify w rcpts k d i c).2))%nat.
Proof.
  destruct (notify_appends k d i c) as (new & -> & <- & _).
  cbn. by rewrite length_app.
Qed.

Lemma sweep_total k d i certs :
  List.length (sweep w rcpts k d i certs).1 = List.length certs
  ∧ sum_list ((λ c, List.length (notificationsSent c)) <$> (sweep w rcpts k d i certs).1)
    = (sum_list ((λ c, List.length (notificationsSent c)) <$> certs)
       + List.length (List.filter is_delivered (sweep w rcpts k d i certs).2))%nat.
Proof.
  revert i. induction certs as [|c certs IH]; intros i; [done|].
  cbn [sweep fst snd]. destruct (IH (S i)) as [IH1 IH2].
  rewrite !fmap_cons. cbn [sum_list sum_list_with List.length].
  rewrite List.filter_app, length_app, IH1.
  split; [done|].
  change (sum_list_with id ?l) with (sum_list l). rewrite IH2, notify_total.
  unfold id. lia.
Qed.

Lemma loop_total k ds certs :
  List.length (loop w rcpts k ds certs).1 = List.length certs
  ∧ sum_list ((λ c, List.length (notificationsSent c)) <$> (loop w rcpts k ds certs).1)
    = (sum_list ((λ c, List.length (notificationsSent c)) <$> certs)
       + List.length (List.filter is_delivered (loop w rcpts k ds certs).2))%nat.
Proof.
  revert k certs. induction ds as [|d ds IH]; intros k certs.
  - cbn. split; [done|lia].
  - cbn [loop fst snd].
    destruct (IH (S k) (sweep w rcpts k d 0 certs).1) as [IH1 IH2].
    destruct (sweep_total k d 0 certs) as [S1 S2].
    rewrite List.filter_app, length_app, IH1, IH2, S1, S2. split; [done|lia].
Qed.

Lemma events_split (evs : list Event) :
  (List.length (List.filter is_delivered evs)
   + List.length (List.filter (λ e, negb (is_delivered e)) evs))%nat
  = List.length evs
  ∧ List.length (evs ≫= error_of)
    = List.length (List.filter (λ e, negb (is_delivered e)) evs).
Proof.
  induction evs as [|[?|?] evs [IH1 IH2]]; [done| |]; cbn in *; split; lia.
Qed.

End RecordFacts.

(** X23.  The figures of a run of [sendExpirationNotifications] account
    for what it did: [sent] and [failed] add up to the calls of
    [sendExpirationEmail], there is one entry of [errors] per failed call,
    no document is added or removed, and the collection holds exactly
    [sent] notification records more than before. *)
Theorem run_accounts
    (settings : option NotificationService.Settings)
    (users : list NotificationService.User) (w : NotificationService.World)
    (certs : list Certificate.t) :
  let r := NotificationService.sendExpirationNotifications settings users w certs in
  let records := λ cs : list Certificate.t,
    Z.of_nat (sum_list ((λ c, List.length (Certificate.notificationsSent c)) <$> cs)) in
  NotificationService.sent (NotificationService.result r)
    + NotificationService.failed (NotificationService.result r)
    = Z.of_nat (List.length (NotificationService.events r))
  ∧ Z.of_nat (List.length (NotificationService.errors (NotificationService.result r)))
    = NotificationService.failed (NotificationService.result r)
  ∧ List.length (NotificationService.certificates r) = List.length certs
  ∧ records (NotificationService.certificates r)
    = records certs + NotificationService.sent (NotificationService.result r).
Proof.
  cbv zeta. unfold NotificationService.sendExpirationNotifications.
  assert (∀ n : nat, Z.of_nat n = Z.of_nat n + 0) as Hz by (intros; lia).
  destruct settings as [s|]; [|by split_and!].
  destruct (NotificationService.enabled s); cbn [negb]; [|by split_and!].
  case_bool_decide; [by split_and!|].
  case_bool_decide; [by split_and!|].
  set (rcpts := NotificationService.resolveRecipients _ _).
  set (ds := NotificationService.enabledThresholds s).
  destruct (loop_total w rcpts 0 ds certs) as [L1 L2].
  destruct (events_split (NotificationService.loop w rcpts 0 ds certs).2) as [E1 E2].
  cbn [NotificationService.result NotificationService.certificates
       NotificationService.events NotificationService.success
       NotificationService.sent NotificationService.failed
       NotificationService.errors].
  split_and!; [lia|lia|done|lia].
Qed.



(** ** The text of a mail and the search filters *)

Section TextFacts.
Import JS Lang Html Ldap.

Lemma replaceAll_append c b (s t : string) :
  replaceAll c b (s +:+ t) = replaceAll c b s +:+ replaceAll c b t.
Proof.
  induction s as [|x s IH]; [done|]. rewrite append_cons. cbn [replaceAll].
  destruct (is_char c x); by rewrite IH, ?append_assoc, ?append_cons.
Qed.

Lemma is_char_eq x c : is_char x c = true ↔ c = x.
Proof. unfold is_char. rewrite Ascii.eqb_eq. split; congruence. Qed.

Lemma escapeHtml_cons x s : escapeHtml (String x s) = entity x +:+ escapeHtml s.
Proof.
  unfold escapeHtml, entity. cbn [replaceAll].
  destruct (is_char "&" x) eqn:E1.
  { by rewrite !replaceAll_append. }
  cbn [replaceAll]. destruct (is_char "<" x) eqn:E2.
  { by rewrite !replaceAll_append. }
  cbn [replaceAll]. destruct (is_char ">" x) eqn:E3.
  { by rewrite !replaceAll_append. }
  cbn [replaceAll]. destruct (is_char dquote x) eqn:E4.
  { by rewrite !replaceAll_append. }
  cbn [replaceAll]. by destruct (is_char squote x) eqn:E5.
Qed.

Lemma entity_plain x :
  every (λ c, negb (is_char "<" c || is_char ">" c || is_char dquote c
                    || is_char squote c)) (entity x) = true.
Proof.
  unfold entity.
  destruct (is_char "&" x) eqn:E1; [done|].
  destruct (is_char "<" x) eqn:E2; [done|].
  destruct (is_char ">" x) eqn:E3; [done|].
  destruct (is_char dquote x) eqn:E4; [done|].
  destruct (is_char squote x) eqn:E5; [done|].
  cbn [every]. by rewrite E2, E3, E4, E5.
Qed.

Lemma count_append c (s t : string) :
  count c (s +:+ t) = (count c s + count c t)%nat.
Proof.
  induction s as [|x s IH]; [done|]. rewrite append_cons. cbn [count].
  rewrite IH. lia.
Qed.

Lemma count_none c p s :
  p c = false → every p s = true → count c s = 0%nat.
Proof.
  intros Hc. induction s as [|x s IH]; [done|]. cbn [every count].
  intros [Hx Hs]%andb_true_iff. rewrite (IH Hs).
  destruct (is_char c x) eqn:E; [|done].
  apply is_char_eq in E as ->. congruence.
Qed.

Lemma special_cases c :
  special c = true →
  c = "\"%char ∨ c = "*"%char ∨ c = "("%char ∨ c = ")"%char ∨ c = "/"%char
  ∨ c = "000"%char.
Proof.
  unfold special. rewrite !orb_true_iff, !is_char_eq. tauto.
Qed.

Lemma escapeLdap_plain v :
  every (λ c, negb (is_char "*" c || is_char "(" c || is_char ")" c
                    || is_char "/" c || is_char "000" c))
    (escapeLdapFilter v) = true.
Proof.
  induction v as [|c v IH]; [done|]. cbn [escapeLdapFilter].
  destruct (special c) eqn:Hs.
  - apply special_cases in Hs as [->|[->|[->|[->|[->| ->]]]]];
      cbn [every]; rewrite every_append, IH; reflexivity.
  - cbn [every]. rewrite IH, andb_true_r.
    unfold special in Hs. rewrite !orb_false_iff in Hs.
    destruct Hs as [[[[[_ ->] ->] ->] ->] ->]. done.
Qed.

Lemma unescape_escape v : unescape (escapeLdapFilter v) = Some v.
Proof.
  induction v as [|c v IH]; [done|]. cbn [escapeLdapFilter].
  destruct (special c) eqn:Hs.
  - apply special_cases in Hs as [->|[->|[->|[->|[->| ->]]]]];
      vm_compute hex2; rewrite !append_cons, append_nil_l;
      cbn [unescape]; rewrite IH; reflexivity.
  - cbn [unescape]. unfold special in Hs. rewrite !orb_false_iff in Hs.
    destruct Hs as [[[[[-> _] _] _] _] _]. by rewrite IH.
Qed.

End TextFacts.

(** X25.  [escapeHtml] replaces each of the five characters by its entity
    in one pass, an ampersand written by a replacement is not escaped
    again, and what it returns holds no angle bracket and no quote of
    either kind; the same is true of the list of servers a mail shows. *)
Theorem escape_html_entities (str : string) (cert : Certificate.t) :
  Html.escapeHtml str = Html.entities str
  ∧ Lang.every (λ c, negb (JS.is_char "<" c || JS.is_char ">" c
                           || JS.is_char JS.dquote c || JS.is_char JS.squote c))
      (Html.escapeHtml str) = true
  ∧ Lang.every (λ c, negb (JS.is_char "<" c || JS.is_char ">" c
                           || JS.is_char JS.dquote c || JS.is_char JS.squote c))
      (Html.deployedServers cert) = true.
Proof.
  assert (∀ s, Html.escapeHtml s = Html.entities s) as Hent.
  { induction s as [|x s IH]; [done|].
    rewrite escapeHtml_cons. cbn [Html.entities]. by rewrite IH. }
  assert (∀ s, Lang.every (λ c, negb (JS.is_char "<" c || JS.is_char ">" c
                           || JS.is_char JS.dquote c || JS.is_char JS.squote c))
                 (Html.escapeHtml s) = true) as Hplain.
  { intros s. rewrite Hent. induction s as [|x s IH]; [done|].
    cbn [Html.entities]. by rewrite every_append, entity_plain, IH. }
  split_and!; [apply Hent|apply Hplain|].
  unfold Html.deployedServers. destruct (JS.truthy _); [|done].
  apply every_join; [done|]. apply Forall_fmap, Forall_forall.
  intros s _. apply Hplain.
Qed.

(** X26.  [escapeLdapFilter] can be undone: reading each backslash and two
    hexadecimal digits as the character of that code gives the value back.
    What it returns holds no asterisk, parenthesis, slash or NUL, so that
    the filters [getUserFilter] and [getGroupFilter] build have the three
    pairs of parentheses of their pattern and no more. *)
Theorem ldap_filter_escaped (value : string) :
  Ldap.unescape (Ldap.escapeLdapFilter value) = Some value
  ∧ Lang.every (λ c, negb (JS.is_char "*" c || JS.is_char "(" c || JS.is_char ")" c
                           || JS.is_char "/" c || JS.is_char "000" c))
      (Ldap.escapeLdapFilter value) = true
  ∧ Ldap.count "(" (Ldap.getUserFilter value) = 3%nat
  ∧ Ldap.count ")" (Ldap.getUserFilter value) = 3%nat
  ∧ Ldap.count "(" (Ldap.getGroupFilter value) = 3%nat
  ∧ Ldap.count ")" (Ldap.getGroupFilter value) = 3%nat.
Proof.
  pose proof (escapeLdap_plain value) as Hp.
  assert (Ldap.count "(" (Ldap.escapeLdapFilter value) = 0%nat) as Hopen
    by (eapply count_none; [|exact Hp]; reflexivity).
  assert (Ldap.count ")" (Ldap.escapeLdapFilter value) = 0%nat) as Hclose
    by (eapply count_none; [|exact Hp]; reflexivity).
  split_and!; [apply unescape_escape|done|..];
    unfold Ldap.getUserFilter, Ldap.getGroupFilter;
    rewrite !count_append, ?Hopen, ?Hclose; reflexivity.
Qed.
(** ** The dispatcher: no mail without cause *)

Section CauseFacts.
Import Certificate NotificationService Cause.
Variables (w : World) (rcpts : list string).

Lemma notify_event k d i c e :
  e ∈ (notify w rcpts k d i c).2 → caused w rcpts k d i c e.
Proof.
  unfold notify, caused.
  destruct (expiringInDays (clock w k) d c); cbn [negb];
    [|by intros ?%elem_of_nil].
  destruct (alreadySent d c) eqn:Ha; [by intros ?%elem_of_nil|].
  apply alreadySent_count in Ha.
  destruct (sendMail w k i); cbn [snd]; intros ->%list_elem_of_singleton; done.
Qed.

Lemma sweep_event k d i certs e :
  e ∈ (sweep w rcpts k d i certs).2 →
  ∃ j c, certs !! j = Some c ∧ e ∈ (notify w rcpts k d (i + j) c).2.
Proof.
  revert i. induction certs as [|c certs IH]; intros i; cbn [sweep snd].
  - by intros ?%elem_of_nil.
  - intros [H|H]%elem_of_app.
    + exists 0%nat, c. by rewrite Nat.add_0_r.
    + destruct (IH _ H) as (j & c' & Hj & He). exists (S j), c'.
      split; [done|]. by rewrite <- Nat.add_succ_comm.
Qed.

Lemma sweep_lookup_inv k d i certs j c' :
  (sweep w rcpts k d i certs).1 !! j = Some c' →
  ∃ c, certs !! j = Some c ∧ c' = (notify w rcpts k d (i + j) c).1.
Proof.
  intros H. destruct (certs !! j) as [c|] eqn:Hj.
  - exists c. split; [done|].
    rewrite (sweep_lookup w rcpts k d i certs j c Hj) in H. by injection H.
  - exfalso. apply lookup_lt_Some in H. apply lookup_ge_None in Hj.
    assert (∀ i, List.length (sweep w rcpts k d i certs).1 = List.length certs) as Hlen.
    { clear. induction certs as [|c certs IH]; intros i; [done|].
      cbn [sweep fst List.length]. by rewrite IH. }
    rewrite Hlen in H. lia.
Qed.

Lemma notify_same k d i c :
  status (notify w rcpts k d i c).1 = status c
  ∧ validTo (notify w rcpts k d i c).1 = validTo c
  ∧ commonName (notify w rcpts k d i c).1 = commonName c.
Proof. unfold notify. by repeat case_match. Qed.

Lemma caused_earlier k d i c k' d' e :
  caused w rcpts k d i (notify w rcpts k' d' i c).1 e → caused w rcpts k d i c e.
Proof.
  destruct (notify_same k' d' i c) as (Hs & Hv & Hn).
  unfold caused, subjectOf. rewrite Hn.
  rewrite (expiringInDays_fields _ _ _ _ Hs Hv).
  intros (? & Hz & ?). split_and!; [done| |done].
  pose proof (notify_mono w rcpts k' d' i c (typeOf d)). lia.
Qed.

Lemma loop_event k ds certs e :
  e ∈ (loop w rcpts k ds certs).2 →
  ∃ n d j c, ds !! n = Some d ∧ certs !! j = Some c
             ∧ caused w rcpts (k + n) d j c e.
Proof.
  revert k certs. induction ds as [|d ds IH]; intros k certs; cbn [loop snd].
  - by intros ?%elem_of_nil.
  - intros [H|H]%elem_of_app.
    + apply sweep_event in H as (j & c & Hj & He).
      exists 0%nat, d, j, c. rewrite Nat.add_0_r.
      split_and!; [done|done|]. by apply notify_event.
    + apply IH in H as (n & d' & j & c' & Hn & Hj & He).
      apply sweep_lookup_inv in Hj as (c & Hj & ->).
      exists (S n), d', j, c. rewrite <- Nat.add_succ_comm.
      split_and!; [done|done|]. by eapply caused_earlier.
Qed.

End CauseFacts.

(** X27.  No mail without cause.  Every call of [sendExpirationEmail] a run
    logs, delivered or failed, is for an enabled threshold of the settings
    and a document of the collection that is not revoked, whose validTo
    lies in the one-day window of the threshold at the time the threshold
    is queried and which had no record of the type of the threshold before
    the run; a delivered mail goes to the resolved recipients. *)
Theorem no_mail_without_cause
    (settings : option NotificationService.Settings)
    (users : list NotificationService.User) (w : NotificationService.World)
    (certs : list Certificate.t) (e : NotificationService.Event) :
  e ∈ NotificationService.events
        (NotificationService.sendExpirationNotifications settings users w certs) →
  ∃ s t k i c,
    settings = Some s ∧ NotificationService.enabled s = true
    ∧ t ∈ NotificationService.thresholds s
    ∧ NotificationService.t_enabled t = true
    ∧ NotificationService.enabledThresholds s !! k
      = Some (NotificationService.days t)
    ∧ certs !! i = Some c
    ∧ Certificate.status c ≠ Certificate.revoked
    ∧ NotificationService.clock w k
        + CertificateService.days_ms (NotificationService.days t - 1)
      ≤ Certificate.validTo c
      ≤ NotificationService.clock w k
        + CertificateService.days_ms (NotificationService.days t)
    ∧ NotificationService.sentOfType
        (NotificationService.typeOf (NotificationService.days t)) c = 0%nat
    ∧ match NotificationService.sendMail w k i with
      | None =>
          e = NotificationService.Delivered i (NotificationService.days t)
                (NotificationService.resolveRecipients users
                   (NotificationService.recipients s))
                (NotificationService.subjectOf (NotificationService.days t) c)
      | Some m =>
          e = NotificationService.Failed i (NotificationService.days t)
                ("Failed to send for " +:+ Certificate.commonName c +:+ ": " +:+ m)
      end.
Proof.
  unfold NotificationService.sendExpirationNotifications.
  destruct settings as [s|]; [|by intros ?%elem_of_nil].
  destruct (NotificationService.enabled s) eqn:He; cbn [negb];
    [|by intros ?%elem_of_nil].
  case_bool_decide as Hds; [by intros ?%elem_of_nil|].
  case_bool_decide as Hrc; [by intros ?%elem_of_nil|].
  cbn [NotificationService.events]. intros Hev.
  apply loop_event in Hev as (n & d & j & c & Hn & Hj & Hin & Hz & Hev).
  rewrite Nat.add_0_l in *.
  assert (d ∈ NotificationService.enabledThresholds s) as Hd
    by (by eapply list_elem_of_lookup_2).
  unfold NotificationService.enabledThresholds in Hd.
  rewrite merge_sort_Permutation in Hd.
  apply list_elem_of_fmap in Hd as (t & -> & Ht).
  apply list_elem_of_In, List.filter_In in Ht as [Ht Hen].
  exists s, t, n, j, c.
  unfold NotificationService.expiringInDays in Hin.
  apply andb_true_iff in Hin as [[Hrev Hlo]%andb_true_iff Hhi].
  apply negb_true_iff, bool_decide_eq_false_1 in Hrev.
  apply Z.leb_le in Hlo, Hhi.
  split_and!; try done. by apply list_elem_of_In.
Qed.

Lemma no_mail_without_cause_witness :
  ∃ t, t ∈ NotificationService.thresholds Sample.settings
       ∧ NotificationService.days t = 7.
Proof.
  destruct (no_mail_without_cause (Some Sample.settings) [] Sample.world
              [Sample.cert Certificate.active (1000 + CertificateService.days_ms 7) []]
              (NotificationService.Delivered 0 7 ["pki-ops@example.com"]
                 "[CRITICAL] Certificate Expiring in 7 Days: www.example.com"))
    as (s & t & k & i & c & [= <-] & _ & Ht & _ & _ & _ & _ & _ & _ & He).
  { vm_compute. left. }
  exists t. split; [exact Ht|].
  cbn in He. by injection He.
Defined.

(** X28.  [submitCSRToCA] runs nothing before its checks: if it starts a
    process, the request has a non-empty CSR text, its target CA is in the
    collection with a configuration string that passes
    [validateConfigString], and its template name, [WebServer] when none
    is set, is of the form [/^[a-zA-Z0-9 _-]+$/].  The status of the
    request plays no part: a request without CSR text is answered with
    status 400 and left as it was. *)
Theorem submit_checks_first
    (path_join : string → string → string) (path_resolve : string → string)
    (SCRIPTS_DIR : string) (TEMP : option string)
    (cas : gmap string string) (id : string) (now : Z)
    (e : PowerShell.ProcessEnd) (st : gmap string CSR.CSRRequest)
    (csr : CSR.CSRRequest) :
  st !! id = Some csr →
  let out := CSR.submitCSRToCA path_join path_resolve SCRIPTS_DIR TEMP
               cas id now e st in
  (CSR.invoked out ≠ [] →
   JS.truthy_opt (CSR.csrPEM csr) = true
   ∧ (∃ ca configString,
        CSR.targetCAId csr = Some ca ∧ cas !! ca = Some configString
        ∧ PowerShell.validateConfigString configString = true)
   ∧ JS.test PowerShell.TEMPLATE_REGEX
       (JS.or_else (CSR.templateName csr) "WebServer") = true)
  ∧ (JS.truthy_opt (CSR.csrPEM csr) = false →
     out = CSR.reply st (CSR.err 400 "CSR must be generated first")).
Proof.
  intros Hid. cbv zeta. unfold CSR.submitCSRToCA. rewrite Hid.
  destruct (JS.truthy_opt (CSR.csrPEM csr)) eqn:Hpem; cbn [negb]; [|by split].
  split; [|done].
  destruct (CSR.targetCAId csr) as [ca|] eqn:Hca; cbn [mbind option_bind];
    [|done].
  destruct (cas !! ca) as [configString|] eqn:Hcfg; [|done].
  change (CSR.templateName (CSR.updateWorkflowStep _ _ _ _ _))
    with (CSR.templateName csr).
  set (g := PowerShell.submitCSR _ _ _ _ _ _).
  assert (PowerShell.spawned g ≠ [] →
          PowerShell.validateConfigString configString = true
          ∧ JS.test PowerShell.TEMPLATE_REGEX
              (JS.or_else (CSR.templateName csr) "WebServer") = true) as Hg.
  { unfold g, PowerShell.submitCSR.
    destruct (PowerShell.validateConfigString configString); [|done].
    destruct (JS.test PowerShell.TEMPLATE_REGEX _); done. }
  clearbody g.
  destruct (PowerShell.settle g e) as [m|r]; [|destruct (PowerShell.success r)];
    cbn [CSR.invoked]; intros Hinv; destruct (Hg Hinv) as [? ?];
    split_and!; eauto.
Qed.

Lemma submit_checks_first_witness :
  CSR.submitCSRToCA Sample.path_join Sample.path_resolve Sample.SCRIPTS_DIR None
    ∅ "65a1" 4000 (PowerShell.Close (Some 0) "" "")
    {[ "65a1" := Sample.csr "SHA256" CSR.draft None ]}
  = CSR.reply {[ "65a1" := Sample.csr "SHA256" CSR.draft None ]}
      (CSR.err 400 "CSR must be generated first").
Proof.
  destruct (submit_checks_first Sample.path_join Sample.path_resolve
              Sample.SCRIPTS_DIR None ∅ "65a1" 4000
              (PowerShell.Close (Some 0) "" "")
              {[ "65a1" := Sample.csr "SHA256" CSR.draft None ]}
              (Sample.csr "SHA256" CSR.draft None)) as [_ H]; [reflexivity|].
  by apply H.
Defined.
